(** * Project importer of the editor: a shallow embedding and its properties

    The development follows [ProjectImporter] (project importer of the
    renderer): [ImportProject], [_ImportProject], [ImportMesh],
    [_SetWaitingParent] and [_RefreshEditor].

    The rendering engine, the file system and the editor widgets are
    collaborators of the importer.  Their state is kept in an explicit
    [World]; what they compute is the record [Engine], a parameter of the
    importer.  Object references are positions in the scene's lists: the
    importer only ever appends to those lists, so a position names one object
    for the whole import.  The progress fraction is a rational number: the
    sums of the source are exact here.  A computation returns or throws,
    and what it did to the world before it threw stays done: the parent a
    setter stored before it failed, the meshes a rejected load had
    created. *)

From Stdlib Require Import QArith.
From stdpp Require Import base option list gmap strings.

Local Open Scope string_scope.
Local Open Scope list_scope.
#[local] Set Warnings "-register-all".

(** ** JavaScript values read from the JSON documents *)

Inductive Json : Type :=
| JNull
| JBool (b : bool)
| JNum (z : Z)
| JStr (s : string)
| JArr (l : list Json)
| JObj (fields : list (string * Json)).

(** A JavaScript value is a JSON value or [undefined] ([None]). *)
Definition JsValue : Type := option Json.

(** Outcome of an evaluation: a value, or a thrown exception. *)
Inductive Res (A : Type) : Type :=
| Ok (a : A)
| Throw.
Arguments Ok {A} a.
Arguments Throw {A}.

Fixpoint assoc (k : string) (fs : list (string * Json)) : JsValue :=
  match fs with
  | [] => None
  | (k', v) :: fs' => if String.eqb k k' then Some v else assoc k fs'
  end.

(** [v.k]: reading a property of [undefined] or [null] throws. *)
Definition jget (v : JsValue) (k : string) : Res JsValue :=
  match v with
  | None | Some JNull => Throw
  | Some (JObj fs) => Ok (assoc k fs)
  | Some _ => Ok None
  end.

(** [v[i]] *)
Definition jidx (v : JsValue) (i : nat) : Res JsValue :=
  match v with
  | None | Some JNull => Throw
  | Some (JArr l) => Ok (l !! i)
  | Some _ => Ok None
  end.

Fixpoint chars (s : string) : list Json :=
  match s with
  | EmptyString => []
  | String c s' => JStr (String c EmptyString) :: chars s'
  end.

(** [for (const x of v)]: arrays and strings are iterable, the rest throws. *)
Definition jiter (v : JsValue) : Res (list Json) :=
  match v with
  | Some (JArr l) => Ok l
  | Some (JStr s) => Ok (chars s)
  | _ => Throw
  end.

(** Truthiness of a value, as tested by [if (v)] and [!v]. *)
Definition truthy (v : JsValue) : bool :=
  match v with
  | None | Some JNull => false
  | Some (JBool b) => b
  | Some (JNum z) => negb (Z.eqb z 0)
  | Some (JStr s) => negb (String.eqb s EmptyString)
  | Some (JArr _) | Some (JObj _) => true
  end.

(** [a === b] on values of two different documents: primitives compare by
    value, objects and arrays are never the same object. *)
Definition strict_eq (a b : JsValue) : bool :=
  match a, b with
  | None, None => true
  | Some JNull, Some JNull => true
  | Some (JBool x), Some (JBool y) => Bool.eqb x y
  | Some (JNum x), Some (JNum y) => Z.eqb x y
  | Some (JStr x), Some (JStr y) => String.eqb x y
  | _, _ => false
  end.

(** ** The scene *)

Inductive NodeRef : Type :=
| RMesh (i : nat)
| RLight (i : nat)
| RCamera (i : nat)
| RTransform (i : nat).

#[export] Instance NodeRef_eq_dec : EqDecision NodeRef.
Proof. solve_decision. Defined.

(** What a parser of the engine yields for a node, before the importer
    touches it. *)
Record NodeInit : Type := mkNodeInit {
  ni_id : string;
  ni_name : string;
  ni_className : string;
  ni_waitingParentId : JsValue;
}.

Record Node : Type := mkNode {
  n_id : string;
  n_name : string;
  n_className : string;
  n_parent : option NodeRef;
  _waitingParentId : JsValue;
  n_material : option nat;
  n_physicsImpostor : option nat;
  n_lodLevels : list (JsValue * nat);
}.

Definition newNode (i : NodeInit) : Node :=
  mkNode (ni_id i) (ni_name i) (ni_className i) None (ni_waitingParentId i)
         None None [].

Record Texture : Type := mkTexture {
  t_uniqueId : Z;
  t_name : string;
  t_metadata : JsValue;
}.

Record Material : Type := mkMaterial {
  m_id : string;
  m_isMulti : bool;
  m_textures : list Texture;
}.

Record ShadowGen : Type := mkShadowGen {
  sg_light : nat;
  sg_cascaded : bool;
}.

Record Scene : Type := mkScene {
  meshes : list Node;
  transformNodes : list Node;
  lights : list Node;
  cameras : list Node;
  textures : list Texture;
  materials : list Material;
  shadowGenerators : list ShadowGen;
  settings : list Json;
}.

Definition set_meshes (f : list Node -> list Node) (s : Scene) : Scene :=
  mkScene (f (meshes s)) (transformNodes s) (lights s) (cameras s)
          (textures s) (materials s) (shadowGenerators s) (settings s).
Definition set_transformNodes (f : list Node -> list Node) (s : Scene) : Scene :=
  mkScene (meshes s) (f (transformNodes s)) (lights s) (cameras s)
          (textures s) (materials s) (shadowGenerators s) (settings s).
Definition set_lights (f : list Node -> list Node) (s : Scene) : Scene :=
  mkScene (meshes s) (transformNodes s) (f (lights s)) (cameras s)
          (textures s) (materials s) (shadowGenerators s) (settings s).
Definition set_cameras (f : list Node -> list Node) (s : Scene) : Scene :=
  mkScene (meshes s) (transformNodes s) (lights s) (f (cameras s))
          (textures s) (materials s) (shadowGenerators s) (settings s).
Definition set_textures (f : list Texture -> list Texture) (s : Scene) : Scene :=
  mkScene (meshes s) (transformNodes s) (lights s) (cameras s)
          (f (textures s)) (materials s) (shadowGenerators s) (settings s).
Definition set_materials (f : list Material -> list Material) (s : Scene) : Scene :=
  mkScene (meshes s) (transformNodes s) (lights s) (cameras s)
          (textures s) (f (materials s)) (shadowGenerators s) (settings s).
Definition set_shadowGenerators (f : list ShadowGen -> list ShadowGen) (s : Scene) : Scene :=
  mkScene (meshes s) (transformNodes s) (lights s) (cameras s)
          (textures s) (materials s) (f (shadowGenerators s)) (settings s).
Definition set_settings (f : list Json -> list Json) (s : Scene) : Scene :=
  mkScene (meshes s) (transformNodes s) (lights s) (cameras s)
          (textures s) (materials s) (shadowGenerators s) (f (settings s)).

(** Position of the first node of [l] whose id is [v]; ids are strings, so
    only a string value can be found. *)
Fixpoint findById (v : JsValue) (l : list Node) : option nat :=
  match l with
  | [] => None
  | n :: l' =>
      if strict_eq (Some (JStr (n_id n))) v then Some 0
      else S <$> findById v l'
  end.

Definition getMeshByID (s : Scene) (v : JsValue) : option nat :=
  findById v (meshes s).
Definition getLightByID (s : Scene) (v : JsValue) : option nat :=
  findById v (lights s).
Definition getCameraByID (s : Scene) (v : JsValue) : option nat :=
  findById v (cameras s).

(** Modelled from the spec: the engine's generic node index holds meshes,
    lights and cameras; transform nodes are not part of it. *)
Definition getNodeByID (s : Scene) (v : JsValue) : option NodeRef :=
  match getMeshByID s v with
  | Some i => Some (RMesh i)
  | None =>
      match getLightByID s v with
      | Some i => Some (RLight i)
      | None => RCamera <$> getCameraByID s v
      end
  end.

Definition getTransformNodeByID (s : Scene) (v : JsValue) : option NodeRef :=
  RTransform <$> findById v (transformNodes s).

(** The engine compares [texture.uniqueId === uniqueId]. *)
Definition getTextureByUniqueID (s : Scene) (v : JsValue) : option Texture :=
  List.find (fun t => strict_eq (Some (JNum (t_uniqueId t))) v) (textures s).

(** ** The project manifest ([IProject]) *)

Record MaterialRecord : Type := mkMaterialRecord {
  bindedMeshes : list string;
  mr_json : string;
  isMultiMaterial : bool;
}.

Record LightRecord : Type := mkLightRecord {
  lr_json : string;
  shadowGenerator : option string;
}.

Record PostProcessRecord : Type := mkPostProcessRecord {
  pp_enabled : bool;
  pp_json : Json;
}.

Record IProject : Type := mkProject {
  p_filesList : list string;
  p_cameras : list string;
  p_textures : list string;
  p_materials : list MaterialRecord;
  p_meshes : list string;
  p_transformNodes : option (list string);
  p_lights : list LightRecord;
  p_scene : Json;
  p_assets_meshes : list string;
  p_assets_prefabs : option (list string);
  p_project_camera : Json;
  p_ssao : option PostProcessRecord;
  p_standard : option PostProcessRecord;
  p_default : option PostProcessRecord;
}.

Record IFile : Type := mkFile {
  f_path : string;
  f_name : string;
}.

(** ** The world the importer acts on *)

Inductive Pipeline : Type := SSAO | Standard | Default.

(** Calls to the collaborators, in the order they happen. *)
Inductive Event : Type :=
| OverlayShow (msg : string)
| OverlaySetMessage (msg : string)
| OverlaySetSpinnervalue (q : Q)
| OverlayHide
| LogInfo (msg : string)
| LogWarning (msg : string)
| LogError (msg : string)
| ReadJSON (path : string)
| AssetsRefresh
| GraphRefresh.

(** The engine's texture parser: the textures it adds to the scene, and the
    texture it yields, unless it throws. *)
Definition TexParser : Type :=
  Json -> Scene -> string -> list Texture * Res Texture.

Record World : Type := mkWorld {
  scene : Scene;
  trace : list Event;
  _TextureParser : TexParser;
  FilesStore_List : gmap string IFile;
  MeshesAssets_Meshes : list IFile;
  PrefabAssets_Prefabs : list IFile;
  Project_Path : option string;
  Project_DirPath : option string;
  editorCamera : option Json;
  pipelines : list (Pipeline * Json * bool);
  cachedData : option Json;
  onReady : nat;
}.

Definition set_scene (f : Scene -> Scene) (w : World) : World :=
  mkWorld (f (scene w)) (trace w) (_TextureParser w) (FilesStore_List w)
          (MeshesAssets_Meshes w) (PrefabAssets_Prefabs w) (Project_Path w)
          (Project_DirPath w) (editorCamera w) (pipelines w) (cachedData w)
          (onReady w).
Definition emit (e : Event) (w : World) : World :=
  mkWorld (scene w) (trace w ++ [e]) (_TextureParser w) (FilesStore_List w)
          (MeshesAssets_Meshes w) (PrefabAssets_Prefabs w) (Project_Path w)
          (Project_DirPath w) (editorCamera w) (pipelines w) (cachedData w)
          (onReady w).
Definition set_TextureParser (p : TexParser) (w : World) : World :=
  mkWorld (scene w) (trace w) p (FilesStore_List w)
          (MeshesAssets_Meshes w) (PrefabAssets_Prefabs w) (Project_Path w)
          (Project_DirPath w) (editorCamera w) (pipelines w) (cachedData w)
          (onReady w).
Definition set_FilesStore (f : gmap string IFile -> gmap string IFile)
    (w : World) : World :=
  mkWorld (scene w) (trace w) (_TextureParser w) (f (FilesStore_List w))
          (MeshesAssets_Meshes w) (PrefabAssets_Prefabs w) (Project_Path w)
          (Project_DirPath w) (editorCamera w) (pipelines w) (cachedData w)
          (onReady w).
Definition push_MeshesAssets (x : IFile) (w : World) : World :=
  mkWorld (scene w) (trace w) (_TextureParser w) (FilesStore_List w)
          (MeshesAssets_Meshes w ++ [x]) (PrefabAssets_Prefabs w)
          (Project_Path w) (Project_DirPath w) (editorCamera w) (pipelines w)
          (cachedData w) (onReady w).
Definition push_PrefabAssets (x : IFile) (w : World) : World :=
  mkWorld (scene w) (trace w) (_TextureParser w) (FilesStore_List w)
          (MeshesAssets_Meshes w) (PrefabAssets_Prefabs w ++ [x])
          (Project_Path w) (Project_DirPath w) (editorCamera w) (pipelines w)
          (cachedData w) (onReady w).
Definition set_Project (path dir : string) (w : World) : World :=
  mkWorld (scene w) (trace w) (_TextureParser w) (FilesStore_List w)
          (MeshesAssets_Meshes w) (PrefabAssets_Prefabs w) (Some path)
          (Some dir) (editorCamera w) (pipelines w) (cachedData w)
          (onReady w).
Definition set_editorCamera (j : Json) (w : World) : World :=
  mkWorld (scene w) (trace w) (_TextureParser w) (FilesStore_List w)
          (MeshesAssets_Meshes w) (PrefabAssets_Prefabs w) (Project_Path w)
          (Project_DirPath w) (Some j) (pipelines w) (cachedData w)
          (onReady w).
Definition push_pipeline (x : Pipeline * Json * bool) (w : World) : World :=
  mkWorld (scene w) (trace w) (_TextureParser w) (FilesStore_List w)
          (MeshesAssets_Meshes w) (PrefabAssets_Prefabs w) (Project_Path w)
          (Project_DirPath w) (editorCamera w) (pipelines w ++ [x])
          (cachedData w) (onReady w).
Definition set_cachedData (j : Json) (w : World) : World :=
  mkWorld (scene w) (trace w) (_TextureParser w) (FilesStore_List w)
          (MeshesAssets_Meshes w) (PrefabAssets_Prefabs w) (Project_Path w)
          (Project_DirPath w) (editorCamera w) (pipelines w) (Some j)
          (onReady w).
Definition set_onReady (f : nat -> nat) (w : World) : World :=
  mkWorld (scene w) (trace w) (_TextureParser w) (FilesStore_List w)
          (MeshesAssets_Meshes w) (PrefabAssets_Prefabs w) (Project_Path w)
          (Project_DirPath w) (editorCamera w) (pipelines w) (cachedData w)
          (f (onReady w)).

(** ** Computations: state that survives a thrown exception *)

Definition M (A : Type) : Type := World -> World * Res A.

Definition ret {A} (a : A) : M A := fun w => (w, Ok a).
Definition throw {A} : M A := fun w => (w, Throw).
Definition bind {A B} (m : M A) (k : A -> M B) : M B :=
  fun w => match m w with
           | (w', Ok a) => k a w'
           | (w', Throw) => (w', Throw)
           end.
(** [try { m } catch (e) { h }] *)
Definition try_catch {A} (m : M A) (h : M A) : M A :=
  fun w => match m w with
           | (w', Ok a) => (w', Ok a)
           | (w', Throw) => h w'
           end.
Definition lift {A} (r : Res A) : M A := fun w => (w, r).
Definition gets {A} (f : World -> A) : M A := fun w => (w, Ok (f w)).
Definition modify (f : World -> World) : M unit := fun w => (f w, Ok tt).
Definition ofOption {A} (o : option A) : M A :=
  match o with Some a => ret a | None => throw end.

Declare Scope imp_scope.
Delimit Scope imp_scope with imp.
Notation "x <- m ; k" := (bind m (fun x => k))
  (at level 20, m at level 100, k at level 200, only parsing) : imp_scope.
Notation "m ;; k" := (bind m (fun _ => k))
  (at level 100, k at level 200, only parsing, right associativity) : imp_scope.
Local Open Scope imp_scope.

(** [for (const a of l) { s = body(s, a) }] *)
Fixpoint foldM {S A} (body : S -> A -> M S) (s : S) (l : list A) : M S :=
  match l with
  | [] => ret s
  | a :: l' => s' <- body s a; foldM body s' l'
  end.

(** [l.forEach(body)] and loops without a local accumulator. *)
Definition forM {A} (body : A -> M unit) (l : list A) : M unit :=
  foldM (fun _ a => body a) tt l.

Definition logInfo (msg : string) : M unit := modify (emit (LogInfo msg)).
Definition logWarning (msg : string) : M unit := modify (emit (LogWarning msg)).
Definition logError (msg : string) : M unit := modify (emit (LogError msg)).
Definition Overlay_Show (msg : string) : M unit := modify (emit (OverlayShow msg)).
Definition Overlay_SetMessage (msg : string) : M unit :=
  modify (emit (OverlaySetMessage msg)).
Definition Overlay_SetSpinnervalue (q : Q) : M unit :=
  modify (emit (OverlaySetSpinnervalue q)).
Definition Overlay_Hide : M unit := modify (emit OverlayHide).

(** The double quote of the log messages. *)
Definition dq : string := String (Ascii.ascii_of_nat 34) EmptyString.
Definition quoted (s : string) : string := dq ++ s ++ dq.

(** ** The collaborators of the importer *)

(** What the engine's mesh loader reads: a file under a root url, or the
    blob built from an inline LOD description. *)
Inductive MeshSource : Type :=
| FromFile (rootUrl filename : string)
| FromBlob (content : JsValue).

(** The functions of the path module, the file system and the engine.  A
    parser answers [None] when the engine throws; the nodes, textures and
    materials it yields enter the list of their kind in the scene.

    [Node_setParent s r p] tells whether the assignment [n.parent = p]
    returns, for the node [n] that [r] designates in the scene [s]: the
    setter of the engine stores the parent and then walks the descendants of
    [n] to update their enabled state, a walk that ends in a [RangeError]
    once [n] is its own ancestor.  [getLastEntryByID] is the lookup of the
    engine's mesh loader. *)
Record Engine : Type := mkEngine {
  join : list string -> string;
  dirname : string -> string;
  basename : string -> string;
  toStr : JsValue -> string;
  readProject : string -> option IProject;
  files : string -> option Json;
  ImportMeshAsync : MeshSource -> Scene -> option (list NodeInit);
  TransformNode_Parse : Json -> Scene -> string -> option NodeInit;
  Light_Parse : Json -> Scene -> option NodeInit;
  Camera_Parse : Json -> Scene -> option NodeInit;
  Texture_Parse : Json -> Scene -> string -> option Texture;
  Material_textures : Json -> list Json;
  Material_id : Json -> Scene -> option string;
  MultiMaterial_id : Json -> Scene -> option string;
  ShadowGenerator_lightId : Json -> JsValue;
  SerializationHelper_Parse : Pipeline -> Json -> Scene -> string -> bool;
  physicsEngine : option (Node -> Res (option nat));
  isReady : Scene -> bool;
  Node_setParent : Scene -> NodeRef -> option NodeRef -> bool;
  getLastEntryByID : Scene -> JsValue -> option NodeRef;
}.

(** The callback of [scene.textures.find] in the texture parser of the
    importer: [t.metadata && t.metadata.editorName === editorName]. *)
Definition sameEditorName (editorName : JsValue) (t : Texture) : bool :=
  truthy (t_metadata t) &&
  match jget (t_metadata t) "editorName" with
  | Ok v => strict_eq v editorName
  | Throw => false
  end.

(** The texture parser installed by [_ImportProject] in place of
    [textureParser], the one it found. *)
Definition hookedTextureParser (textureParser : TexParser) : TexParser :=
  fun source scene rootUrl =>
    match jget (Some source) "metadata" with
    | Throw => ([], Throw)
    | Ok md =>
        match (if truthy md then jget md "editorName" else Ok None) with
        | Throw => ([], Throw)
        | Ok en =>
            if truthy md && truthy en then
              match List.find (sameEditorName en) (textures scene) with
              | Some texture => ([], Ok texture)
              | None => textureParser source scene rootUrl
              end
            else textureParser source scene rootUrl
        end
    end.

Definition set_waiting (v : JsValue) (n : Node) : Node :=
  mkNode (n_id n) (n_name n) (n_className n) (n_parent n) v (n_material n)
         (n_physicsImpostor n) (n_lodLevels n).
Definition set_parent (p : option NodeRef) (n : Node) : Node :=
  mkNode (n_id n) (n_name n) (n_className n) p (_waitingParentId n)
         (n_material n) (n_physicsImpostor n) (n_lodLevels n).
Definition set_material (m : option nat) (n : Node) : Node :=
  mkNode (n_id n) (n_name n) (n_className n) (n_parent n) (_waitingParentId n)
         m (n_physicsImpostor n) (n_lodLevels n).
Definition set_physicsImpostor (p : option nat) (n : Node) : Node :=
  mkNode (n_id n) (n_name n) (n_className n) (n_parent n) (_waitingParentId n)
         (n_material n) p (n_lodLevels n).
Definition addLODLevel (distance : JsValue) (mesh : nat) (n : Node) : Node :=
  mkNode (n_id n) (n_name n) (n_className n) (n_parent n) (_waitingParentId n)
         (n_material n) (n_physicsImpostor n) (n_lodLevels n ++ [(distance, mesh)]).

(** The node a reference designates, and the scene with that node changed. *)
Definition nodeAt (s : Scene) (r : NodeRef) : option Node :=
  match r with
  | RMesh i => meshes s !! i
  | RLight i => lights s !! i
  | RCamera i => cameras s !! i
  | RTransform i => transformNodes s !! i
  end.

Definition alterNode (r : NodeRef) (f : Node -> Node) (s : Scene) : Scene :=
  match r with
  | RMesh i => set_meshes (alter f i) s
  | RLight i => set_lights (alter f i) s
  | RCamera i => set_cameras (alter f i) s
  | RTransform i => set_transformNodes (alter f i) s
  end.

(** What a call [_SetWaitingParent(n)] that returns makes of a node [n] of
    the scene [s]: the parent the two lookups find in [s] is stored, and
    [delete n._waitingParentId] leaves the waiting id [undefined]. *)
Definition linkNode (s : Scene) (n : Node) : Node :=
  if negb (truthy (_waitingParentId n)) then n
  else
    set_waiting None
      (set_parent
         (match getNodeByID s (_waitingParentId n) with
          | Some r => Some r
          | None => getTransformNodeByID s (_waitingParentId n)
          end) n).

(** What [list.forEach((n) => this._SetWaitingParent(n))] makes of one of
    the four node lists of the scene when every call returns: one position
    after the other, each call seeing the scene as the calls before it left
    it. *)
Fixpoint linkFrom (get : Scene -> list Node)
    (set : (list Node -> list Node) -> Scene -> Scene)
    (idxs : list nat) (s : Scene) : Scene :=
  match idxs with
  | [] => s
  | i :: idxs' =>
      linkFrom get set idxs' (set (alter (linkNode s) i) s)
  end.

Definition linkAll (get : Scene -> list Node)
    (set : (list Node -> list Node) -> Scene -> Scene) (s : Scene) : Scene :=
  linkFrom get set (seq 0 (length (get s))) s.

(** The scene the "Parent Ids" block of [_ImportProject] leaves when it
    runs to its end. *)
Definition linkParents (s : Scene) : Scene :=
  linkAll transformNodes set_transformNodes
    (linkAll cameras set_cameras
       (linkAll lights set_lights
          (linkAll meshes set_meshes s))).

Section Importer.

Variable E : Engine.

(** [readJSON(path)]: rejects when the file is missing or is not JSON. *)
Definition readJSON (path : string) : M Json :=
  modify (emit (ReadJSON path));; ofOption (files E path).

(** [readJSON(path) as IProject], for the manifest. *)
Definition readManifest (path : string) : M IProject :=
  modify (emit (ReadJSON path));; ofOption (readProject E path).

Definition updMesh (i : nat) (f : Node -> Node) : M unit :=
  modify (set_scene (set_meshes (alter f i))).

(** [n.parent = p], for the node [n] that [r] designates: the parent is
    stored, also when the setter then throws. *)
Definition assignParent (r : NodeRef) (p : option NodeRef) : M unit :=
  fun w => (set_scene (alterNode r (set_parent p)) w,
            if Node_setParent E (scene w) r p then Ok tt else Throw).

(** One turn of the loop by which the engine's loader connects parents,
    for the mesh at position [i]:
    [if (mesh._waitingParentId) { mesh.parent = scene.getLastEntryByID(...);
    mesh._waitingParentId = null; }]. *)
Definition connectParent (i : nat) : M unit :=
  n <- gets (fun w => meshes (scene w) !! i);
  match n with
  | None => ret tt
  | Some m =>
      if truthy (_waitingParentId m) then
        p <- gets (fun w => getLastEntryByID E (scene w) (_waitingParentId m));
        assignParent (RMesh i) p;;
        updMesh i (set_waiting (Some JNull))
      else ret tt
  end.

(** [SceneLoader.ImportMeshAsync]: the meshes it loads enter the scene, the
    loader then connects the parents of all the meshes of the scene, those
    of earlier calls included, and the result holds the references of the
    meshes it loaded.  The promise is rejected when the file cannot be
    loaded and when the connection of a parent throws. *)
Definition SceneLoader_ImportMeshAsync (src : MeshSource) : M (list nat) :=
  sc <- gets scene;
  nis <- ofOption (ImportMeshAsync E src sc);
  modify (set_scene (set_meshes (fun l => l ++ map newNode nis)));;
  forM connectParent (seq 0 (length (meshes sc) + length nis));;
  ret (seq (length (meshes sc)) (length nis)).

Definition meshName (i : nat) : M string :=
  gets (fun w => match meshes (scene w) !! i with
                 | Some n => n_name n
                 | None => EmptyString
                 end).

Definition instanceofMesh (i : nat) : M bool :=
  gets (fun w => match meshes (scene w) !! i with
                 | Some n => String.eqb (n_className n) "Mesh"
                 | None => false
                 end).

(** One turn of the LOD loop of [ImportMesh]. *)
Definition importLod (name : string) (result : list nat) (lod : Json) : M unit :=
  try_catch
    (lodMesh <- lift (jget (Some lod) "mesh");
     lodResult <- SceneLoader_ImportMeshAsync (FromBlob lodMesh);
     match head lodResult with
     | None => ret tt
     | Some mesh =>
         isMesh <- instanceofMesh mesh;
         if negb isMesh then ret tt
         else
           r0 <- ofOption (head result);
           distance <- lift (jget (Some lod) "distance");
           updMesh r0 (addLODLevel distance mesh);;
           ms <- lift (jget lodMesh "meshes");
           m0 <- lift (jidx ms 0);
           lodName <- lift (jget m0 "name");
           logInfo ("Parsed LOD level " ++ quoted (toStr E lodName)
                    ++ " for mesh " ++ quoted name)
     end)
    (r0 <- ofOption (head result);
     r0name <- meshName r0;
     logError ("Failed to load LOD for " ++ quoted r0name)).

Definition ImportMesh (name : string) (json : Json) (rootUrl filename : string)
    : M (list nat) :=
  result <- SceneLoader_ImportMeshAsync (FromFile rootUrl filename);
  logInfo ("Parsed mesh " ++ quoted name);;
  foldM (fun index m =>
           ms <- lift (jget (Some json) "meshes");
           mi <- lift (jidx ms index);
           parentId <- lift (jget mi "parentId");
           updMesh m (set_waiting parentId);;
           ret (S index)) 0%nat result;;
  lodsV <- lift (jget (Some json) "lods");
  lods <- lift (jiter lodsV);
  forM (importLod name result) lods;;
  ret result.

(** [_SetWaitingParent(n)], for the node [n] that [r] designates. *)
Definition _SetWaitingParent (r : NodeRef) : M unit :=
  n <- gets (fun w => nodeAt (scene w) r);
  match n with
  | None => ret tt
  | Some n =>
      if negb (truthy (_waitingParentId n)) then ret tt
      else
        sc <- gets scene;
        assignParent r
          (match getNodeByID sc (_waitingParentId n) with
           | Some p => Some p
           | None => getTransformNodeByID sc (_waitingParentId n)
           end);;
        modify (set_scene (alterNode r (set_waiting None)))
  end.

(** [_RefreshEditor] *)
Definition _RefreshEditor : M unit :=
  modify (emit AssetsRefresh);;
  modify (emit GraphRefresh);;
  Overlay_Hide.

(** *** The steps of [_ImportProject], in the order of the source *)

Section Steps.

Variables (dir rootUrl : string) (spinnerStep : Q).

Definition registerFile (f : string) : M unit :=
  let path := join E [dir; "files"; f] in
  modify (set_FilesStore (insert path (mkFile path (basename E f)))).

Definition configureAssets (project : IProject) : M unit :=
  forM (fun m => modify (push_MeshesAssets
                           (mkFile (join E [dir; "assets"; "meshes"; m]) m)))
       (p_assets_meshes project);;
  match p_assets_prefabs project with
  | Some ps =>
      forM (fun p => modify (push_PrefabAssets
                               (mkFile (join E [dir; "prefabs"; p]) p))) ps
  | None => ret tt
  end.

(** The body of the [try] of the mesh loop. *)
Definition importMeshFile (m : string) : M unit :=
  json <- readJSON (join E [dir; "meshes"; m]);
  ImportMesh m json dir (join E ["meshes"; m]);;
  ret tt.

Definition loadMesh (spinnerValue : Q) (m : string) : M Q :=
  try_catch
    (importMeshFile m)
    (logError ("Failed to load mesh " ++ quoted m));;
  Overlay_SetSpinnervalue (spinnerValue + spinnerStep);;
  ret (spinnerValue + spinnerStep)%Q.

Definition loadTransformNode (t : string) : M unit :=
  try_catch
    (json <- readJSON (join E [dir; "transform"; t]);
     sc <- gets scene;
     transform <- ofOption (TransformNode_Parse E json sc rootUrl);
     modify (set_scene (set_transformNodes (fun l => l ++ [newNode transform])));;
     parentId <- lift (jget (Some json) "parentId");
     modify (set_scene (set_transformNodes
               (alter (set_waiting parentId) (length (transformNodes sc))))))
    (logError ("Failed to load transform node " ++ quoted t)).

Definition loadImpostor (getImpostor : Node -> Res (option nat)) (i : nat)
    : M unit :=
  n <- gets (fun w => meshes (scene w) !! i);
  match n with
  | None => ret tt
  | Some m =>
      try_catch
        (imp <- lift (getImpostor m);
         updMesh i (set_physicsImpostor imp);;
         logInfo ("Parsed physics impostor for mesh " ++ quoted (n_name m)))
        (logError ("Failed to set physics impostor for mesh "
                   ++ quoted (n_name m)))
  end.

Definition loadImpostors : M unit :=
  match physicsEngine E with
  | Some getImpostor =>
      n <- gets (fun w => length (meshes (scene w)));
      forM (loadImpostor getImpostor) (seq 0 n)
  | None => ret tt
  end.

(** The engine's material parser asks the current texture parser for each
    texture of the payload. *)
Definition callTextureParser (source : Json) : M Texture :=
  fun w =>
    let '(new, r) := _TextureParser w source (scene w) rootUrl in
    (set_scene (set_textures (fun l => l ++ new)) w, r).

Definition Material_Parse (json : Json) : M nat :=
  ts <- foldM (fun acc source => t <- callTextureParser source; ret (acc ++ [t]))
              [] (Material_textures E json);
  sc <- gets scene;
  mid <- ofOption (Material_id E json sc);
  modify (set_scene (set_materials (fun l => l ++ [mkMaterial mid false ts])));;
  ret (length (materials sc)).

Definition MultiMaterial_ParseMultiMaterial (json : Json) : M nat :=
  sc <- gets scene;
  mid <- ofOption (MultiMaterial_id E json sc);
  modify (set_scene (set_materials (fun l => l ++ [mkMaterial mid true []])));;
  ret (length (materials sc)).

Definition bindMesh (m : MaterialRecord) (material : nat) (bm : string) : M unit :=
  mesh <- gets (fun w => getMeshByID (scene w) (Some (JStr bm)));
  match mesh with
  | Some i => updMesh i (set_material (Some material))
  | None =>
      logWarning ("Failed to attach material " ++ mr_json m
                  ++ " on mesh with id " ++ quoted bm)
  end.

Definition loadMaterial (spinnerValue : Q) (m : MaterialRecord) : M Q :=
  try_catch
    (json <- readJSON (join E [dir; "materials"; mr_json m]);
     material <- (if isMultiMaterial m then MultiMaterial_ParseMultiMaterial json
                  else Material_Parse json);
     logInfo ("Parsed material " ++ quoted (mr_json m));;
     forM (bindMesh m material) (bindedMeshes m))
    (logError ("Failed to parse material " ++ quoted (mr_json m)));;
  Overlay_SetSpinnervalue (spinnerValue + spinnerStep);;
  ret (spinnerValue + spinnerStep)%Q.

(** How the body of the texture loop ends: at its end, or by [continue]. *)
Inductive Completion : Type := Normal | Continue.

Definition loadTexture (spinnerValue : Q) (t : string) : M Q :=
  c <- try_catch
         (json <- readJSON (join E [dir; "textures"; t]);
          uniqueId <- lift (jget (Some json) "uniqueId");
          existing <- gets (fun w => getTextureByUniqueID (scene w) uniqueId);
          match existing with
          | Some _ => ret Continue
          | None =>
              sc <- gets scene;
              tex <- ofOption (Texture_Parse E json sc rootUrl);
              modify (set_scene (set_textures (fun l => l ++ [tex])));;
              logInfo ("Parsed texture " ++ quoted t);;
              ret Normal
          end)
         (logError ("Failed to parse texture " ++ quoted t);; ret Normal);
  match c with
  | Continue => ret spinnerValue
  | Normal =>
      Overlay_SetSpinnervalue (spinnerValue + spinnerStep);;
      ret (spinnerValue + spinnerStep)%Q
  end.

(** [ShadowGenerator.Parse] with the constructor callback of the importer:
    a cascaded generator when the payload is not a plain ["ShadowGenerator"]
    and the light is directional. *)
Definition ShadowGenerator_Parse (json : Json) : M unit :=
  sc <- gets scene;
  light <- ofOption (getLightByID sc (ShadowGenerator_lightId E json));
  className <- lift (jget (Some json) "className");
  let directional :=
    match lights sc !! light with
    | Some n => String.eqb (n_className n) "DirectionalLight"
    | None => false
    end in
  let cascaded :=
    negb (strict_eq className (Some (JStr "ShadowGenerator"))) && directional in
  modify (set_scene (set_shadowGenerators
            (fun l => l ++ [mkShadowGen light cascaded]))).

Definition truthyString (s : option string) : bool :=
  match s with
  | Some x => negb (String.eqb x EmptyString)
  | None => false
  end.

Definition loadLight (spinnerValue : Q) (l : LightRecord) : M Q :=
  try_catch
    (json <- readJSON (join E [dir; "lights"; lr_json l]);
     sc <- gets scene;
     light <- ofOption (Light_Parse E json sc);
     modify (set_scene (set_lights (fun ls => ls ++ [newNode light])));;
     logInfo ("Parsed light " ++ quoted (lr_json l));;
     if truthyString (shadowGenerator l) then
       json' <- readJSON (join E [dir; "shadows"; default EmptyString (shadowGenerator l)]);
       ShadowGenerator_Parse json';;
       logInfo ("Parsed shadows for light " ++ quoted (lr_json l))
     else ret tt)
    (logError ("Failed to parse light " ++ quoted "[object Object]"));;
  Overlay_SetSpinnervalue (spinnerValue + spinnerStep);;
  ret (spinnerValue + spinnerStep)%Q.

Definition loadCamera (spinnerValue : Q) (c : string) : M Q :=
  try_catch
    (json <- readJSON (join E [dir; "cameras"; c]);
     sc <- gets scene;
     camera <- ofOption (Camera_Parse E json sc);
     modify (set_scene (set_cameras (fun cs => cs ++ [newNode camera])));;
     logInfo ("Parsed camera " ++ quoted c))
    (logError ("Failed to parse camera " ++ quoted c));;
  Overlay_SetSpinnervalue (spinnerValue + spinnerStep);;
  ret (spinnerValue + spinnerStep)%Q.

Definition loadPostProcess (k : Pipeline) (r : option PostProcessRecord) : M unit :=
  match r with
  | None => ret tt
  | Some r =>
      sc <- gets scene;
      if SerializationHelper_Parse E k (pp_json r) sc rootUrl
      then modify (push_pipeline (k, pp_json r, pp_enabled r))
      else throw
  end.

Definition loadCache : M unit :=
  cache <- readJSON (join E [dir; "assets"; "cache.json"]);
  modify (set_cachedData cache).

(** [onReadyObservable.addOnce(...)] then [_checkIsReady()]: the refresh
    runs now when the scene is ready, and stays registered otherwise. *)
Definition signalReady : M unit :=
  modify (set_onReady S);;
  ready <- gets (fun w => isReady E (scene w));
  if ready then modify (set_onReady pred);; _RefreshEditor else ret tt.

(** The blocks of [_ImportProject] from "Load all meshes" on, each under
    the comment that opens it in the source. *)
Definition loadMeshes (project : IProject) : M Q :=
  Overlay_SetMessage "Creating Meshes...";;
  foldM loadMesh 0%Q (p_meshes project).

Definition loadTransformNodes (project : IProject) : M unit :=
  Overlay_SetMessage "Creating Transform Nodes";;
  forM loadTransformNode (default [] (p_transformNodes project)).

Definition loadMaterials (spinnerValue : Q) (ms : list MaterialRecord) : M Q :=
  Overlay_SetMessage "Creating Materials...";;
  foldM loadMaterial spinnerValue ms.

Definition loadTextures (spinnerValue : Q) (ts : list string) : M Q :=
  Overlay_SetMessage "Creating Textures...";;
  foldM loadTexture spinnerValue ts.

Definition loadLights (spinnerValue : Q) (project : IProject) : M Q :=
  Overlay_SetMessage "Creating Lights...";;
  foldM loadLight spinnerValue (p_lights project).

Definition loadCameras (spinnerValue : Q) (project : IProject) : M Q :=
  Overlay_SetMessage "Creating Cameras...";;
  foldM loadCamera spinnerValue (p_cameras project).

Definition loadPostProcesses (project : IProject) : M unit :=
  Overlay_SetMessage "Configuring Rendering...";;
  loadPostProcess SSAO (p_ssao project);;
  loadPostProcess Standard (p_standard project);;
  loadPostProcess Default (p_default project).

Definition updateCache : M unit :=
  Overlay_SetMessage "Loading Cache...";;
  loadCache.

(** The "Parent Ids" block: the four [forEach] over the lists of the
    scene.  No [try] surrounds it. *)
Definition setWaitingParents : M unit :=
  sc <- gets scene;
  forM (fun i => _SetWaitingParent (RMesh i)) (seq 0 (length (meshes sc)));;
  forM (fun i => _SetWaitingParent (RLight i)) (seq 0 (length (lights sc)));;
  forM (fun i => _SetWaitingParent (RCamera i)) (seq 0 (length (cameras sc)));;
  forM (fun i => _SetWaitingParent (RTransform i))
       (seq 0 (length (transformNodes sc))).

(** "Parent Ids" and "Refresh": the end of [_ImportProject]. *)
Definition finishImport : M unit :=
  setWaitingParents;;
  signalReady.

Definition loadEntities (project : IProject) : M unit :=
  v1 <- loadMeshes project;
  loadTransformNodes project;;
  loadImpostors;;
  v2 <- loadMaterials v1 (p_materials project);
  v3 <- loadTextures v2 (p_textures project);
  v4 <- loadLights v3 project;
  v5 <- loadCameras v4 project;
  loadPostProcesses project;;
  updateCache;;
  finishImport.

End Steps.

Definition totalUnits (project : IProject) : nat :=
  length (p_textures project) + length (p_materials project)
  + length (p_meshes project) + length (p_lights project)
  + length (p_cameras project).

(** [1 / totalUnits]; the division is only used when there is a unit.  The
    source computes the step and its sums in double precision; here they
    are the exact fractions, so nothing below speaks of their rounding. *)
Definition spinnerStepOf (project : IProject) : Q :=
  1 / inject_Z (Z.of_nat (totalUnits project)).

Definition _ImportProject (path : string) : M unit :=
  Overlay_Show "Importing Project...";;
  textureParser <- gets _TextureParser;
  modify (set_TextureParser (hookedTextureParser textureParser));;
  let dir := (dirname E path ++ "/")%string in
  modify (set_Project path dir);;
  project <- readManifest path;
  let rootUrl := join E [dir; "/"] in
  Overlay_SetSpinnervalue 0;;
  forM (registerFile dir) (p_filesList project);;
  configureAssets dir project;;
  modify (set_scene (set_settings (fun l => l ++ [p_scene project])));;
  modify (set_editorCamera (p_project_camera project));;
  loadEntities dir rootUrl (spinnerStepOf project) project.

Definition ImportProject (path : string) : M unit :=
  try_catch (_ImportProject path) _RefreshEditor.

End Importer.

(** * Vocabulary of the statements *)

(** The ids of the meshes of the scene, in scene order. *)
Definition mesh_ids (w : World) : list string := map n_id (meshes (scene w)).

(** Parts of the trace. *)
Definition reads (tr : list Event) : list string :=
  omap (fun e => match e with ReadJSON p => Some p | _ => None end) tr.
Definition progress (tr : list Event) : list Q :=
  omap (fun e => match e with OverlaySetSpinnervalue q => Some q | _ => None end) tr.
Definition errors (tr : list Event) : list string :=
  omap (fun e => match e with LogError s => Some s | _ => None end) tr.
Definition warnings (tr : list Event) : list string :=
  omap (fun e => match e with LogWarning s => Some s | _ => None end) tr.

(** The errors of the mesh loop: [Failed to load mesh "..."]. *)
Definition meshFailures (tr : list Event) : list string :=
  List.filter (String.prefix "Failed to load mesh ") (errors tr).

(** The four kinds of nodes the parent pass visits, and their lists. *)
Inductive NodeKind : Type := KMesh | KLight | KCamera | KTransform.

#[export] Instance NodeKind_eq_dec : EqDecision NodeKind.
Proof. solve_decision. Defined.

Definition nodesOf (k : NodeKind) (s : Scene) : list Node :=
  match k with
  | KMesh => meshes s
  | KLight => lights s
  | KCamera => cameras s
  | KTransform => transformNodes s
  end.

(** The reference of the node at position [i] of the list of kind [k]. *)
Definition refOf (k : NodeKind) (i : nat) : NodeRef :=
  match k with
  | KMesh => RMesh i
  | KLight => RLight i
  | KCamera => RCamera i
  | KTransform => RTransform i
  end.

(** The two-tier lookup of [_SetWaitingParent]. *)
Definition lookupParent (s : Scene) (v : JsValue) : option NodeRef :=
  match getNodeByID s v with
  | Some r => Some r
  | None => getTransformNodeByID s v
  end.

(** The parent setter of the engine throws in [_SetWaitingParent]: for a
    node of some scene that waits for a parent, it refuses the parent the
    two lookups find. *)
Definition setterThrows (E : Engine) : Prop :=
  exists sc r n,
    nodeAt sc r = Some n /\ truthy (_waitingParentId n) = true /\
    Node_setParent E sc r (lookupParent sc (_waitingParentId n)) = false.

(** Two scenes with the same ids at the same places. *)
Definition same_ids (s s' : Scene) : Prop :=
  forall k, map n_id (nodesOf k s) = map n_id (nodesOf k s').

(** [alter f] at each position of [idxs] in turn. *)
Definition alters {A} (f : A -> A) (idxs : list nat) (l : list A) : list A :=
  foldl (fun l i => alter f i l) l idxs.

(** Whether the bound mesh id [bm] names no mesh of the scene of [w], and
    whether it names the mesh at position [i]. *)
Definition unresolved (w : World) (bm : string) : bool :=
  match getMeshByID (scene w) (Some (JStr bm)) with
  | Some _ => false
  | None => true
  end.
Definition boundTo (w : World) (i : nat) (bm : string) : bool :=
  match getMeshByID (scene w) (Some (JStr bm)) with
  | Some j => Nat.eqb i j
  | None => false
  end.

(** The warning of a binding that does not resolve. *)
Definition bindingWarning (m : MaterialRecord) (bm : string) : string :=
  "Failed to attach material " ++ mr_json m ++ " on mesh with id " ++ quoted bm.

(** The import after the texture loop. *)
Definition afterTextures (E : Engine) (dir rootUrl : string) (step : Q)
    (project : IProject) (v3 : Q) : M unit :=
  bind (loadLights E dir step v3 project) (fun v4 =>
  bind (loadCameras E dir step v4 project) (fun v5 =>
  bind (loadPostProcesses E rootUrl project) (fun _ =>
  bind (updateCache E dir) (fun _ => finishImport E)))).

(** The import from "Load all meshes" until [n] materials of the manifest
    have been handled, and what remains of it from there. *)
Definition uptoMaterial (E : Engine) (dir rootUrl : string) (step : Q)
    (project : IProject) (n : nat) : M Q :=
  bind (loadMeshes E dir step project) (fun v1 =>
  bind (loadTransformNodes E dir rootUrl project) (fun _ =>
  bind (loadImpostors E) (fun _ =>
  loadMaterials E dir rootUrl step v1 (take n (p_materials project))))).

Definition fromMaterial (E : Engine) (dir rootUrl : string) (step : Q)
    (project : IProject) (n : nat) (v : Q) : M unit :=
  bind (foldM (loadMaterial E dir rootUrl step) v (drop n (p_materials project)))
    (fun v2 =>
  bind (loadTextures E dir rootUrl step v2 (p_textures project))
    (afterTextures E dir rootUrl step project)).

(** The progress values of [n] turns of an entity loop entered with the
    value [sv], and the value the loop returns. *)
Fixpoint ticks (step : Q) (n : nat) (sv : Q) : list Q :=
  match n with
  | O => []
  | S n' => (sv + step)%Q :: ticks step n' (sv + step)%Q
  end.

Fixpoint advance (step : Q) (n : nat) (sv : Q) : Q :=
  match n with
  | O => sv
  | S n' => advance step n' (sv + step)%Q
  end.

(** Whether the [try] of the mesh loop completes for the mesh [m] in the
    world [w], and the error logged when it does not. *)
Definition meshAttemptOk (E : Engine) (dir m : string) (w : World) : bool :=
  match snd (importMeshFile E dir m w) with
  | Ok _ => true
  | Throw => false
  end.

Definition failMessage (m : string) : string :=
  "Failed to load mesh " ++ quoted m.

(** The meshes of [l] whose attempt fails when the mesh loop runs over [l]
    from the world [w]. *)
Fixpoint failedMeshes (E : Engine) (dir : string) (step sv : Q)
    (l : list string) (w : World) : list string :=
  match l with
  | [] => []
  | m :: l' =>
      (if meshAttemptOk E dir m w then [] else [m])
      ++ failedMeshes E dir step (sv + step)%Q l'
           (fst (loadMesh E dir step sv m w))
  end.

(** The number of textures of [ts] with the unique id [k]. *)
Definition countKey (k : Z) (ts : list Texture) : nat :=
  length (List.filter (fun t => Z.eqb (t_uniqueId t) k) ts).

(** The engine restores the serialized unique id of a texture it parses. *)
Definition restoresUniqueId (E : Engine) : Prop :=
  forall json sc rootUrl t,
    Texture_Parse E json sc rootUrl = Some t ->
    jget (Some json) "uniqueId" = Ok (Some (JNum (t_uniqueId t))).

(** The texture the turn of the texture loop for the file [t] adds to the
    scene of [w], if it adds one. *)
Definition textureAdded (E : Engine) (dir rootUrl t : string) (w : World)
    : option Texture :=
  match files E (join E [dir; "textures"; t]) with
  | Some json =>
      match jget (Some json) "uniqueId" with
      | Ok v =>
          match getTextureByUniqueID (scene w) v with
          | Some _ => None
          | None => Texture_Parse E json (scene w) rootUrl
          end
      | Throw => None
      end
  | None => None
  end.


(** The engine's own texture parser, [Texture.Parse], which
    [SerializationHelper._TextureParser] holds before any import. *)
Definition Texture_Parse_default (E : Engine) : TexParser :=
  fun source sc rootUrl =>
    match Texture_Parse E source sc rootUrl with
    | Some t => ([t], Ok t)
    | None => ([], Throw)
    end.

Definition emptyScene : Scene := mkScene [] [] [] [] [] [] [] [].

(** The editor before any import. *)
Definition initialWorld (E : Engine) : World :=
  mkWorld emptyScene [] (Texture_Parse_default E) ∅ [] [] None None None []
          None 0.

(** ** A small engine and file system, to run the importer *)

Definition strField (k : string) (j : Json) : option string :=
  match j with
  | JObj fs => match assoc k fs with Some (JStr s) => Some s | _ => None end
  | _ => None
  end.

Definition demoNode (className : string) (j : Json) : option NodeInit :=
  match strField "id" j with
  | Some i =>
      Some (mkNodeInit i (default i (strField "name" j)) className
              match j with JObj fs => assoc "parentId" fs | _ => None end)
  | None => None
  end.

Fixpoint demoNodes (className : string) (l : list Json) : option (list NodeInit) :=
  match l with
  | [] => Some []
  | j :: l' =>
      match demoNode className j, demoNodes className l' with
      | Some n, Some ns => Some (n :: ns)
      | _, _ => None
      end
  end.

Definition demoMeshes (content : JsValue) : option (list NodeInit) :=
  match content with
  | Some (JObj fs) =>
      match assoc "meshes" fs with
      | Some (JArr l) => demoNodes "Mesh" l
      | _ => None
      end
  | _ => None
  end.

Definition demoTexture (j : Json) : option Texture :=
  match j with
  | JObj fs =>
      match assoc "uniqueId" fs with
      | Some (JNum z) =>
          Some (mkTexture z (default EmptyString (strField "name" j))
                  (assoc "metadata" fs))
      | _ => None
      end
  | _ => None
  end.

(** [path.join] for segments without [.] and [..]: the segments that are
    not empty are joined by a slash and consecutive slashes are merged. *)
Fixpoint squeeze (afterSlash : bool) (s : string) : string :=
  match s with
  | EmptyString => EmptyString
  | String c s' =>
      let slash := Ascii.eqb c (Ascii.ascii_of_nat 47) in
      if slash && afterSlash then squeeze true s'
      else String c (squeeze slash s')
  end.

Definition demoJoin (l : list string) : string :=
  squeeze false
    (String.concat "/"
       (List.filter (fun s => negb (String.eqb s EmptyString)) l)).

(** The parent setter of the small engine: nothing happens when the node
    already has the parent it is given; otherwise the walk over the
    descendants of the node fails when the node is met on the way up from
    its new parent. *)
Fixpoint isAncestor (s : Scene) (fuel : nat) (r : NodeRef)
    (p : option NodeRef) : bool :=
  match fuel, p with
  | S fuel', Some q =>
      if decide (q = r) then true
      else isAncestor s fuel' r (nodeAt s q ≫= n_parent)
  | _, _ => false
  end.

Definition nodeCount (s : Scene) : nat :=
  length (meshes s) + length (transformNodes s) + length (lights s)
  + length (cameras s).

Definition demoSetParent (s : Scene) (r : NodeRef) (p : option NodeRef) : bool :=
  if decide (n_parent <$> nodeAt s r = Some p) then true
  else negb (isAncestor s (nodeCount s) r p).

(** The last node of [l] whose id is [v], and the loader's lookup of the
    small engine: meshes, then transform nodes, cameras and lights. *)
Definition findLastById (v : JsValue) (l : list Node) : option nat :=
  (fun i => length l - 1 - i) <$> findById v (rev l).

Definition demoLastEntryByID (s : Scene) (v : JsValue) : option NodeRef :=
  match findLastById v (meshes s) with
  | Some i => Some (RMesh i)
  | None =>
      match findLastById v (transformNodes s) with
      | Some i => Some (RTransform i)
      | None =>
          match findLastById v (cameras s) with
          | Some i => Some (RCamera i)
          | None => RLight <$> findLastById v (lights s)
          end
      end
  end.

(** The engine over the file system [fs], with the manifest [project] at
    every path. *)
Definition demoEngine (project : option IProject) (fs : list (string * Json))
    : Engine :=
  {| join := demoJoin;
     dirname := fun _ => "proj";
     basename := fun f => f;
     toStr := fun v => match v with Some (JStr s) => s | _ => "?" end;
     readProject := fun _ => project;
     files := fun p => assoc p fs;
     ImportMeshAsync := fun src _ =>
       match src with
       | FromFile rootUrl filename => demoMeshes (assoc (demoJoin [rootUrl; filename]) fs)
       | FromBlob content => demoMeshes content
       end;
     TransformNode_Parse := fun j _ _ => demoNode "TransformNode" j;
     Light_Parse := fun j _ => demoNode "PointLight" j;
     Camera_Parse := fun j _ => demoNode "FreeCamera" j;
     Texture_Parse := fun j _ _ => demoTexture j;
     Material_textures := fun j =>
       match j with
       | JObj fs' => match assoc "textures" fs' with Some (JArr l) => l | _ => [] end
       | _ => []
       end;
     Material_id := fun j _ => strField "id" j;
     MultiMaterial_id := fun j _ => strField "id" j;
     ShadowGenerator_lightId := fun j =>
       match j with JObj fs' => assoc "lightId" fs' | _ => None end;
     SerializationHelper_Parse := fun _ j _ _ => truthy (Some j);
     physicsEngine := None;
     isReady := fun _ => true;
     Node_setParent := demoSetParent;
     getLastEntryByID := demoLastEntryByID |}.

Definition demoProject (meshes textures : list string)
    (materials : list MaterialRecord) : IProject :=
  mkProject [] [] textures materials meshes None [] JNull [] None JNull
            None None None.

Definition meshFile (nodes : list (string * option string)) : Json :=
  JObj [("meshes",
         JArr (map (fun n => JObj (("id", JStr n.1) ::
                                   match n.2 with
                                   | Some p => [("parentId", JStr p)]
                                   | None => []
                                   end)) nodes));
        ("lods", JArr [])].

Definition textureFile (uniqueId : Z) (name : string) : Json :=
  JObj [("uniqueId", JNum uniqueId); ("name", JStr name)].

Definition cacheFile : string * Json := ("proj/assets/cache.json", JObj []).

(** What [_ImportProject] does once the manifest is read. *)
Definition afterManifest (E : Engine) (path : string) (project : IProject)
    : M unit :=
  let dir := (dirname E path ++ "/")%string in
  let rootUrl := join E [dir; "/"] in
  Overlay_SetSpinnervalue 0;;
  forM (registerFile E dir) (p_filesList project);;
  configureAssets E dir project;;
  modify (set_scene (set_settings (fun l => l ++ [p_scene project])));;
  modify (set_editorCamera (p_project_camera project));;
  loadEntities E dir rootUrl (spinnerStepOf project) project.

(** The world in which the manifest is read. *)
Definition beforeManifest (E : Engine) (path : string) (w : World) : World :=
  set_Project path (dirname E path ++ "/")
    (set_TextureParser (hookedTextureParser (_TextureParser w))
       (emit (OverlayShow "Importing Project...") w)).

(** The steps of [_ImportProject] between the reading of the manifest and
    "Load all meshes", and the world they leave, in which the entity loops
    start. *)
Definition configureProject (E : Engine) (path : string) (project : IProject)
    : M unit :=
  let dir := (dirname E path ++ "/")%string in
  Overlay_SetSpinnervalue 0;;
  forM (registerFile E dir) (p_filesList project);;
  configureAssets E dir project;;
  modify (set_scene (set_settings (fun l => l ++ [p_scene project])));;
  modify (set_editorCamera (p_project_camera project)).

Definition atMeshes (E : Engine) (path : string) (project : IProject)
    (w : World) : World :=
  fst (configureProject E path project
         (emit (ReadJSON path) (beforeManifest E path w))).

(** The blocks of [_ImportProject] from "Load all meshes" to "Update
    cache": all of [loadEntities] but the "Parent Ids" and "Refresh"
    blocks that end it. *)
Definition untilParentIds (E : Engine) (dir rootUrl : string) (step : Q)
    (project : IProject) : M unit :=
  v1 <- loadMeshes E dir step project;
  loadTransformNodes E dir rootUrl project;;
  loadImpostors E;;
  v2 <- loadMaterials E dir rootUrl step v1 (p_materials project);
  v3 <- loadTextures E dir rootUrl step v2 (p_textures project);
  v4 <- loadLights E dir step v3 project;
  v5 <- loadCameras E dir step v4 project;
  loadPostProcesses E rootUrl project;;
  updateCache E dir.

(** The world in which the parent pass of the import of [path] starts, when
    the import gets there, and the world in which its texture loop starts. *)
Definition atParentIds (E : Engine) (path : string) (project : IProject)
    (w : World) : World :=
  let dir := (dirname E path ++ "/")%string in
  fst (untilParentIds E dir (join E [dir; "/"]) (spinnerStepOf project) project
         (atMeshes E path project w)).

Definition atTextures (E : Engine) (path : string) (project : IProject)
    (w : World) : World :=
  let dir := (dirname E path ++ "/")%string in
  fst (uptoMaterial E dir (join E [dir; "/"]) (spinnerStepOf project) project
         (length (p_materials project)) (atMeshes E path project w)).

(** Whether no node of the scene has the id the value [v] names. *)
Definition dangling (s : Scene) (v : JsValue) : Prop :=
  forall k p, In p (nodesOf k s) -> v <> Some (JStr (n_id p)).

(** Every node of the scene that waits for a parent waits for one that
    the two lookups do not find. *)
Definition allDangling (s : Scene) : Prop :=
  forall k i n, nodesOf k s !! i = Some n ->
    truthy (_waitingParentId n) = true ->
    lookupParent s (_waitingParentId n) = None.

(** The material parser the record [m] selects. *)
Definition parseMaterial (E : Engine) (rootUrl : string) (m : MaterialRecord)
    (json : Json) : M nat :=
  if isMultiMaterial m then MultiMaterial_ParseMultiMaterial E json
  else Material_Parse E rootUrl json.

(** ** Projects used to run the importer *)


(** Two texture files that carry the same unique id. *)
Definition twinTexturesEngine : Engine :=
  demoEngine (Some (demoProject [] ["t1"; "t2"] []))
    [("proj/textures/t1", textureFile 7 "x");
     ("proj/textures/t2", textureFile 7 "y"); cacheFile].

(** A child mesh listed before its parent. *)
Definition childFirstEngine : Engine :=
  demoEngine (Some (demoProject ["b.json"; "a.json"] [] []))
    [("proj/meshes/b.json", meshFile [("b", Some "a")]);
     ("proj/meshes/a.json", meshFile [("a", None)]); cacheFile].

(** A scene with the two meshes of that project, the child waiting for
    its parent. *)
Definition childFirstScene : Scene :=
  mkScene [mkNode "b" "b" "Mesh" None (Some (JStr "a")) None None [];
           mkNode "a" "a" "Mesh" None None None None []]
          [] [] [] [] [] [] [JNull].

(** The document of a light, camera or transform node. *)
Definition nodeFile (id : string) (parent : option string) : Json :=
  JObj (("id", JStr id) ::
        match parent with
        | Some p => [("parentId", JStr p)]
        | None => []
        end).

(** A mesh, a light that names itself as its parent, and two cameras: the
    first waits for the mesh, the second for a node that does not exist. *)
Definition selfParentProject : IProject :=
  mkProject [] ["c1.json"; "c2.json"] [] [] ["m.json"] None
            [mkLightRecord "l.json" None] JNull [] None JNull None None None.

Definition selfParentEngine : Engine :=
  demoEngine (Some selfParentProject)
    [("proj/meshes/m.json", meshFile [("m", None)]);
     ("proj/lights/l.json", nodeFile "l" (Some "l"));
     ("proj/cameras/c1.json", nodeFile "c1" (Some "m"));
     ("proj/cameras/c2.json", nodeFile "c2" (Some "ghost")); cacheFile].

(** A light that waits for a camera, which is loaded after it, and for a
    transform node; a camera that waits for a node that does not exist. *)
Definition lampProject : IProject :=
  mkProject [] ["cam.json"; "c2.json"] [] [] [] (Some ["pivot.json"])
            [mkLightRecord "l1.json" None; mkLightRecord "l2.json" None]
            JNull [] None JNull None None None.

Definition lampEngine : Engine :=
  demoEngine (Some lampProject)
    [("proj/transform/pivot.json", nodeFile "pivot" None);
     ("proj/lights/l1.json", nodeFile "l1" (Some "cam"));
     ("proj/lights/l2.json", nodeFile "l2" (Some "pivot"));
     ("proj/cameras/cam.json", nodeFile "cam" None);
     ("proj/cameras/c2.json", nodeFile "c2" (Some "ghost")); cacheFile].

(** Only nodes that wait for a parent that does not exist. *)
Definition orphansProject : IProject :=
  mkProject [] ["c2.json"] [] [] ["b.json"] None [] JNull [] None JNull
            None None None.

Definition orphansEngine : Engine :=
  demoEngine (Some orphansProject)
    [("proj/meshes/b.json", meshFile [("b", Some "ghost")]);
     ("proj/cameras/c2.json", nodeFile "c2" (Some "ghost")); cacheFile].

(** A material whose document embeds two textures with the unique id of
    the two texture files of the project. *)
Definition twinMaterialProject : IProject :=
  demoProject [] ["t1"; "t2"] [mkMaterialRecord [] "mat.json" false].

Definition twinMaterialEngine : Engine :=
  demoEngine (Some twinMaterialProject)
    [("proj/materials/mat.json",
      JObj [("id", JStr "mat");
            ("textures", JArr [textureFile 7 "x"; textureFile 7 "y"])]);
     ("proj/textures/t1", textureFile 7 "x");
     ("proj/textures/t2", textureFile 7 "y"); cacheFile].

(** Five meshes, the third of which has no file. *)
Definition fiveMeshesEngine : Engine :=
  demoEngine (Some (demoProject ["m1"; "m2"; "m3"; "m4"; "m5"] [] []))
    [("proj/meshes/m1", meshFile [("m1", None)]);
     ("proj/meshes/m2", meshFile [("m2", None)]);
     ("proj/meshes/m4", meshFile [("m4", None)]);
     ("proj/meshes/m5", meshFile [("m5", None)]); cacheFile].

(** A material bound to the mesh ["a"], which exists, and to ["zz"], which
    does not. *)
Definition bindingRecord : MaterialRecord :=
  mkMaterialRecord ["a"; "zz"] "mat.json" false.

Definition bindingEngine : Engine :=
  demoEngine (Some (demoProject [] [] [bindingRecord]))
    [("proj/materials/mat.json", JObj [("id", JStr "mat")]); cacheFile].

Definition bindingWorld : World :=
  set_scene (set_meshes (fun _ => [mkNode "a" "a" "Mesh" None None None None []]))
    (initialWorld bindingEngine).

(** A scene with a texture named ["brick"] by the editor, and a serialized
    texture with the same editor name and another unique id. *)
Definition brickScene : Scene :=
  mkScene [] [] [] []
    [mkTexture 3 "brick.png" (Some (JObj [("editorName", JStr "brick")]))]
    [] [] [].

Definition brickSource : Json :=
  JObj [("uniqueId", JNum 9);
        ("metadata", JObj [("editorName", JStr "brick")])].

(** * Vocabulary of the further properties *)

(** [source.metadata && source.metadata.editorName], for a source that is
    not [null]: the value the texture parser of the importer tests. *)
Definition editorNameOf (source : Json) : JsValue :=
  match jget (Some source) "metadata" with
  | Ok md =>
      if truthy md
      then match jget md "editorName" with Ok en => en | Throw => None end
      else md
  | Throw => None
  end.

(** What identifies the nodes of a kind: id, name and class, in scene
    order. *)
Definition identity (n : Node) : string * string * string :=
  (n_id n, n_name n, n_className n).
Definition identities (k : NodeKind) (w : World) : list (string * string * string) :=
  map identity (nodesOf k (scene w)).

(** [m] appends [l] to the list [proj] of the world, whether it returns or
    throws. *)
Definition appending {X A} (proj : World -> list X) (l : list X) (m : M A)
    : Prop :=
  forall w, proj (fst (m w)) = proj w ++ l.

(** The entries the import of [project] adds to the lists of mesh and
    prefab assets. *)
Definition meshAssetsOf (E : Engine) (dir : string) (project : IProject)
    : list IFile :=
  map (fun m => mkFile (join E [dir; "assets"; "meshes"; m]) m)
      (p_assets_meshes project).
Definition prefabAssetsOf (E : Engine) (dir : string) (project : IProject)
    : list IFile :=
  map (fun p => mkFile (join E [dir; "prefabs"; p]) p)
      (default [] (p_assets_prefabs project)).

(** The file of [l] registered last under the path [p]. *)
Definition registeredLast (E : Engine) (dir : string) (l : list string)
    (p : string) : option string :=
  List.find (fun f => String.eqb (join E [dir; "files"; f]) p) (rev l).

(** [m] changes the part [proj] of the world by [f], whether it returns
    or throws. *)
Definition updating {X A} (proj : World -> X) (f : X -> X) (m : M A) : Prop :=
  forall w, proj (fst (m w)) = f (proj w).

(** The registry after the files [l] were registered in order. *)
Definition registerAll (E : Engine) (dir : string) (l : list string)
    (st : gmap string IFile) : gmap string IFile :=
  foldl (fun st f => let path := join E [dir; "files"; f] in
                     <[path := mkFile path (basename E f)]> st) st l.

(** An engine without any file: no manifest can be read. *)
Definition emptyEngine : Engine := demoEngine None [].

(** A project that lists one file, one mesh asset and one prefab, and an
    engine that finds its manifest but none of its other files. *)
Definition assetsProject : IProject :=
  mkProject ["logo.png"] [] [] [] [] None [] JNull ["tree.babylon"]
            (Some ["hut.prefab"]) JNull None None None.

Definition assetsEngine : Engine := demoEngine (Some assetsProject) [].

(** What [ImportMesh] reads in the mesh document: [json.meshes[index].parentId]
    and the iteration of [json.lods]. *)
Definition entryParentId (json : Json) (index : nat) : Res JsValue :=
  match jget (Some json) "meshes" with
  | Ok ms => match jidx ms index with
             | Ok mi => jget mi "parentId"
             | Throw => Throw
             end
  | Throw => Throw
  end.

Definition lodsOf (json : Json) : Res (list Json) :=
  match jget (Some json) "lods" with
  | Ok v => jiter v
  | Throw => Throw
  end.

(** What a mesh is recognised by, with the parent it waits for. *)
Definition waitingKey (n : Node) : string * string * string * JsValue :=
  (identity n, _waitingParentId n).



(** A child mesh listed two files before its parent. *)
Definition straysEngine : Engine :=
  demoEngine (Some (demoProject ["b.json"; "c.json"; "a.json"] [] []))
    [("proj/meshes/b.json", meshFile [("b", Some "a")]);
     ("proj/meshes/c.json", meshFile [("c", None)]);
     ("proj/meshes/a.json", meshFile [("a", None)]); cacheFile].

(** A mesh file that loads one mesh, but whose document has no [lods]. *)
Definition noLodsEngine : Engine :=
  demoEngine (Some (demoProject ["a.json"] [] []))
    [("proj/meshes/a.json",
      JObj [("meshes", JArr [JObj [("id", JStr "a")]])]); cacheFile].

(** A turn of a counted loop reports the next progress value and returns
    it; a turn that may also end without reporting returns the value it was
    given ([strict = false]). *)
Definition counts {A} (step : Q) (strict : bool) (body : Q -> A -> M Q)
    : Prop :=
  forall sv a w, exists b : bool,
    (strict = true -> b = true) /\
    body sv a w = (fst (body sv a w), Ok (if b then (sv + step)%Q else sv)) /\
    progress (trace (fst (body sv a w)))
    = progress (trace w) ++ (if b then [(sv + step)%Q] else []).

(** [m], entered with the progress value [sv], reports between [lo] and [hi]
    further values, each one step above the one before; [stairs] also tells
    that it returns the last one. *)
Definition climbing {A} (step : Q) (lo hi : nat) (sv : Q) (m : M A) : Prop :=
  forall w, exists n, lo <= n <= hi /\
    progress (trace (fst (m w))) = progress (trace w) ++ ticks step n sv.

Definition stairs (step : Q) (lo hi : nat) (sv : Q) (m : M Q) : Prop :=
  forall w, exists n, lo <= n <= hi /\
    m w = (fst (m w), Ok (advance step n sv)) /\
    progress (trace (fst (m w))) = progress (trace w) ++ ticks step n sv.

(** What the impostor block does to a mesh and what it logs for it, for the
    physics engine [getImpostor]. *)
Definition withImpostor (getImpostor : Node -> Res (option nat)) (m : Node)
    : Node :=
  match getImpostor m with
  | Ok imp => set_physicsImpostor imp m
  | Throw => m
  end.

Definition impostorLog (getImpostor : Node -> Res (option nat)) (m : Node)
    : Event :=
  match getImpostor m with
  | Ok _ => LogInfo ("Parsed physics impostor for mesh " ++ quoted (n_name m))
  | Throw =>
      LogError ("Failed to set physics impostor for mesh " ++ quoted (n_name m))
  end.

(** The error the light loop logs: the record itself is interpolated. *)
Definition lightFailure : string :=
  "Failed to parse light " ++ quoted "[object Object]".

(** [E] with the physics engine [getImpostor]. *)
Definition withPhysics (E : Engine) (getImpostor : Node -> Res (option nat))
    : Engine :=
  {| join := join E; dirname := dirname E; basename := basename E;
     toStr := toStr E; readProject := readProject E; files := files E;
     ImportMeshAsync := ImportMeshAsync E;
     TransformNode_Parse := TransformNode_Parse E;
     Light_Parse := Light_Parse E; Camera_Parse := Camera_Parse E;
     Texture_Parse := Texture_Parse E;
     Material_textures := Material_textures E;
     Material_id := Material_id E; MultiMaterial_id := MultiMaterial_id E;
     ShadowGenerator_lightId := ShadowGenerator_lightId E;
     SerializationHelper_Parse := SerializationHelper_Parse E;
     physicsEngine := Some getImpostor; isReady := isReady E;
     Node_setParent := Node_setParent E;
     getLastEntryByID := getLastEntryByID E |}.

(** A physics engine that knows the mesh ["a"] only. *)
Definition demoImpostor (m : Node) : Res (option nat) :=
  if String.eqb (n_id m) "a" then Ok (Some 0) else Throw.

(** A light whose shadow generator file is missing. *)
Definition sunRecord : LightRecord :=
  mkLightRecord "sun.json" (Some "sun-shadows.json").

Definition sunEngine : Engine :=
  demoEngine
    (Some (mkProject [] [] [] [] [] None [sunRecord] JNull [] None JNull
             None None None))
    [("proj/lights/sun.json", JObj [("id", JStr "sun")]); cacheFile].

(** * The mesh assets panel

    [MeshesAssets] (src/unnamed/part_001) shows the meshes registered in
    [MeshesAssets.Meshes], the list the importer appends to, and is what
    [editor.assets.refresh()] refreshes.  Its handlers are modelled run to
    completion, one at a time. *)

(** An item of the panel.  [item_ref] stands for the identity of the
    object, which [indexOf] compares. *)
Record IAssetComponentItem : Type := mkItem {
  item_ref : nat;
  item_id : string;
  item_base64 : string;
  item_key : string;
}.

(** The calls the panel makes on its collaborators. *)
Inductive PanelEvent : Type :=
| HelperInit
| HelperImportMesh (rootUrl name : string)
| HelperGetScreenshot
| HelperReset
| NotifyUpdateAsset
| SetStateItems (its : list IAssetComponentItem)
| CopyFile (src dest : string).

(** The offscreen helper, the file copy and the extension of a file name
    in lower case.  A call may reject; its outcome may depend on the calls
    made before it, of which the number is given. *)
Record PanelEnv : Type := mkPanelEnv {
  helper_init : nat -> bool;
  helper_importMesh : nat -> string -> string -> bool;
  helper_getScreenshot : nat -> option string;
  helper_reset : nat -> bool;
  copy : nat -> string -> string -> bool;
  extnameLower : string -> string;
}.

Record Panel : Type := mkPanel {
  items : list IAssetComponentItem;
  Meshes : list IFile;
  DirPath : option string;
  calls : list PanelEvent;
  created : nat;
}.

Definition set_items (f : list IAssetComponentItem -> list IAssetComponentItem)
    (p : Panel) : Panel :=
  mkPanel (f (items p)) (Meshes p) (DirPath p) (calls p) (created p).
Definition set_Meshes (f : list IFile -> list IFile) (p : Panel) : Panel :=
  mkPanel (items p) (f (Meshes p)) (DirPath p) (calls p) (created p).
Definition record (e : PanelEvent) (p : Panel) : Panel :=
  mkPanel (items p) (Meshes p) (DirPath p) (calls p ++ [e]) (created p).
Definition allocate (p : Panel) : Panel :=
  mkPanel (items p) (Meshes p) (DirPath p) (calls p) (S (created p)).

(** Handlers of the panel: a state and exception monad over [Panel]. *)
Definition Task (A : Type) : Type := Panel -> Panel * Res A.

Definition tret {A} (a : A) : Task A := fun p => (p, Ok a).
Definition tbind {A B} (m : Task A) (k : A -> Task B) : Task B :=
  fun p => match m p with
           | (p', Ok a) => k a p'
           | (p', Throw) => (p', Throw)
           end.
Definition tgets {A} (f : Panel -> A) : Task A := fun p => (p, Ok (f p)).
Definition tmodify (f : Panel -> Panel) : Task unit := fun p => (f p, Ok tt).
Definition tofOption {A} (o : option A) : Task A :=
  fun p => match o with Some a => (p, Ok a) | None => (p, Throw) end.

Declare Scope task_scope.
Delimit Scope task_scope with task.
Notation "x <- m ; k" := (tbind m (fun x => k))
  (at level 20, m at level 100, k at level 200, only parsing) : task_scope.
Notation "m ;; k" := (tbind m (fun _ => k))
  (at level 100, k at level 200, only parsing, right associativity) : task_scope.

Fixpoint tforM {A} (body : A -> Task unit) (l : list A) : Task unit :=
  match l with
  | [] => tret tt
  | a :: l' => tbind (body a) (fun _ => tforM body l')
  end.

(** An awaited call that resolves or rejects. *)
Definition await (e : PanelEvent) (ok : nat -> bool) : Task unit :=
  fun p => (record e p, if ok (length (calls p)) then Ok tt else Throw).

Section MeshesAssets.

Variables (E : Engine) (V : PanelEnv).

(** One turn of the loop of [refresh]. *)
Definition refreshMesh (m : IFile) : Task unit :=
  (its <- tgets items;
   match List.find (fun i => String.eqb (item_key i) (f_path m)) its with
   | Some _ => tret tt
   | None =>
       dir <- tbind (tgets DirPath) tofOption;
       let rootUrl := join E [dir; "files"; "/"] in
       let name := join E [".."; "assets/meshes"; f_name m] in
       await (HelperImportMesh rootUrl name)
             (fun n => helper_importMesh V n rootUrl name);;
       n <- tgets (fun p => length (calls p));
       tmodify (record HelperGetScreenshot);;
       base64 <- tofOption (helper_getScreenshot V n);
       ref <- tgets created;
       tmodify allocate;;
       tmodify (set_items (fun l => l ++ [mkItem ref (f_name m) base64 (f_path m)]));;
       tmodify (record NotifyUpdateAsset);;
       await HelperReset (helper_reset V)
   end)%task.

(** [AbstractAssets.refresh] *)
Definition AbstractAssets_refresh : Task unit :=
  (its <- tgets items; tmodify (record (SetStateItems its)))%task.

(** [MeshesAssets.refresh] *)
Definition MeshesAssets_refresh : Task unit :=
  (await HelperInit (helper_init V);;
   ms <- tgets Meshes;
   tforM refreshMesh ms;;
   AbstractAssets_refresh)%task.

Definition _extensions : list string := [".babylon"; ".glb"].

(** One turn of the loop of [onDropFiles]. *)
Definition dropFile (file : IFile) : Task unit :=
  (let extension := extnameLower V (f_name file) in
   if negb (existsb (String.eqb extension) _extensions) then tret tt
   else
     existing <- tgets (fun p =>
                   List.find (fun m => String.eqb (f_name m) (f_name file))
                     (Meshes p));
     dir <- tbind (tgets DirPath) tofOption;
     let dest := join E [dir; "assets"; "meshes"; f_name file] in
     (if negb (String.eqb dest EmptyString)
      then await (CopyFile (f_path file) dest)
                 (fun n => copy V n (f_path file) dest)
      else tret tt);;
     match existing with
     | Some _ => tret tt
     | None => tmodify (set_Meshes (fun l => l ++ [mkFile dest (f_name file)]))
     end)%task.

(** [MeshesAssets.onDropFiles] *)
Definition MeshesAssets_onDropFiles (files : list IFile) : Task unit :=
  (tforM dropFile files;; MeshesAssets_refresh)%task.

End MeshesAssets.

(** The list without its first element that satisfies [P]:
    [findIndex] or [indexOf], then [splice(index, 1)]. *)
Fixpoint spliceFirst {A} (P : A -> bool) (l : list A) : list A :=
  match l with
  | [] => []
  | a :: l' => if P a then l' else a :: spliceFirst P l'
  end.

(** The [redo] and [undo] actions that [_handleRemoveMesh] registers for
    the item [item]. *)
Definition removeMesh_redo (item : IAssetComponentItem) (p : Panel) : Panel :=
  set_items (spliceFirst (fun i => Nat.eqb (item_ref i) (item_ref item)))
    (set_Meshes (spliceFirst (fun m => String.eqb (f_path m) (item_key item))) p).

Definition removeMesh_undo (item : IAssetComponentItem) (p : Panel) : Panel :=
  set_items (fun l => l ++ [item])
    (set_Meshes (fun l => l ++ [mkFile (item_key item) (item_id item)]) p).

(** The keys of the items shown, and the panel of an editor whose asset list
    and project directory are those of the world [w]. *)
Definition keys (p : Panel) : list string := map item_key (items p).

Definition panelOf (w : World) (its : list IAssetComponentItem) : Panel :=
  mkPanel its (MeshesAssets_Meshes w) (Project_DirPath w) [] (length its).

(** Collaborators that never fail.  [extname] of a file name is what
    starts at its last dot, unless that dot opens the name, and
    [toLowerCase] lowers the letters A to Z. *)
Definition lowerAscii (c : Ascii.ascii) : Ascii.ascii :=
  let n := Ascii.nat_of_ascii c in
  if Nat.leb 65 n && Nat.leb n 90 then Ascii.ascii_of_nat (n + 32) else c.

Fixpoint toLowerCase (s : string) : string :=
  match s with
  | EmptyString => EmptyString
  | String c s' => String (lowerAscii c) (toLowerCase s')
  end.

Fixpoint afterLastDot (s : string) (acc : option string) : option string :=
  match s with
  | EmptyString => acc
  | String c s' =>
      if Ascii.eqb c (Ascii.ascii_of_nat 46)
      then afterLastDot s' (Some (String c s'))
      else afterLastDot s' acc
  end.

Definition demoPanelEnv : PanelEnv :=
  {| helper_init := fun _ => true;
     helper_importMesh := fun _ _ _ => true;
     helper_getScreenshot := fun _ => Some "data:image/png;base64,";
     helper_reset := fun _ => true;
     copy := fun _ _ _ => true;
     extnameLower := fun s =>
       toLowerCase
         match s with
         | EmptyString => EmptyString
         | String _ s' => default EmptyString (afterLastDot s' None)
         end |}.

(** Whether [onDropFiles] takes the file, the place it copies it to, and
    the copies among the calls made. *)
Definition acceptedFile (V : PanelEnv) (file : IFile) : bool :=
  existsb (String.eqb (extnameLower V (f_name file))) _extensions.

Definition meshDest (E : Engine) (dir : string) (file : IFile) : string :=
  join E [dir; "assets"; "meshes"; f_name file].

Definition copies (cs : list PanelEvent) : list (string * string) :=
  omap (fun e => match e with CopyFile s d => Some (s, d) | _ => None end) cs.

(** What a drop of [files] may register or copy, in the directory [dir]. *)
Definition droppedFrom (E : Engine) (V : PanelEnv) (files : list IFile)
    (dir : option string) (file : IFile) (dest : string) : Prop :=
  file ∈ files /\ acceptedFile V file = true /\
  exists d, dir = Some d /\ dest = meshDest E d file.

(** The editor after the project of [assetsEngine] was imported once and
    twice, with an empty panel, and the files of a drop. *)
Definition importedOnce : World :=
  fst (ImportProject assetsEngine "proj/scene.editorproject"
         (initialWorld assetsEngine)).

Definition importedTwice : World :=
  fst (ImportProject assetsEngine "proj/scene.editorproject" importedOnce).

Definition droppedFiles : list IFile :=
  [mkFile "/tmp/tree.babylon" "tree.babylon"; mkFile "/tmp/notes.txt" "notes.txt";
   mkFile "/tmp/rock.glb" "rock.glb"].

Definition treeItem : IAssetComponentItem :=
  mkItem 0 "tree.babylon" "data:image/png;base64,"
         "proj/assets/meshes/tree.babylon".

(** * The offscreen assets helper

    The worker of src/src/renderer/editor/tools/offscreen-assets-helper/
    offscreen-canvas.ts answers the messages of the editor.  An awaited
    promise resolves, rejects, or stays pending for ever. *)

Inductive Outcome (A : Type) : Type :=
| Returns (a : A)
| Throws
| Hangs.
Arguments Returns {A} a.
Arguments Throws {A}.
Arguments Hangs {A}.

(** The calls made on the rendering engine, with the scene they act on. *)
Inductive BabylonCall : Type :=
| EngineNew (canvas : JsValue)
| MeshDispose (scene : option nat)
| SceneDispose (scene : nat)
| SceneNew
| SceneSetup (scene : nat)
| CreateSphere (scene : option nat)
| SceneImportMesh (rootUrl filename : JsValue) (scene : option nat)
| MaterialParse (json rootUrl : JsValue) (scene : option nat)
| MaterialDispose
| SceneScreenshot (scene : option nat).

(** The rendering engine: whether a call returns or throws, how a promise
    settles, and whether disposing a material unbinds it.  The outcome of a
    call may depend on the calls made before it, of which the number is
    given. *)
Record Babylon : Type := mkBabylon {
  engine_new : nat -> bool;
  mesh_dispose : nat -> bool;
  scene_dispose : nat -> bool;
  scene_new : nat -> bool;
  scene_setup : nat -> bool;
  create_sphere : nat -> bool;
  import_mesh : nat -> Outcome unit;
  material_parse : nat -> bool;
  material_dispose : nat -> bool;
  dispose_unbinds : bool;
  screenshot : nat -> Outcome string;
}.

(** The sphere of [createMesh]: the scene it was created in, and the scene
    its material was parsed in. *)
Record Sphere : Type := mkSphere {
  sp_scene : option nat;
  sp_material : option (option nat);
}.

(** The fields of an [OffscreenAssetsHelper] that the methods read, and the
    engine seen from it: the calls made and the number of scenes created. *)
Record Helper : Type := mkHelper {
  h_scene : option nat;
  _mesh : option Sphere;
  bcalls : list BabylonCall;
  scenes : nat;
}.

(** What the worker posts back. *)
Inductive Posted : Type :=
| Response (id : JsValue) (response : option string)
| Error (id : JsValue).

Record Worker : Type := mkWorker {
  _Instance : option (option nat * option Sphere);
  engineCalls : list BabylonCall;
  sceneCount : nat;
  posted : list Posted;
}.

Definition Job (S A : Type) : Type := S -> S * Outcome A.

Definition jret {S A} (a : A) : Job S A := fun s => (s, Returns a).
Definition jbind {S A B} (m : Job S A) (k : A -> Job S B) : Job S B :=
  fun s => match m s with
           | (s', Returns a) => k a s'
           | (s', Throws) => (s', Throws)
           | (s', Hangs) => (s', Hangs)
           end.
Definition jtry {S A} (m h : Job S A) : Job S A :=
  fun s => match m s with
           | (s', Throws) => h s'
           | r => r
           end.
Definition jgets {S A} (f : S -> A) : Job S A := fun s => (s, Returns (f s)).
Definition jmodify {S} (f : S -> S) : Job S unit := fun s => (f s, Returns tt).
Definition jlift {S A} (r : Res A) : Job S A :=
  fun s => (s, match r with Ok a => Returns a | Throw => Throws end).
Definition jwhen {S} (b : bool) (m : Job S unit) : Job S unit :=
  if b then m else jret tt.

Declare Scope job_scope.
Delimit Scope job_scope with job.
Notation "x <- m ; k" := (jbind m (fun x => k))
  (at level 20, m at level 100, k at level 200, only parsing) : job_scope.
Notation "m ;; k" := (jbind m (fun _ => k))
  (at level 100, k at level 200, only parsing, right associativity) : job_scope.

Section OffscreenAssetsHelper.

Variable B : Babylon.

Definition logCall (c : BabylonCall) (h : Helper) : Helper :=
  mkHelper (h_scene h) (_mesh h) (bcalls h ++ [c]) (scenes h).
Definition set_h_scene (sc : option nat) (h : Helper) : Helper :=
  mkHelper sc (_mesh h) (bcalls h) (scenes h).
Definition set_mesh (m : option Sphere) (h : Helper) : Helper :=
  mkHelper (h_scene h) m (bcalls h) (scenes h).
Definition countScene (h : Helper) : Helper :=
  mkHelper (h_scene h) (_mesh h) (bcalls h) (S (scenes h)).

(** A call on the engine that returns or throws. *)
Definition engineCall (c : BabylonCall) (ok : nat -> bool) : Job Helper unit :=
  fun h => (logCall c h,
            if ok (length (bcalls h)) then Returns tt else Throws).

(** A promise of the engine, awaited. *)
Definition enginePromise {A} (c : BabylonCall) (settle : nat -> Outcome A)
    : Job Helper A :=
  fun h => (logCall c h, settle (length (bcalls h))).

(** [reset()] *)
Definition reset : Job Helper unit :=
  (m <- jgets _mesh;
   match m with
   | Some sp => engineCall (MeshDispose (sp_scene sp)) (mesh_dispose B)
   | None => jret tt
   end;;
   sc <- jgets h_scene;
   match sc with
   | Some n => engineCall (SceneDispose n) (scene_dispose B)
   | None => jret tt
   end;;
   engineCall SceneNew (scene_new B);;
   n <- jgets scenes;
   jmodify countScene;;
   jmodify (set_h_scene (Some n));;
   engineCall (SceneSetup n) (scene_setup B))%job.

(** [new OffscreenAssetsHelper(canvas)] *)
Definition constructor (canvas : JsValue) : Job Helper unit :=
  (engineCall (EngineNew canvas) (engine_new B);; reset)%job.

(** [getScreenshot()] *)
Definition getScreenshot : Job Helper string :=
  (sc <- jgets h_scene; enginePromise (SceneScreenshot sc) (screenshot B))%job.

(** [createMesh(type)] *)
Definition createMesh (type : JsValue) : Job Helper unit :=
  (if strict_eq type (Some (JNum 0)) then
     sc <- jgets h_scene;
     engineCall (CreateSphere sc) (create_sphere B);;
     jmodify (set_mesh (Some (mkSphere sc None)))
   else jret tt)%job.

(** [importMesh(rootUrl, filename)] *)
Definition importMesh (rootUrl filename : JsValue) : Job Helper unit :=
  (sc <- jgets h_scene;
   enginePromise (SceneImportMesh rootUrl filename sc) (import_mesh B))%job.

(** [setMaterial(json, rootUrl)] *)
Definition setMaterial (json rootUrl : JsValue) : Job Helper unit :=
  (m <- jgets _mesh;
   match m with
   | None => jret tt
   | Some sp =>
       sc <- jgets h_scene;
       engineCall (MaterialParse json rootUrl sc) (material_parse B);;
       jmodify (set_mesh (Some (mkSphere (sp_scene sp) (Some sc))))
   end)%job.

(** [disposeMaterial()] *)
Definition disposeMaterial : Job Helper unit :=
  (m <- jgets _mesh;
   match m with
   | Some (mkSphere sc (Some _)) =>
       engineCall MaterialDispose (material_dispose B);;
       jwhen (dispose_unbinds B) (jmodify (set_mesh (Some (mkSphere sc None))))
   | _ => jret tt
   end)%job.

(** A method called on [OffscreenAssetsHelper._Instance]: a [TypeError]
    when there is no instance; what the method does to the instance stays
    done when it throws. *)
Definition helperOf (w : Worker) (i : option nat * option Sphere) : Helper :=
  mkHelper i.1 i.2 (engineCalls w) (sceneCount w).

Definition onInstance {A} (m : Job Helper A) : Job Worker A :=
  fun w =>
    match _Instance w with
    | None => (w, Throws)
    | Some i =>
        let '(h, r) := m (helperOf w i) in
        (mkWorker (Some (h_scene h, _mesh h)) (bcalls h) (scenes h) (posted w), r)
    end.

(** [OffscreenAssetsHelper._Instance = new OffscreenAssetsHelper(canvas)]:
    the instance is replaced only when the constructor returns. *)
Definition construct (canvas : JsValue) : Job Worker unit :=
  fun w =>
    let '(h, r) := constructor canvas (helperOf w (None, None)) in
    (mkWorker (match r with
               | Returns _ => Some (h_scene h, _mesh h)
               | _ => _Instance w
               end) (bcalls h) (scenes h) (posted w), r).

Definition postMessage (m : Posted) : Job Worker unit :=
  jmodify (fun w => mkWorker (_Instance w) (engineCalls w) (sceneCount w)
                      (posted w ++ [m])).

Definition isId (id : JsValue) (s : string) : bool := strict_eq id (Some (JStr s)).

(** The [switch] of the listener: the response of the message. *)
Definition dispatch (data id : JsValue) : Job Worker (option string) :=
  (if isId id "init" then
     canvas <- jlift (jget data "canvas");
     construct canvas;; jret None
   else if isId id "reset" then
     onInstance reset;; jret None
   else if isId id "getScreenshot" then
     response <- onInstance getScreenshot; jret (Some response)
   else if isId id "createMesh" then
     onInstance (type <- jlift (jget data "type"); createMesh type);;
     jret None
   else if isId id "importMesh" then
     onInstance (rootUrl <- jlift (jget data "rootUrl");
                 filename <- jlift (jget data "filename");
                 importMesh rootUrl filename);;
     jret None
   else if isId id "setMaterial" then
     onInstance (json <- jlift (jget data "json");
                 rootUrl <- jlift (jget data "rootUrl");
                 setMaterial json rootUrl);;
     jret None
   else if isId id "disposeMaterial" then
     onInstance disposeMaterial;; jret None
   else jret None)%job.

(** The listener of the worker, for a message whose data is [data]. *)
Definition onMessage (data : JsValue) : Job Worker unit :=
  jtry
    (id <- jlift (jget data "id");
     response <- dispatch data id;
     postMessage (Response id response))%job
    (id <- jlift (jget data "id");
     postMessage (Error id))%job.

End OffscreenAssetsHelper.

(** The commands of the protocol other than ["init"], the worker before any
    message, and an engine that never fails. *)
Definition instanceCommands : list string :=
  ["reset"; "getScreenshot"; "createMesh"; "importMesh"; "setMaterial";
   "disposeMaterial"].

Definition newWorker : Worker := mkWorker None [] 0 [].

Definition demoBabylon : Babylon :=
  {| engine_new := fun _ => true; mesh_dispose := fun _ => true;
     scene_dispose := fun _ => true; scene_new := fun _ => true;
     scene_setup := fun _ => true; create_sphere := fun _ => true;
     import_mesh := fun _ => Returns tt; material_parse := fun _ => true;
     material_dispose := fun _ => true; dispose_unbinds := true;
     screenshot := fun _ => Returns "data:image/png;base64," |}.

Definition message (id : string) (fields : list (string * Json)) : JsValue :=
  Some (JObj (("id", JStr id) :: fields)).

(** The worker after the messages [msgs], when none of them hangs. *)
Definition afterMessages (B : Babylon) (msgs : list JsValue) (w : Worker)
    : Worker :=
  foldl (fun w data => fst (onMessage B data w)) w msgs.

(** [m] settles: it returns or throws. *)
Definition settles {S A} (m : Job S A) : Prop := forall s, snd (m s) <> Hangs.

(** A stored instance has a scene, and the scenes the worker refers to
    have been created. *)
Definition consistent (w : Worker) : Prop :=
  match _Instance w with
  | None => True
  | Some (sc, m) =>
      (exists n, sc = Some n /\ n < sceneCount w) /\
      match m with
      | Some sp => (exists n, sp_scene sp = Some n /\ n < sceneCount w)
      | None => True
      end
  end.

(** The worker once it has posted [m]. *)
Definition having_posted (m : Posted) (w : Worker) : Worker :=
  mkWorker (_Instance w) (engineCalls w) (sceneCount w) (posted w ++ [m]).

(** The engine call names a scene wherever it takes one. *)
Definition sceneDefined (c : BabylonCall) : Prop :=
  match c with
  | MeshDispose None | CreateSphere None | SceneImportMesh _ _ None
  | MaterialParse _ _ None | SceneScreenshot None => False
  | _ => True
  end.

(** A helper with a scene, whose scenes have been created, seen from the
    inside; and the worker whose instance, if any, is such a helper and
    whose engine was never called without a scene. *)
Definition sound (h : Helper) : Prop :=
  (exists n, h_scene h = Some n /\ n < scenes h) /\
  match _mesh h with
  | Some sp => exists n, sp_scene sp = Some n /\ n < scenes h
  | None => True
  end.

Definition safe (w : Worker) : Prop :=
  consistent w /\ Forall sceneDefined (engineCalls w).

(** A method keeps a sound helper sound, calls the engine with scenes only
    and forgets no scene. *)
Definition keeps_sound {A} (m : Job Helper A) : Prop :=
  forall h, sound h -> Forall sceneDefined (bcalls h) ->
    sound (fst (m h)) /\ Forall sceneDefined (bcalls (fst (m h))) /\
    scenes h <= scenes (fst (m h)).

(** A worker that was initialised, has created the sphere and has been
    reset. *)
Definition staleWorker : Worker :=
  afterMessages demoBabylon
    [message "init" []; message "createMesh" [("type", JNum 0)]] newWorker.

(** * The main toolbar

    [MainToolbar._menuItemClicked] (src/unnamed/part_002) dispatches the id
    of the menu item that was clicked. *)

(** [s.split(sep)] for a separator of one character. *)
Fixpoint splitOn (sep : Ascii.ascii) (s : string) : list string :=
  match s with
  | EmptyString => [EmptyString]
  | String c s' =>
      if Ascii.eqb c sep then EmptyString :: splitOn sep s'
      else match splitOn sep s' with
           | x :: xs => String c x :: xs
           | [] => [String c EmptyString]
           end
  end.

(** [switch (v) { case c: x; ... default: d }] on strings: the first case
    that is strictly equal to [v]. *)
Fixpoint switch {X} (v : string) (cases : list (string * X)) (d : X) : X :=
  match cases with
  | [] => d
  | (c, x) :: cases' => if String.eqb v c then x else switch v cases' d
  end.

(** The same for a value that may be [undefined], which equals no case. *)
Definition switchOpt {X} (v : option string) (cases : list (string * X)) (d : X)
    : X :=
  match v with
  | Some s => switch s cases d
  | None => d
  end.

(** The calls the toolbar makes on the editor. *)
Inductive ToolbarCall : Type :=
| Project_Browse
| ReloadProject
| ProjectExporter_Save
| ProjectExporter_SaveAs
| WorkSpace_Browse
| WelcomeDialog_Show
| Assets_forceRefresh
| Editor_resetEditor
| Editor_addPlugin (name : string)
| HandleCreateScreenshot
| ForceUpdate
| Inspector_refreshDisplay
| SceneFactory_Add (kind : string)
| NotifyAddedNode (node : nat)
| Graph_refresh.

(** The scene of the editor, if any, as its two flags
    [postProcessesEnabled] and [fogEnabled], and the calls made. *)
Record Toolbar : Type := mkToolbar {
  editorScene : option (bool * bool);
  toolbarCalls : list ToolbarCall;
}.

Section MainToolbar.

(** [SceneFactory.Add...]: the node added, or [undefined]; the answer may
    depend on the calls made before, of which the number is given. *)
Variable SceneFactory : nat -> string -> option nat.

Definition tcall (c : ToolbarCall) : Job Toolbar unit :=
  jmodify (fun t => mkToolbar (editorScene t) (toolbarCalls t ++ [c])).

(** [scene!.flag = !scene!.flag] *)
Definition toggle (f : bool * bool -> bool * bool) : Job Toolbar unit :=
  fun t => match editorScene t with
           | Some flags => (mkToolbar (Some (f flags)) (toolbarCalls t), Returns tt)
           | None => (t, Throws)
           end.

Definition addNode (kind : string) : Job Toolbar (option nat) :=
  (n <- jgets (fun t => length (toolbarCalls t));
   tcall (SceneFactory_Add kind);;
   jret (SceneFactory n kind))%job.

(** [if (!node) { return; } notifyObservers(node); return graph.refresh();] *)
Definition announce (node : option nat) : Job Toolbar unit :=
  match node with
  | None => jret tt
  | Some n => (tcall (NotifyAddedNode n);; tcall Graph_refresh)%job
  end.

Definition _menuItemClicked (id : string) : Job Toolbar unit :=
  (let split := splitOn (Ascii.ascii_of_nat 58) id in
   let family := default EmptyString (head split) in
   let action := split !! 1 in
   switch id
     [("project:open", tcall Project_Browse);
      ("project:reload", tcall ReloadProject);
      ("project:save", tcall ProjectExporter_Save);
      ("project:save-as", tcall ProjectExporter_SaveAs);
      ("project:open-workspace", tcall WorkSpace_Browse);
      ("project:wizard", tcall WelcomeDialog_Show);
      ("edit:refresh-assets", tcall Assets_forceRefresh);
      ("edit:reset", tcall Editor_resetEditor);
      ("help", tcall (Editor_addPlugin "doc"))]
     (jret tt);;
   (if String.eqb family "view" then
      switchOpt action
        [("pp-enabled", toggle (fun fl => (negb fl.1, fl.2)));
         ("fog-enabled", toggle (fun fl => (fl.1, negb fl.2)));
         ("create-screenshot", tcall HandleCreateScreenshot)]
        (jret tt);;
      tcall ForceUpdate;;
      tcall Inspector_refreshDisplay
    else jret tt);;
   if String.eqb family "add" then
     node <- switchOpt action
               [("pointlight", addNode "PointLight");
                ("directional-light", addNode "DirectionalLight");
                ("spot-light", addNode "SpotLight");
                ("camera", addNode "FreeCamera");
                ("arc-rotate-camera", addNode "ArcRotateCamera");
                ("sky", addNode "Sky");
                ("dummy", addNode "Dummy")]
               (jret None);
     announce node
   else if String.eqb family "addmesh" then
     mesh <- switchOpt action
               [("cube", addNode "Cube"); ("sphere", addNode "Sphere")]
               (jret None);
     announce mesh
   else jret tt)%job.

End MainToolbar.

(** The ids that [render] passes to [_menuItemClicked], in the order of
    the menus, and the ids that the first [switch] handles. *)
Definition menuItems : list string :=
  ["project:open"; "project:reload"; "project:save"; "project:save-as";
   "project:open-workspace"; "project:wizard";
   "edit:undo"; "edit:redo"; "edit:refresh-assets"; "edit:reset";
   "view:pp-enabled"; "view:fog-enabled"; "view:create-screenshot";
   "add:pointlight"; "add:directional-light"; "add:spot-light";
   "add:camera"; "add:arc-rotate-camera"; "add:sky"; "add:dummy";
   "addmesh:cube"; "addmesh:sphere"; "help"].

Definition commonIds : list string :=
  ["project:open"; "project:reload"; "project:save"; "project:save-as";
   "project:open-workspace"; "project:wizard"; "edit:refresh-assets";
   "edit:reset"; "help"].

Definition familyOf (id : string) : string :=
  default EmptyString (head (splitOn (Ascii.ascii_of_nat 58) id)).

(** * Reasoning about computations *)

(** [m] relates every world to the one it leaves, whether it returns or
    throws. *)
Definition preserves {A} (R : relation World) (m : M A) : Prop :=
  forall w, R w (fst (m w)).

(** [m] never throws. *)
Definition total {A} (m : M A) : Prop :=
  forall w, exists a, snd (m w) = Ok a.

(** A relation on worlds read through a projection. *)
Definition on {X} (proj : World -> X) (r : relation X) : relation World :=
  fun w w' => r (proj w) (proj w').


(** [m] adds [l] to the part [part] of the trace, whether it returns or
    throws. *)
Definition adding {X A} (part : list Event -> list X) (l : list X) (m : M A)
    : Prop :=
  forall w, part (trace (fst (m w))) = part (trace w) ++ l.

#[export] Instance on_preorder {X} (proj : World -> X) (r : relation X) :
  PreOrder r -> PreOrder (on proj r).
Proof.
  intros [Hr Ht]. split.
  - intros w. apply Hr.
  - intros a b c Hab Hbc. exact (Ht _ _ _ Hab Hbc).
Qed.

Section Preserves.

Context (R : relation World) `{!PreOrder R}.

Lemma preserves_ret {A} (a : A) : preserves R (ret a).
Proof. intros w. simpl. reflexivity. Qed.

Lemma preserves_throw {A} : preserves R (@throw A).
Proof. intros w. simpl. reflexivity. Qed.

Lemma preserves_lift {A} (r : Res A) : preserves R (lift r).
Proof. intros w. simpl. reflexivity. Qed.

Lemma preserves_gets {A} (f : World -> A) : preserves R (gets f).
Proof. intros w. simpl. reflexivity. Qed.

Lemma preserves_ofOption {A} (o : option A) : preserves R (ofOption o).
Proof. destruct o; [apply preserves_ret | apply preserves_throw]. Qed.

Lemma preserves_modify (f : World -> World) :
  (forall w, R w (f w)) -> preserves R (modify f).
Proof. intros H w. apply H. Qed.

Lemma preserves_bind {A B} (m : M A) (k : A -> M B) :
  preserves R m -> (forall a, preserves R (k a)) -> preserves R (bind m k).
Proof.
  intros Hm Hk w. unfold bind. specialize (Hm w).
  destruct (m w) as [w' [a|]]; simpl in *; [|done].
  etransitivity; [exact Hm | apply Hk].
Qed.

Lemma preserves_try {A} (m h : M A) :
  preserves R m -> preserves R h -> preserves R (try_catch m h).
Proof.
  intros Hm Hh w. unfold try_catch. specialize (Hm w).
  destruct (m w) as [w' [a|]]; simpl in *; [done|].
  etransitivity; [exact Hm | apply Hh].
Qed.

Lemma preserves_foldM {S A} (body : S -> A -> M S) (l : list A) :
  (forall s a, preserves R (body s a)) -> forall s, preserves R (foldM body s l).
Proof.
  intros Hb. induction l as [|a l IH]; intros s; simpl.
  - apply preserves_ret.
  - apply preserves_bind; auto.
Qed.

Lemma preserves_forM {A} (body : A -> M unit) (l : list A) :
  (forall a, preserves R (body a)) -> preserves R (forM body l).
Proof. intros Hb. apply preserves_foldM. auto. Qed.

End Preserves.

Lemma total_ret {A} (a : A) : total (ret a).
Proof. intros w. by exists a. Qed.

Lemma total_gets {A} (f : World -> A) : total (gets f).
Proof. intros w. by eexists. Qed.

Lemma total_modify (f : World -> World) : total (modify f).
Proof. intros w. by exists tt. Qed.

Lemma total_bind {A B} (m : M A) (k : A -> M B) :
  total m -> (forall a, total (k a)) -> total (bind m k).
Proof.
  intros Hm Hk w. unfold bind. destruct (Hm w) as [a Ha].
  destruct (m w) as [w' r]; simpl in *; subst. apply Hk.
Qed.

Lemma total_try {A} (m h : M A) : total h -> total (try_catch m h).
Proof.
  intros Hh w. unfold try_catch.
  destruct (m w) as [w' [a|]]; [by exists a | apply Hh].
Qed.

Lemma total_foldM {S A} (body : S -> A -> M S) (l : list A) :
  (forall s a, total (body s a)) -> forall s, total (foldM body s l).
Proof.
  intros Hb. induction l as [|a l IH]; intros s; simpl.
  - apply total_ret.
  - apply total_bind; auto.
Qed.

(** The loop over [l1 ++ l2] is the loop over [l1] followed by the loop
    over [l2]. *)
Lemma foldM_app {S A} (body : S -> A -> M S) (l1 l2 : list A) (s : S) (w : World) :
  foldM body s (l1 ++ l2) w =
  bind (foldM body s l1) (fun s' => foldM body s' l2) w.
Proof.
  revert s w. induction l1 as [|a l1 IH]; intros s w; simpl.
  - done.
  - unfold bind. simpl. unfold bind.
    destruct (body s a w) as [w' [s'|]]; [|done]. by rewrite IH.
Qed.

(** Steps of the structural proofs. *)
Ltac step_preserves :=
  lazymatch goal with
  | |- preserves _ (bind _ _) => apply preserves_bind; [ exact _ | | intros ? ]
  | |- preserves _ (try_catch _ _) => apply preserves_try; [ exact _ | | ]
  | |- preserves _ (foldM _ _ _) => apply preserves_foldM; [ exact _ | intros ? ? ]
  | |- preserves _ (forM _ _) => apply preserves_forM; [ exact _ | intros ? ]
  | |- preserves _ (ret _) => apply preserves_ret; exact _
  | |- preserves _ throw => apply preserves_throw; exact _
  | |- preserves _ (lift _) => apply preserves_lift; exact _
  | |- preserves _ (gets _) => apply preserves_gets; exact _
  | |- preserves _ (ofOption _) => apply preserves_ofOption; exact _
  | |- preserves _ (modify _) => apply preserves_modify; intros ?
  | |- preserves _ (let _ := _ in _) => cbv zeta
  | |- preserves _ (match ?x with _ => _ end) => destruct x
  end.

Ltac step_total :=
  lazymatch goal with
  | |- total (bind _ _) => apply total_bind; [ | intros ? ]
  | |- total (try_catch _ _) => apply total_try
  | |- total (foldM _ _ _) => apply total_foldM; intros ? ?
  | |- total (forM _ _) => apply total_foldM; intros ? ?
  | |- total (ret _) => apply total_ret
  | |- total (gets _) => apply total_gets
  | |- total (modify _) => apply total_modify
  | |- total (match ?x with _ => _ end) => destruct x
  end.

Ltac unfold_prims :=
  unfold logInfo, logWarning, logError, Overlay_Show, Overlay_SetMessage,
    Overlay_SetSpinnervalue, Overlay_Hide, updMesh, meshName, instanceofMesh.



Lemma bind_throw_inv {A B} (m : M A) (k : A -> M B) (w : World) :
  snd (bind m k w) = Throw ->
  snd (m w) = Throw \/
  exists a, snd (m w) = Ok a /\ snd (k a (fst (m w))) = Throw.
Proof.
  unfold bind. destruct (m w) as [w' [a|]]; simpl; intros H; [right|left]; eauto.
Qed.

Lemma bind_throw_total {A B} (m : M A) (k : A -> M B) (w : World) :
  total m -> snd (bind m k w) = Throw ->
  exists a, snd (k a (fst (m w))) = Throw.
Proof.
  intros Hm H. destruct (bind_throw_inv _ _ _ H) as [Ht|(a & _ & Hk)]; [|eauto].
  destruct (Hm w) as [a Ha]. congruence.
Qed.

(** ** The entity loops never throw *)

Section NeverThrows.

Variable E : Engine.
Variables (dir rootUrl : string) (spinnerStep : Q).

Lemma loadMesh_total sv m : total (loadMesh E dir spinnerStep sv m).
Proof. unfold loadMesh. unfold_prims. repeat step_total. Qed.

Lemma loadTransformNode_total t : total (loadTransformNode E dir rootUrl t).
Proof. unfold loadTransformNode. unfold_prims. repeat step_total. Qed.

Lemma loadImpostors_total : total (loadImpostors E).
Proof.
  unfold loadImpostors, loadImpostor. unfold_prims. repeat step_total.
Qed.

Lemma loadMaterial_total sv m : total (loadMaterial E dir rootUrl spinnerStep sv m).
Proof. unfold loadMaterial. unfold_prims. repeat step_total. Qed.

Lemma loadTexture_total sv t : total (loadTexture E dir rootUrl spinnerStep sv t).
Proof. unfold loadTexture. unfold_prims. repeat step_total. Qed.

Lemma loadLight_total sv l : total (loadLight E dir spinnerStep sv l).
Proof. unfold loadLight. unfold_prims. repeat step_total. Qed.


Lemma loadMeshes_total p : total (loadMeshes E dir spinnerStep p).
Proof.
  unfold loadMeshes. unfold_prims. step_total; [step_total|].
  apply total_foldM, loadMesh_total.
Qed.

Lemma loadTransformNodes_total p : total (loadTransformNodes E dir rootUrl p).
Proof.
  unfold loadTransformNodes. unfold_prims. step_total; [step_total|].
  apply total_foldM. intros _. apply loadTransformNode_total.
Qed.

Lemma loadMaterials_total sv ms : total (loadMaterials E dir rootUrl spinnerStep sv ms).
Proof.
  unfold loadMaterials. unfold_prims. step_total; [step_total|].
  apply total_foldM, loadMaterial_total.
Qed.




Lemma _RefreshEditor_total : total _RefreshEditor.
Proof. unfold _RefreshEditor. unfold_prims. repeat step_total. Qed.

Lemma signalReady_total : total (signalReady E).
Proof.
  unfold signalReady, _RefreshEditor. unfold_prims. repeat step_total.
Qed.

End NeverThrows.

(** ** Structural proofs of [preserves] *)

Ltac unfold_importer :=
  unfold loadEntities, loadMeshes, loadTransformNodes,
    loadMaterials, loadTextures, loadLights, loadCameras, loadPostProcesses,
    updateCache, finishImport, setWaitingParents, _SetWaitingParent,
    signalReady, _RefreshEditor, loadCache,
    loadPostProcess, loadCamera, loadLight, ShadowGenerator_Parse,
    loadTexture, loadMaterial, bindMesh, Material_Parse,
    MultiMaterial_ParseMultiMaterial, loadImpostors, loadImpostor,
    loadTransformNode, loadMesh, importMeshFile, ImportMesh, importLod,
    SceneLoader_ImportMeshAsync, connectParent,
    configureAssets, registerFile, readJSON, readManifest;
  unfold_prims.

(** The two computations written as functions of the world. *)
Ltac prim_preserves :=
  let w := fresh "w" in
  lazymatch goal with
  | |- preserves _ (assignParent _ _ _) =>
      intros w; unfold assignParent;
      match goal with
      | |- context [Node_setParent ?e ?sc ?r ?p] =>
          destruct (Node_setParent e sc r p)
      end; simpl
  | |- preserves _ (callTextureParser _ _) =>
      intros w; unfold callTextureParser;
      match goal with
      | |- context [_TextureParser ?w0 ?src ?sc ?r] =>
          destruct (_TextureParser w0 src sc r) as [? ?]
      end; simpl
  end.

Ltac go_preserves :=
  unfold_importer;
  repeat first [ step_preserves | prim_preserves ].

(** ** The parent pass *)

Lemma findById_ids v l l' :
  map n_id l = map n_id l' -> findById v l = findById v l'.
Proof.
  revert l'. induction l as [|n l IH]; intros [|n' l'] H; simpl in *; try done.
  injection H as Hn Hl. rewrite Hn. by rewrite (IH l' Hl).
Qed.

Lemma findById_Some v l i :
  findById v l = Some i ->
  exists p, l !! i = Some p /\ v = Some (JStr (n_id p)).
Proof.
  revert i. induction l as [|n l IH]; intros i; cbn [findById]; [done|].
  destruct (strict_eq (Some (JStr (n_id n))) v) eqn:Hs.
  - intros Hi. injection Hi as Hi. subst i. exists n. split; [done|].
    destruct v as [[| | |s| |]|]; simpl in Hs; try done.
    apply String.eqb_eq in Hs. by subst.
  - destruct (findById v l) as [j|]; simpl; [|done].
    intros Hi. injection Hi as Hi. subst i.
    destruct (IH j eq_refl) as (p & Hp & Hv). eauto.
Qed.


Lemma lookupParent_ids s s' v :
  same_ids s s' -> lookupParent s v = lookupParent s' v.
Proof.
  intros H. unfold lookupParent, getNodeByID, getTransformNodeByID,
    getMeshByID, getLightByID, getCameraByID.
  pose proof (findById_ids v _ _ (H KMesh)) as H1.
  pose proof (findById_ids v _ _ (H KLight)) as H2.
  pose proof (findById_ids v _ _ (H KCamera)) as H3.
  pose proof (findById_ids v _ _ (H KTransform)) as H4.
  cbn [nodesOf] in *. by rewrite H1, H2, H3, H4.
Qed.

Lemma lookupParent_Some s v r :
  lookupParent s v = Some r ->
  exists p, nodeAt s r = Some p /\ v = Some (JStr (n_id p)).
Proof.
  unfold lookupParent, getNodeByID, getTransformNodeByID, getMeshByID,
    getLightByID, getCameraByID.
  destruct (findById v (meshes s)) as [i|] eqn:Hm.
  { intros Hr. injection Hr as Hr. subst r. by apply findById_Some. }
  destruct (findById v (lights s)) as [i|] eqn:Hl.
  { intros Hr. injection Hr as Hr. subst r. by apply findById_Some. }
  destruct (findById v (cameras s)) as [i|] eqn:Hc; simpl.
  { intros Hr. injection Hr as Hr. subst r. by apply findById_Some. }
  destruct (findById v (transformNodes s)) as [i|] eqn:Ht; simpl; [|done].
  intros Hr. injection Hr as Hr. subst r. by apply findById_Some.
Qed.

Lemma linkNode_spec s n :
  linkNode s n =
  if truthy (_waitingParentId n)
  then set_waiting None (set_parent (lookupParent s (_waitingParentId n)) n)
  else n.
Proof. unfold linkNode, lookupParent. by destruct (truthy _). Qed.

Lemma linkNode_ids s s' n :
  same_ids s s' -> linkNode s n = linkNode s' n.
Proof.
  intros H. rewrite !linkNode_spec.
  by rewrite (lookupParent_ids s s' _ H).
Qed.

Lemma linkNode_id s n : n_id (linkNode s n) = n_id n.
Proof. rewrite linkNode_spec. by destruct (truthy _). Qed.

Lemma map_id_alter (f : Node -> Node) i l :
  (forall n, n_id (f n) = n_id n) -> map n_id (alter f i l) = map n_id l.
Proof.
  intros Hf. revert i. induction l as [|n l IH]; intros [|i]; cbn; try done.
  - by rewrite Hf.
  - f_equal. apply IH.
Qed.

Lemma alters_lookup {A} (f : A -> A) idxs l j :
  NoDup idxs ->
  alters f idxs l !! j = (if decide (j ∈ idxs) then f else id) <$> (l !! j).
Proof.
  unfold alters. revert l.
  induction idxs as [|i idxs IH]; intros l Hnd; cbn [foldl].
  - rewrite decide_False by apply not_elem_of_nil. by destruct (l !! j).
  - apply NoDup_cons in Hnd as [Hi Hnd]. rewrite IH by done.
    destruct (decide (j = i)) as [->|Hne].
    + rewrite list_lookup_alter_eq, decide_False by done.
      rewrite decide_True by (apply elem_of_cons; auto).
      by destruct (l !! i).
    + rewrite list_lookup_alter_ne by done.
      destruct (decide (j ∈ idxs)) as [Hj|Hj].
      * by rewrite decide_True by (apply elem_of_cons; auto).
      * rewrite decide_False; [done|].
        intros [?|?]%elem_of_cons; done.
Qed.

Lemma alters_all {A} (f : A -> A) (l : list A) :
  alters f (seq 0 (length l)) l = map f l.
Proof.
  apply list_eq. intros j. rewrite alters_lookup by apply NoDup_seq.
  rewrite list_lookup_fmap.
  destruct (decide (j ∈ seq 0 (length l))) as [Hj|Hj]; [done|].
  rewrite lookup_ge_None_2; [done|].
  rewrite elem_of_seq in Hj. lia.
Qed.

Section LinkAll.

(** One of the four node lists, with its update. *)
Variable k : NodeKind.
Variable set : (list Node -> list Node) -> Scene -> Scene.
Hypothesis get_set : forall f s, nodesOf k (set f s) = f (nodesOf k s).
Hypothesis set_other :
  forall f s k', k' <> k -> nodesOf k' (set f s) = nodesOf k' s.
Hypothesis set_ext :
  forall f g s, f (nodesOf k s) = g (nodesOf k s) -> set f s = set g s.
Hypothesis set_set :
  forall f g s, set f (set g s) = set (fun l => f (g l)) s.
Hypothesis set_same : forall f s, f (nodesOf k s) = nodesOf k s -> set f s = s.

Lemma set_same_ids f s :
  map n_id (f (nodesOf k s)) = map n_id (nodesOf k s) -> same_ids (set f s) s.
Proof.
  intros H k'. destruct (decide (k' = k)) as [->|Hne].
  - by rewrite get_set.
  - by rewrite set_other.
Qed.

Lemma linkFrom_spec idxs s0 s :
  same_ids s s0 ->
  linkFrom (nodesOf k) set idxs s = set (alters (linkNode s0) idxs) s.
Proof.
  revert s. induction idxs as [|i idxs IH]; intros s Hs; cbn [linkFrom].
  - symmetry. by apply set_same.
  - assert (Hstep : set (alter (linkNode s) i) s
                    = set (alter (linkNode s0) i) s).
    { apply set_ext. apply list_alter_ext; [|done].
      intros n _. by apply linkNode_ids. }
    rewrite Hstep, IH.
    + by rewrite set_set.
    + intros k'. rewrite <- (Hs k'). apply set_same_ids.
      apply map_id_alter. intros n. apply linkNode_id.
Qed.

Lemma linkAll_spec s :
  linkAll (nodesOf k) set s = set (map (linkNode s)) s.
Proof.
  unfold linkAll. rewrite (linkFrom_spec _ s) by done.
  apply set_ext. apply alters_all.
Qed.

Lemma linkAll_same_ids s : same_ids (linkAll (nodesOf k) set s) s.
Proof.
  rewrite linkAll_spec. apply set_same_ids.
  rewrite map_map. apply map_ext. intros n. apply linkNode_id.
Qed.

End LinkAll.

Ltac lens_laws :=
  let f := fresh "f" in
  let g := fresh "g" in
  let x := fresh "x" in
  let H := fresh "H" in
  solve
    [ intros f x; reflexivity
    | intros f x [] H; solve [reflexivity | by destruct H]
    | intros f g x; reflexivity
    | intros f g x H; destruct x; cbn in *;
      unfold set_meshes, set_lights, set_cameras, set_transformNodes; cbn;
      by rewrite H
    | intros f x H; destruct x; cbn in *;
      unfold set_meshes, set_lights, set_cameras, set_transformNodes; cbn;
      by rewrite H ].

Lemma linkAll_meshes s :
  linkAll meshes set_meshes s = set_meshes (map (linkNode s)) s
  /\ same_ids (linkAll meshes set_meshes s) s.
Proof.
  split; [apply (linkAll_spec KMesh set_meshes)
         |apply (linkAll_same_ids KMesh set_meshes)]; lens_laws.
Qed.

Lemma linkAll_lights s :
  linkAll lights set_lights s = set_lights (map (linkNode s)) s
  /\ same_ids (linkAll lights set_lights s) s.
Proof.
  split; [apply (linkAll_spec KLight set_lights)
         |apply (linkAll_same_ids KLight set_lights)]; lens_laws.
Qed.

Lemma linkAll_cameras s :
  linkAll cameras set_cameras s = set_cameras (map (linkNode s)) s
  /\ same_ids (linkAll cameras set_cameras s) s.
Proof.
  split; [apply (linkAll_spec KCamera set_cameras)
         |apply (linkAll_same_ids KCamera set_cameras)]; lens_laws.
Qed.

Lemma linkAll_transformNodes s :
  linkAll transformNodes set_transformNodes s
    = set_transformNodes (map (linkNode s)) s
  /\ same_ids (linkAll transformNodes set_transformNodes s) s.
Proof.
  split; [apply (linkAll_spec KTransform set_transformNodes)
         |apply (linkAll_same_ids KTransform set_transformNodes)]; lens_laws.
Qed.

Lemma same_ids_trans s1 s2 s3 : same_ids s1 s2 -> same_ids s2 s3 -> same_ids s1 s3.
Proof. intros H1 H2 k. by rewrite (H1 k). Qed.

(** The parent pass applies [linkNode], with the lookups of the
    scene it starts from, to every node of the four lists. *)
Lemma linkParents_spec s k :
  nodesOf k (linkParents s) = map (linkNode s) (nodesOf k s).
Proof.
  unfold linkParents.
  destruct (linkAll_meshes s) as [E1 I1].
  remember (linkAll meshes set_meshes s) as s1 eqn:D1. clear D1.
  destruct (linkAll_lights s1) as [E2 I2].
  remember (linkAll lights set_lights s1) as s2 eqn:D2. clear D2.
  destruct (linkAll_cameras s2) as [E3 I3].
  remember (linkAll cameras set_cameras s2) as s3 eqn:D3. clear D3.
  destruct (linkAll_transformNodes s3) as [E4 _].
  pose proof (same_ids_trans _ _ _ I2 I1) as J2.
  pose proof (same_ids_trans _ _ _ I3 J2) as J3.
  rewrite E4. destruct k; cbn.
  - by rewrite E3, E2, E1.
  - rewrite E3; cbn. rewrite E2; cbn.
    rewrite (map_ext _ _ (fun n => linkNode_ids s1 s n I1)).
    by rewrite E1.
  - rewrite E3; cbn.
    rewrite (map_ext _ _ (fun n => linkNode_ids s2 s n J2)).
    by rewrite E2, E1.
  - rewrite (map_ext _ _ (fun n => linkNode_ids s3 s n J3)).
    by rewrite E3, E2, E1.
Qed.

Lemma linkParents_same_ids s : same_ids (linkParents s) s.
Proof.
  intros k. rewrite linkParents_spec, map_map.
  apply map_ext. intros n. apply linkNode_id.
Qed.

(** *** The pass as the importer runs it *)

Lemma alterNode_alterNode r f g s :
  alterNode r f (alterNode r g s) = alterNode r (f ∘ g) s.
Proof.
  destruct r; unfold alterNode, set_meshes, set_lights, set_cameras,
    set_transformNodes; cbn; f_equal; apply list_alter_alter_eq.
Qed.

Lemma alterNode_ext r f g s :
  (forall n, nodeAt s r = Some n -> f n = g n) ->
  alterNode r f s = alterNode r g s.
Proof.
  intros H.
  destruct r; unfold alterNode, set_meshes, set_lights, set_cameras,
    set_transformNodes; cbn in *; f_equal; by apply list_alter_ext.
Qed.

Lemma alterNode_same r f s :
  (forall n, nodeAt s r = Some n -> f n = n) -> alterNode r f s = s.
Proof.
  intros H. rewrite (alterNode_ext r f id s) by done.
  destruct r, s; unfold alterNode, set_meshes, set_lights, set_cameras,
    set_transformNodes; cbn; f_equal; apply list_alter_id; done.
Qed.

Lemma set_scene_same f w : f (scene w) = scene w -> set_scene f w = w.
Proof. destruct w. unfold set_scene. cbn. by intros ->. Qed.

Lemma nodeAt_refOf s k i : nodeAt s (refOf k i) = nodesOf k s !! i.
Proof. by destruct k. Qed.

Section ParentPass.

Variable E : Engine.

Lemma _SetWaitingParent_run r w :
  _SetWaitingParent E r w =
  match nodeAt (scene w) r with
  | Some n =>
      if truthy (_waitingParentId n) then
        let p := lookupParent (scene w) (_waitingParentId n) in
        if Node_setParent E (scene w) r p
        then (set_scene (alterNode r (linkNode (scene w))) w, Ok tt)
        else (set_scene (alterNode r (set_parent p)) w, Throw)
      else (w, Ok tt)
  | None => (w, Ok tt)
  end.
Proof.
  unfold _SetWaitingParent, bind, gets, modify, assignParent. cbn.
  destruct (nodeAt (scene w) r) as [n|] eqn:Hn; [|done].
  destruct (truthy (_waitingParentId n)) eqn:Ht; cbn; [|done].
  fold (lookupParent (scene w) (_waitingParentId n)).
  destruct (Node_setParent E _ _ _); cbn; [|done].
  f_equal. unfold set_scene. cbn. f_equal.
  rewrite alterNode_alterNode. apply alterNode_ext.
  intros n' Hn'. rewrite Hn in Hn'. injection Hn' as <-.
  cbn. by rewrite linkNode_spec, Ht.
Qed.

Lemma _SetWaitingParent_ok r w :
  snd (_SetWaitingParent E r w) = Ok tt ->
  fst (_SetWaitingParent E r w) = set_scene (alterNode r (linkNode (scene w))) w.
Proof.
  rewrite _SetWaitingParent_run.
  destruct (nodeAt (scene w) r) as [n|] eqn:Hn.
  - destruct (truthy (_waitingParentId n)) eqn:Ht.
    + cbn zeta. by destruct (Node_setParent E _ _ _).
    + intros _. cbn. symmetry. apply set_scene_same, alterNode_same.
      intros n' Hn'. rewrite Hn in Hn'. injection Hn' as <-.
      by rewrite linkNode_spec, Ht.
  - intros _. cbn. symmetry. apply set_scene_same, alterNode_same.
    intros n' Hn'. by rewrite Hn in Hn'.
Qed.

Lemma _SetWaitingParent_throw r w :
  snd (_SetWaitingParent E r w) = Throw -> setterThrows E.
Proof.
  rewrite _SetWaitingParent_run.
  destruct (nodeAt (scene w) r) as [n|] eqn:Hn; [|done].
  destruct (truthy (_waitingParentId n)) eqn:Ht; [|done].
  cbn zeta. destruct (Node_setParent E _ _ _) eqn:Hs; [done|].
  intros _. by exists (scene w), r, n.
Qed.

Section ForEach.

Variables (mk : nat -> NodeRef) (get : Scene -> list Node)
  (set : (list Node -> list Node) -> Scene -> Scene).
Hypothesis mk_set : forall i f s, alterNode (mk i) f s = set (alter f i) s.

Lemma forEach_ok idxs w :
  snd (forM (fun i => _SetWaitingParent E (mk i)) idxs w) = Ok tt ->
  fst (forM (fun i => _SetWaitingParent E (mk i)) idxs w)
  = set_scene (linkFrom get set idxs) w.
Proof.
  revert w. induction idxs as [|i idxs IH]; intros w.
  - intros _. cbn. symmetry. by apply set_scene_same.
  - unfold forM. cbn [foldM linkFrom]. unfold bind.
    pose proof (_SetWaitingParent_ok (mk i) w) as H1.
    destruct (_SetWaitingParent E (mk i) w) as [w1 [[]|]]; [|done].
    cbn in H1. specialize (H1 eq_refl). subst w1.
    intros H. unfold forM in IH. rewrite IH by done.
    unfold set_scene. cbn. by rewrite mk_set.
Qed.

Lemma forEach_throw idxs w :
  snd (forM (fun i => _SetWaitingParent E (mk i)) idxs w) = Throw ->
  setterThrows E.
Proof.
  revert w. induction idxs as [|i idxs IH]; intros w; [done|].
  unfold forM. cbn [foldM]. intros H.
  apply bind_throw_inv in H; destruct H as [H|([] & _ & H)].
  - by eapply _SetWaitingParent_throw.
  - by eapply IH.
Qed.

End ForEach.

Lemma same_ids_length s s' k :
  same_ids s s' -> length (nodesOf k s) = length (nodesOf k s').
Proof. intros H. by rewrite <- (length_map n_id), (H k), length_map. Qed.

(** When no assignment of a parent throws, the pass leaves the scene
    [linkParents] describes and touches nothing else. *)
Lemma setWaitingParents_ok w :
  snd (setWaitingParents E w) = Ok tt ->
  fst (setWaitingParents E w) = set_scene linkParents w.
Proof.
  unfold setWaitingParents, bind at 1 2. unfold gets at 1 2. cbn [fst snd].
  set (s := scene w).
  destruct (linkAll_meshes s) as [_ I1].
  destruct (linkAll_lights (linkAll meshes set_meshes s)) as [_ I2].
  destruct (linkAll_cameras (linkAll lights set_lights
              (linkAll meshes set_meshes s))) as [_ I3].
  pose proof (same_ids_trans _ _ _ I2 I1) as J2.
  pose proof (same_ids_trans _ _ _ I3 J2) as J3.
  pose proof (same_ids_length _ _ KLight I1) as L1.
  pose proof (same_ids_length _ _ KCamera J2) as L2.
  pose proof (same_ids_length _ _ KTransform J3) as L3.
  cbn [nodesOf] in L1, L2, L3.
  pose proof (forEach_ok RMesh meshes set_meshes (fun _ _ _ => eq_refl)
                (seq 0 (length (meshes s))) w) as H1.
  unfold bind.
  destruct (forM (fun i => _SetWaitingParent E (RMesh i)) _ w)
    as [w1 [[]|]]; [|done].
  cbn in H1. specialize (H1 eq_refl). subst w1.
  pose proof (forEach_ok RLight lights set_lights (fun _ _ _ => eq_refl)
                (seq 0 (length (lights s)))
                (set_scene (linkFrom meshes set_meshes
                              (seq 0 (length (meshes s)))) w)) as H2.
  destruct (forM (fun i => _SetWaitingParent E (RLight i)) _ _)
    as [w2 [[]|]]; [|done].
  cbn [fst snd] in H2. specialize (H2 eq_refl). subst w2.
  match goal with
  | |- context [forM _ _ ?w0] =>
      pose proof (forEach_ok RCamera cameras set_cameras (fun _ _ _ => eq_refl)
                    (seq 0 (length (cameras s))) w0) as H3
  end.
  destruct (forM (fun i => _SetWaitingParent E (RCamera i)) _ _)
    as [w3 [[]|]]; [|done].
  cbn [fst snd] in H3. specialize (H3 eq_refl). subst w3.
  match goal with
  | |- context [forM _ _ ?w0] =>
      pose proof (forEach_ok RTransform transformNodes set_transformNodes
                    (fun _ _ _ => eq_refl)
                    (seq 0 (length (transformNodes s))) w0) as H4
  end.
  fold s. intros H. rewrite H4 by exact H.
  unfold set_scene. cbn. unfold linkParents, linkAll in *. fold s.
  by rewrite L3, L2, L1.
Qed.

Lemma setWaitingParents_throw w :
  snd (setWaitingParents E w) = Throw -> setterThrows E.
Proof.
  unfold setWaitingParents. intros H.
  apply bind_throw_total in H; [|apply total_gets]. destruct H as [sc H].
  apply bind_throw_inv in H; destruct H as [H|(? & _ & H)].
  { by eapply (forEach_throw RMesh). }
  apply bind_throw_inv in H; destruct H as [H|(? & _ & H)].
  { by eapply (forEach_throw RLight). }
  apply bind_throw_inv in H; destruct H as [H|(? & _ & H)].
  { by eapply (forEach_throw RCamera). }
  by eapply (forEach_throw RTransform).
Qed.

(** The end of the import: the pass, when it returns, and the readiness
    signal. *)
Lemma finishImport_unfold w :
  finishImport E w =
  match setWaitingParents E w with
  | (w', Ok _) => signalReady E w'
  | (w', Throw) => (w', Throw)
  end.
Proof. reflexivity. Qed.

Lemma finishImport_ok_inv w w' :
  finishImport E w = (w', Ok tt) ->
  snd (setWaitingParents E w) = Ok tt /\
  w' = fst (signalReady E (set_scene linkParents w)).
Proof.
  rewrite finishImport_unfold. intros H.
  pose proof (setWaitingParents_ok w) as Hp.
  destruct (setWaitingParents E w) as [w1 [[]|]]; [|done].
  cbn in Hp. specialize (Hp eq_refl). subst w1. split; [done|].
  by rewrite H.
Qed.

Lemma finishImport_throw w :
  snd (finishImport E w) = Throw -> setterThrows E.
Proof.
  rewrite finishImport_unfold. intros H.
  pose proof (setWaitingParents_throw w) as Hp.
  destruct (setWaitingParents E w) as [w1 [[]|]]; [|by apply Hp].
  destruct (signalReady_total E w1) as [a Ha]. congruence.
Qed.

End ParentPass.

(** ** Binding a material to meshes *)

Lemma existsb_pointwise {A} (f g : A -> bool) (l : list A) :
  (forall a, f a = g a) -> existsb f l = existsb g l.
Proof. intros H. induction l as [|a l IH]; cbn; [done|]. by rewrite H, IH. Qed.

Section Binding.

Variables (m : MaterialRecord) (material : nat).

Lemma bindMesh_resolved bm w i :
  getMeshByID (scene w) (Some (JStr bm)) = Some i ->
  bindMesh m material bm w =
    (set_scene (set_meshes (alter (set_material (Some material)) i)) w, Ok tt).
Proof. intros H. unfold bindMesh, bind, gets. simpl. by rewrite H. Qed.

Lemma bindMesh_unresolved bm w :
  getMeshByID (scene w) (Some (JStr bm)) = None ->
  bindMesh m material bm w = (emit (LogWarning (bindingWarning m bm)) w, Ok tt).
Proof. intros H. unfold bindMesh, bind, gets. simpl. by rewrite H. Qed.

Lemma getMeshByID_alter (f : Node -> Node) i sc v :
  (forall n, n_id (f n) = n_id n) ->
  getMeshByID (set_meshes (alter f i) sc) v = getMeshByID sc v.
Proof.
  intros Hf. unfold getMeshByID. apply findById_ids. cbn.
  by apply map_id_alter.
Qed.

Lemma bindMeshes_spec bms w :
  let w' := fst (forM (bindMesh m material) bms w) in
  snd (forM (bindMesh m material) bms w) = Ok tt /\
  trace w' = trace w ++
    map (fun bm => LogWarning (bindingWarning m bm))
        (List.filter (unresolved w) bms) /\
  map n_id (meshes (scene w')) = map n_id (meshes (scene w)) /\
  forall i,
    meshes (scene w') !! i =
    (fun n => if existsb (boundTo w i) bms
              then set_material (Some material) n else n)
      <$> meshes (scene w) !! i.
Proof.
  revert w. induction bms as [|bm bms IH]; intros w; cbn zeta.
  { cbn. rewrite app_nil_r. repeat split; try done.
    intros i. by destruct (meshes (scene w) !! i). }
  unfold forM. cbn [foldM]. unfold bind at 1 2 3 4.
  destruct (getMeshByID (scene w) (Some (JStr bm))) as [j|] eqn:Hr.
  - rewrite (bindMesh_resolved _ _ _ Hr).
    set (w1 := set_scene _ w).
    assert (Hsame : forall v, getMeshByID (scene w1) v = getMeshByID (scene w) v).
    { intros v. apply getMeshByID_alter. done. }
    destruct (IH w1) as (H1 & H2 & H3 & H4). unfold forM in *.
    split; [exact H1|]. split; [|split].
    + rewrite H2. cbn [List.filter].
      replace (unresolved w bm) with false by (unfold unresolved; by rewrite Hr).
      f_equal. f_equal. apply List.filter_ext. intros a. unfold unresolved.
      by rewrite Hsame.
    + rewrite H3. cbn. by apply map_id_alter.
    + intros i. rewrite H4. cbn [existsb].
      replace (boundTo w i bm) with (Nat.eqb i j)
        by (unfold boundTo; by rewrite Hr).
      assert (Hex : existsb (boundTo w1 i) bms = existsb (boundTo w i) bms).
      { apply existsb_pointwise. intros a. unfold boundTo. by rewrite Hsame. }
      rewrite Hex. cbn. destruct (decide (i = j)) as [->|Hne].
      * rewrite list_lookup_alter_eq, Nat.eqb_refl. cbn.
        destruct (meshes (scene w) !! j) as [n|]; [|done].
        destruct (existsb (boundTo w j) bms); reflexivity.
      * rewrite list_lookup_alter_ne by done.
        apply Nat.eqb_neq in Hne. by rewrite Hne.
  - rewrite (bindMesh_unresolved _ _ Hr).
    set (w1 := emit _ w).
    destruct (IH w1) as (H1 & H2 & H3 & H4). unfold forM in *.
    split; [exact H1|]. split; [|split].
    + rewrite H2. change (unresolved w1) with (unresolved w).
      cbn [List.filter].
      replace (unresolved w bm) with true by (unfold unresolved; by rewrite Hr).
      cbn. by rewrite <- app_assoc.
    + by rewrite H3.
    + intros i. rewrite H4. change (boundTo w1 i) with (boundTo w i).
      cbn [existsb].
      replace (boundTo w i bm) with false by (unfold boundTo; by rewrite Hr).
      done.
Qed.

End Binding.

(** ** What a computation adds to a part of the trace *)

Section Adding.

Context {X : Type} (part : list Event -> list X).

Lemma adding_nil {A} (m : M A) :
  preserves (on (fun w => part (trace w)) eq) m -> adding part [] m.
Proof. intros H w. rewrite app_nil_r. symmetry. apply H. Qed.

Lemma adding_bind_nil {A B} l (m : M A) (k : A -> M B) :
  adding part l m -> (forall a, adding part [] (k a)) -> adding part l (bind m k).
Proof.
  intros Hm Hk w. unfold bind. specialize (Hm w).
  destruct (m w) as [w' [a|]]; cbn in *; [|done].
  by rewrite Hk, app_nil_r.
Qed.

Lemma adding_bind_total {A B} l1 l2 (m : M A) (k : A -> M B) :
  total m -> adding part l1 m -> (forall a, adding part l2 (k a)) ->
  adding part (l1 ++ l2) (bind m k).
Proof.
  intros Ht Hm Hk w. unfold bind. specialize (Hm w). destruct (Ht w) as [a Ha].
  destruct (m w) as [w' r]; cbn in *; subst r.
  by rewrite Hk, Hm, app_assoc.
Qed.

Lemma adding_try {A} l (m h : M A) :
  adding part l m -> adding part [] h -> adding part l (try_catch m h).
Proof.
  intros Hm Hh w. unfold try_catch. specialize (Hm w).
  destruct (m w) as [w' [a|]]; cbn in *; [done|].
  by rewrite Hh, app_nil_r.
Qed.

Lemma adding_foldM {S A} (f : A -> list X) (body : S -> A -> M S) (l : list A) :
  (forall s a, total (body s a)) ->
  (forall s a, adding part (f a) (body s a)) ->
  forall s, adding part (concat (map f l)) (foldM body s l).
Proof.
  intros Ht Hb. induction l as [|a l IH]; intros s; cbn.
  - intros w. cbn. by rewrite app_nil_r.
  - apply adding_bind_total; auto.
Qed.

End Adding.

Lemma concat_singletons {A B} (f : A -> B) (l : list A) :
  concat (map (fun a => [f a]) l) = map f l.
Proof. induction l as [|a l IH]; cbn; [done|]. by rewrite IH. Qed.

(** Side goals of the structural proofs. *)
Ltac side_preserves :=
  unfold on, mesh_ids, reads, progress, meshFailures, errors, warnings;
  cbn [trace scene emit set_scene set_TextureParser set_FilesStore
       push_MeshesAssets push_PrefabAssets set_Project set_editorCamera
       push_pipeline set_cachedData set_onReady _TextureParser
       meshes transformNodes lights cameras textures materials
       shadowGenerators settings set_meshes set_transformNodes set_lights
       set_cameras set_textures set_materials set_shadowGenerators
       set_settings alterNode];
  rewrite ?omap_app; cbn [omap]; rewrite ?List.filter_app; cbn;
  rewrite ?app_nil_r;
  try reflexivity;
  try (symmetry; apply map_id_alter; intros ?; reflexivity).

Ltac side_prefix :=
  unfold on, mesh_ids;
  cbn [scene emit set_scene meshes set_meshes set_textures set_materials
       alterNode];
  rewrite ?map_app;
  try reflexivity;
  try (by apply prefix_app_r);
  try (rewrite map_id_alter by (intros ?; reflexivity); reflexivity).

(** * The import as a whole *)

Section Pipeline.

Variable E : Engine.










Lemma registerFiles_total dir l : total (forM (registerFile E dir) l).
Proof. apply total_foldM. intros _ f. apply total_modify. Qed.

Lemma configureAssets_total dir project : total (configureAssets E dir project).
Proof.
  unfold configureAssets. step_total.
  - apply total_foldM. intros _ f. apply total_modify.
  - destruct (p_assets_prefabs project); [|apply total_ret].
    apply total_foldM. intros _ f. apply total_modify.
Qed.

Lemma _ImportProject_unfold path w :
  _ImportProject E path w =
  match readProject E path with
  | Some project =>
      afterManifest E path project (emit (ReadJSON path) (beforeManifest E path w))
  | None => (emit (ReadJSON path) (beforeManifest E path w), Throw)
  end.
Proof.
  unfold _ImportProject, readManifest, bind at 1 2 3 4 5 6. simpl.
  destruct (readProject E path); reflexivity.
Qed.



Lemma afterManifest_keeps_parser path project :
  preserves (on _TextureParser eq) (afterManifest E path project).
Proof.
  unfold afterManifest. go_preserves; unfold on; simpl; try reflexivity.
Qed.

Lemma set_textures_nil w :
  set_scene (set_textures (fun l => l ++ [])) w = w.
Proof.
  destruct w as [[]]. unfold set_scene, set_textures. cbn.
  by rewrite app_nil_r.
Qed.

(** C9: a serialized texture whose [metadata.editorName] is set and equal
    to that of a texture of the scene is resolved by the importer's texture
    parser to a texture of the scene with that editor name (the first one),
    without adding a texture and without asking the parser it wraps.  That
    parser is the global texture parser from the start of [_ImportProject]
    to its end, so the engine's material parser, which asks the global
    parser for each texture of a material payload, gets the existing
    texture too.  The unique id of the texture plays no part. *)
Theorem editorName_resolves_to_existing_texture
    (path rootUrl : string) (w : World) (textureParser : TexParser)
    (source : Json) (sc : Scene) (md en : JsValue) :
  jget (Some source) "metadata" = Ok md -> truthy md = true ->
  jget md "editorName" = Ok en -> truthy en = true ->
  (exists t0, In t0 (textures sc) /\ sameEditorName en t0 = true) ->
  _TextureParser (fst (_ImportProject E path w))
    = hookedTextureParser (_TextureParser w) /\
  exists t,
    In t (textures sc) /\ sameEditorName en t = true /\
    hookedTextureParser textureParser source sc rootUrl = ([], Ok t) /\
    forall w', scene w' = sc ->
      _TextureParser w' = hookedTextureParser textureParser ->
      callTextureParser rootUrl source w' = (w', Ok t).
Proof.
  intros Hmd Tmd Hen Ten (t0 & Hin & Hsame). split.
  - rewrite _ImportProject_unfold.
    destruct (readProject E path) as [p|]; [|done].
    pose proof (afterManifest_keeps_parser path p
                  (emit (ReadJSON path) (beforeManifest E path w))) as H.
    unfold on in H. by rewrite <- H.
  - assert (Hhook : exists t, In t (textures sc) /\ sameEditorName en t = true /\
              hookedTextureParser textureParser source sc rootUrl = ([], Ok t)).
    { unfold hookedTextureParser. rewrite Hmd, Tmd, Hen, Ten. simpl.
      destruct (List.find (sameEditorName en) (textures sc)) as [t|] eqn:Hf.
      - apply List.find_some in Hf as [? ?]. eauto.
      - eapply List.find_none in Hf; [|exact Hin]. congruence. }
    destruct Hhook as (t & Ht & Hs & Hh). exists t. repeat split; try done.
    intros w' Hsc Hp. unfold callTextureParser. rewrite Hp, Hsc, Hh.
    by rewrite set_textures_nil.
Qed.

Lemma bind_ok_inv {A B} (m : M A) (k : A -> M B) w w' b :
  bind m k w = (w', Ok b) ->
  exists a w1, m w = (w1, Ok a) /\ k a w1 = (w', Ok b).
Proof.
  unfold bind. destruct (m w) as [w1 [a|]]; [eauto | done].
Qed.

Lemma bind_run {A B} (m : M A) (k : A -> M B) w w1 a :
  m w = (w1, Ok a) -> bind m k w = k a w1.
Proof. intros H. unfold bind. by rewrite H. Qed.

Lemma try_catch_ok {A} (m h : M A) w w1 a :
  m w = (w1, Ok a) -> try_catch m h w = (w1, Ok a).
Proof. intros H. unfold try_catch. by rewrite H. Qed.

Lemma try_catch_throw {A} (m h : M A) w w1 :
  m w = (w1, Throw) -> try_catch m h w = h w1.
Proof. intros H. unfold try_catch. by rewrite H. Qed.

Lemma loadEntities_ok_inv dir rootUrl step project w w' :
  loadEntities E dir rootUrl step project w = (w', Ok tt) ->
  exists w1, finishImport E w1 = (w', Ok tt).
Proof.
  unfold loadEntities. intros H.
  do 9 (apply bind_ok_inv in H as (? & ? & _ & H)). eauto.
Qed.

Lemma _ImportProject_ok_inv path w w' :
  _ImportProject E path w = (w', Ok tt) ->
  exists w1, finishImport E w1 = (w', Ok tt).
Proof.
  rewrite _ImportProject_unfold. destruct (readProject E path) as [p|]; [|done].
  unfold afterManifest. intros H.
  do 5 (apply bind_ok_inv in H as (? & ? & _ & H)).
  by eapply loadEntities_ok_inv.
Qed.

Lemma finishImport_returns w :
  snd (finishImport E w) = Ok tt ->
  finishImport E w = (fst (signalReady E (set_scene linkParents w)), Ok tt).
Proof.
  intros H. destruct (finishImport E w) as [w' r] eqn:Hf. cbn in H. subst r.
  by destruct (finishImport_ok_inv E w w' Hf) as [_ ->].
Qed.

Lemma finishImport_scene w :
  snd (finishImport E w) = Ok tt ->
  scene (fst (finishImport E w)) = linkParents (scene w).
Proof.
  intros H. rewrite (finishImport_returns w H).
  unfold signalReady, _RefreshEditor, bind, modify, gets. simpl.
  by destruct (isReady E _).
Qed.

Lemma finishImport_ready w :
  snd (finishImport E w) = Ok tt ->
  let w' := fst (finishImport E w) in
  if isReady E (linkParents (scene w))
  then trace w' = trace w ++ [AssetsRefresh; GraphRefresh; OverlayHide]
       /\ onReady w' = onReady w
  else trace w' = trace w /\ onReady w' = S (onReady w).
Proof.
  intros H. rewrite (finishImport_returns w H).
  unfold signalReady, _RefreshEditor, Overlay_Hide, bind, modify,
    gets. cbn.
  destruct (isReady E (linkParents (scene w))); cbn.
  - split; [|done]. by rewrite <- !app_assoc.
  - done.
Qed.

(** C10: [ImportProject] never throws.  When [_ImportProject] throws, the
    refresh path runs from the world the failure left: assets refresh, graph
    refresh, overlay hidden.  When [_ImportProject] returns, [ImportProject]
    leaves the world as it is: the import ended with the parent pass and the
    readiness signal, which ran the same refresh path if the scene was
    ready and left it registered on the scene's ready observable if not. *)
Theorem ImportProject_never_rejects (path : string) (w : World) :
  snd (ImportProject E path w) = Ok tt /\
  match _ImportProject E path w with
  | (w1, Throw) =>
      fst (ImportProject E path w) =
        emit OverlayHide (emit GraphRefresh (emit AssetsRefresh w1))
  | (w', Ok _) =>
      fst (ImportProject E path w) = w' /\
      exists w1, w' = fst (finishImport E w1) /\
        if isReady E (linkParents (scene w1))
        then trace w' = trace w1 ++ [AssetsRefresh; GraphRefresh; OverlayHide]
             /\ onReady w' = onReady w1
        else trace w' = trace w1 /\ onReady w' = S (onReady w1)
  end.
Proof.
  unfold ImportProject, try_catch.
  destruct (_ImportProject E path w) as [w' [[]|]] eqn:Hi; cbn; [|done].
  repeat split.
  destruct (_ImportProject_ok_inv path w w' Hi) as [w1 Hw1].
  exists w1. assert (Hw : w' = fst (finishImport E w1)) by by rewrite Hw1.
  split; [exact Hw|]. rewrite Hw. apply finishImport_ready. by rewrite Hw1.
Qed.


Lemma linkParents_linked s k i n :
  nodesOf k s !! i = Some n ->
  truthy (_waitingParentId n) = true ->
  nodesOf k (linkParents s) !! i =
    Some (set_waiting None (set_parent (lookupParent s (_waitingParentId n)) n)).
Proof.
  intros Hn Ht. rewrite linkParents_spec, list_lookup_fmap, Hn. cbn.
  by rewrite linkNode_spec, Ht.
Qed.

Lemma linkParents_kept s k i n :
  nodesOf k s !! i = Some n ->
  truthy (_waitingParentId n) = false ->
  nodesOf k (linkParents s) !! i = Some n.
Proof.
  intros Hn Ht. rewrite linkParents_spec, list_lookup_fmap, Hn. cbn.
  by rewrite linkNode_spec, Ht.
Qed.

Lemma linkParents_no_waiting s k n' :
  In n' (nodesOf k (linkParents s)) -> truthy (_waitingParentId n') = false.
Proof.
  rewrite linkParents_spec. intros Hin.
  apply List.in_map_iff in Hin as (n & <- & _).
  rewrite linkNode_spec.
  destruct (truthy (_waitingParentId n)) eqn:Ht; [done | exact Ht].
Qed.

Lemma lookupParent_dangling s v :
  (forall k p, In p (nodesOf k s) -> v <> Some (JStr (n_id p))) ->
  lookupParent s v = None.
Proof.
  intros Habs.
  destruct (lookupParent s v) as [r|] eqn:Hr; [|done].
  destruct (lookupParent_Some _ _ _ Hr) as (p & Hp & Hv).
  exfalso. destruct r as [j|j|j|j]; cbn in Hp.
  - apply (Habs KMesh p); [|done]. apply list_elem_of_In. by eapply list_elem_of_lookup_2.
  - apply (Habs KLight p); [|done]. apply list_elem_of_In. by eapply list_elem_of_lookup_2.
  - apply (Habs KCamera p); [|done]. apply list_elem_of_In. by eapply list_elem_of_lookup_2.
  - apply (Habs KTransform p); [|done]. apply list_elem_of_In. by eapply list_elem_of_lookup_2.
Qed.

Section Order.

Variables (dir rootUrl : string) (step : Q).

Lemma readJSON_reads path : adding reads [path] (readJSON E path).
Proof.
  intros w. unfold readJSON, bind, modify. cbn.
  destruct (files E path); cbn; unfold reads; by rewrite omap_app.
Qed.

Lemma ImportMesh_reads name json r f :
  preserves (on (fun w => reads (trace w)) eq) (ImportMesh E name json r f).
Proof. go_preserves; side_preserves. Qed.

Lemma loadMesh_reads sv m :
  adding reads [join E [dir; "meshes"; m]] (loadMesh E dir step sv m).
Proof.
  unfold loadMesh. apply adding_bind_nil.
  - apply adding_try.
    + unfold importMeshFile. apply adding_bind_nil; [apply readJSON_reads|].
      intros json. apply adding_nil. step_preserves; [apply ImportMesh_reads|].
      go_preserves.
    + apply adding_nil. go_preserves; side_preserves.
  - intros _. apply adding_nil. go_preserves; side_preserves.
Qed.

Lemma loadTransformNode_reads t :
  adding reads [join E [dir; "transform"; t]] (loadTransformNode E dir rootUrl t).
Proof.
  unfold loadTransformNode. apply adding_try.
  - apply adding_bind_nil; [apply readJSON_reads|].
    intros json. apply adding_nil. go_preserves; side_preserves.
  - apply adding_nil. go_preserves; side_preserves.
Qed.

Lemma loadMaterial_reads sv m :
  adding reads [join E [dir; "materials"; mr_json m]]
    (loadMaterial E dir rootUrl step sv m).
Proof.
  unfold loadMaterial. apply adding_bind_nil.
  - apply adding_try.
    + apply adding_bind_nil; [apply readJSON_reads|].
      intros json. apply adding_nil. go_preserves; side_preserves.
    + apply adding_nil. go_preserves; side_preserves.
  - intros _. apply adding_nil. go_preserves; side_preserves.
Qed.

Lemma loadImpostors_reads : adding reads [] (loadImpostors E).
Proof. apply adding_nil. go_preserves; side_preserves. Qed.

Lemma setMessage_reads msg : adding reads [] (Overlay_SetMessage msg).
Proof. apply adding_nil. go_preserves; side_preserves. Qed.

Lemma loadMeshes_reads project :
  adding reads (map (fun m => join E [dir; "meshes"; m]) (p_meshes project))
    (loadMeshes E dir step project).
Proof.
  unfold loadMeshes.
  rewrite <- concat_singletons.
  apply (adding_bind_total reads [] _ _ _ (total_modify _) (setMessage_reads _)).
  intros _. apply adding_foldM; [apply loadMesh_total | apply loadMesh_reads].
Qed.

Lemma loadTransformNodes_reads project :
  adding reads (map (fun t => join E [dir; "transform"; t])
                    (default [] (p_transformNodes project)))
    (loadTransformNodes E dir rootUrl project).
Proof.
  unfold loadTransformNodes.
  rewrite <- concat_singletons.
  apply (adding_bind_total reads [] _ _ _ (total_modify _) (setMessage_reads _)).
  intros _. apply adding_foldM.
  - intros _. apply loadTransformNode_total.
  - intros _. apply loadTransformNode_reads.
Qed.

Lemma loadMaterials_reads sv ms :
  adding reads (map (fun m => join E [dir; "materials"; mr_json m]) ms)
    (loadMaterials E dir rootUrl step sv ms).
Proof.
  unfold loadMaterials.
  rewrite <- concat_singletons.
  apply (adding_bind_total reads [] _ _ _ (total_modify _) (setMessage_reads _)).
  intros _. apply adding_foldM; [apply loadMaterial_total | apply loadMaterial_reads].
Qed.

Lemma afterMeshes_mesh_ids project v ms :
  preserves (on mesh_ids eq)
    (bind (loadTransformNodes E dir rootUrl project) (fun _ =>
     bind (loadImpostors E) (fun _ => loadMaterials E dir rootUrl step v ms))).
Proof. go_preserves; side_preserves. Qed.

Lemma bind_assoc {A B C} (m : M A) (f : A -> M B) (g : B -> M C) w :
  bind (bind m f) g w = bind m (fun a => bind (f a) g) w.
Proof. unfold bind. by destruct (m w) as [w' [a|]]. Qed.

Lemma bind_ext {A B} (m : M A) (k k' : A -> M B) w :
  (forall a w', k a w' = k' a w') -> bind m k w = bind m k' w.
Proof. intros H. unfold bind. destruct (m w) as [w' [a|]]; [apply H | done]. Qed.

Lemma bind_cong_l {A B} (m m' : M A) (k : A -> M B) w :
  m w = m' w -> bind m k w = bind m' k w.
Proof. intros H. unfold bind. by rewrite H. Qed.

Lemma loadEntities_split project n w :
  loadEntities E dir rootUrl step project w =
  bind (uptoMaterial E dir rootUrl step project n)
       (fromMaterial E dir rootUrl step project n) w.
Proof.
  unfold loadEntities, uptoMaterial, fromMaterial.
  rewrite bind_assoc. apply bind_ext. intros v1 w1.
  rewrite bind_assoc. apply bind_ext. intros _ w2.
  rewrite bind_assoc. apply bind_ext. intros _ w3.
  unfold loadMaterials. rewrite !bind_assoc. apply bind_ext. intros _ w4.
  set (body := loadMaterial E dir rootUrl step).
  match goal with
  | |- bind _ ?rest _ = _ =>
      transitivity
        (bind (bind (foldM body v1 (take n (p_materials project)))
                    (fun v => foldM body v (drop n (p_materials project))))
              rest w4)
  end.
  - apply bind_cong_l. by rewrite <- foldM_app, take_drop.
  - by rewrite bind_assoc.
Qed.

(** C8: the mesh loop never throws and attempts every mesh of the manifest,
    in order, before anything else is read; the files read next are those
    of the transform nodes, and only then those of the materials.  With [wm]
    the world the mesh loop leaves and [wn] the world in which [n] materials
    have been handled (so the world in which the next one is parsed and
    bound, and for [n] the number of materials the world all of them leave),
    the meshes of [wn] are those of [wm], at the same positions: no material
    sees a mesh list other than the one the mesh loop left. *)
Theorem meshes_attempted_before_materials (project : IProject) (n : nat) (w : World) :
  let wm := fst (loadMeshes E dir step project w) in
  let wn := fst (uptoMaterial E dir rootUrl step project n w) in
  (exists v, snd (loadMeshes E dir step project w) = Ok v) /\
  reads (trace wm) =
    reads (trace w)
    ++ map (fun m => join E [dir; "meshes"; m]) (p_meshes project) /\
  reads (trace wn) =
    reads (trace wm)
    ++ map (fun t => join E [dir; "transform"; t])
           (default [] (p_transformNodes project))
    ++ map (fun m => join E [dir; "materials"; mr_json m])
           (take n (p_materials project)) /\
  mesh_ids wn = mesh_ids wm /\
  (forall w0,
     loadEntities E dir rootUrl step project w0 =
     bind (uptoMaterial E dir rootUrl step project n)
          (fromMaterial E dir rootUrl step project n) w0).
Proof.
  intros wm wn.
  destruct (loadMeshes_total E dir step project w) as [v1 Hv1].
  assert (Hm : loadMeshes E dir step project w = (wm, Ok v1)).
  { subst wm. by destruct (loadMeshes E dir step project w) as [? ?]; cbn in *; subst. }
  assert (Hn : wn =
    fst (bind (loadTransformNodes E dir rootUrl project) (fun _ =>
         bind (loadImpostors E) (fun _ =>
         loadMaterials E dir rootUrl step v1 (take n (p_materials project)))) wm)).
  { subst wn. unfold uptoMaterial. unfold bind at 1. by rewrite Hm. }
  repeat split.
  - eauto.
  - apply loadMeshes_reads.
  - rewrite Hn.
    apply (adding_bind_total reads _ _ _ _ (loadTransformNodes_total E dir rootUrl project)
             (loadTransformNodes_reads project)).
    intros _.
    apply (adding_bind_total reads [] _ _ _ (loadImpostors_total E) loadImpostors_reads).
    intros _. apply loadMaterials_reads.
  - rewrite Hn. symmetry. apply afterMeshes_mesh_ids.
  - intros w0. apply loadEntities_split.
Qed.

End Order.

Section Materials.

Variables (dir rootUrl : string) (step : Q).

Lemma loadMaterial_parsed sv m w json w1 material :
  files E (join E [dir; "materials"; mr_json m]) = Some json ->
  parseMaterial E rootUrl m json (emit (ReadJSON (join E [dir; "materials"; mr_json m])) w)
    = (w1, Ok material) ->
  loadMaterial E dir rootUrl step sv m w =
    (emit (OverlaySetSpinnervalue (sv + step))
       (fst (forM (bindMesh m material) (bindedMeshes m)
               (emit (LogInfo ("Parsed material " ++ quoted (mr_json m))) w1))),
     Ok (sv + step)%Q).
Proof.
  intros Hf Hp. unfold parseMaterial in Hp.
  set (p := join E [dir; "materials"; mr_json m]) in *.
  set (w2 := emit (LogInfo ("Parsed material " ++ quoted (mr_json m))) w1).
  assert (Hr : readJSON E p w = (emit (ReadJSON p) w, Ok json)).
  { unfold readJSON, bind, modify. cbn. by rewrite Hf. }
  destruct (bindMeshes_spec m material (bindedMeshes m) w2) as (Hok & _).
  assert (Hb : forM (bindMesh m material) (bindedMeshes m) w2
               = (fst (forM (bindMesh m material) (bindedMeshes m) w2), Ok tt)).
  { destruct (forM _ _ w2) as [w3 r]. cbn in *. by subst r. }
  unfold loadMaterial. fold p.
  erewrite bind_run; [reflexivity|].
  apply try_catch_ok.
  erewrite bind_run; [|exact Hr].
  erewrite bind_run; [|exact Hp].
  erewrite bind_run; [|reflexivity].
  exact Hb.
Qed.

(** C7: once the material of a record is parsed, its bound mesh ids are
    resolved one after the other by [getMeshByID] in the current scene.  A
    binding that resolves assigns the material to the mesh found and logs
    nothing; one that does not resolve logs the warning that names the
    material and the mesh id, and changes nothing else.  Neither throws, so
    every binding of the record is handled: the warnings are those of the
    unresolved ids, in order, and a mesh carries the material exactly when
    one of the ids resolves to it.  When the turn of the record ends, the
    mesh a bound id resolves to has that id and the material of the record
    as its material, and a mesh no bound id resolves to is as it was, with
    the material it had.  The record then advances the progress and the
    loop over the materials goes on; it never throws. *)
Theorem unresolved_binding_is_a_warning
    (sv : Q) (m : MaterialRecord) (w : World) (json : Json) (w1 : World)
    (material : nat) :
  files E (join E [dir; "materials"; mr_json m]) = Some json ->
  parseMaterial E rootUrl m json (emit (ReadJSON (join E [dir; "materials"; mr_json m])) w)
    = (w1, Ok material) ->
  let w2 := emit (LogInfo ("Parsed material " ++ quoted (mr_json m))) w1 in
  let w3 := fst (forM (bindMesh m material) (bindedMeshes m) w2) in
  (forall bm w0 i,
     getMeshByID (scene w0) (Some (JStr bm)) = Some i ->
     bindMesh m material bm w0 =
       (set_scene (set_meshes (alter (set_material (Some material)) i)) w0,
        Ok tt)) /\
  (forall bm w0,
     getMeshByID (scene w0) (Some (JStr bm)) = None ->
     bindMesh m material bm w0 =
       (emit (LogWarning (bindingWarning m bm)) w0, Ok tt)) /\
  loadMaterial E dir rootUrl step sv m w =
    (emit (OverlaySetSpinnervalue (sv + step)) w3, Ok (sv + step)%Q) /\
  trace w3 =
    trace w2 ++ map (fun bm => LogWarning (bindingWarning m bm))
                    (List.filter (unresolved w2) (bindedMeshes m)) /\
  (forall i,
     meshes (scene w3) !! i =
     (fun n => if existsb (boundTo w2 i) (bindedMeshes m)
               then set_material (Some material) n else n)
       <$> meshes (scene w2) !! i) /\
  (forall bm i,
     In bm (bindedMeshes m) ->
     getMeshByID (scene w2) (Some (JStr bm)) = Some i ->
     exists n n',
       meshes (scene w2) !! i = Some n /\
       meshes (scene (fst (loadMaterial E dir rootUrl step sv m w))) !! i
         = Some n' /\
       n_material n' = Some material /\ n_id n' = bm /\
       identity n' = identity n /\ n_parent n' = n_parent n /\
       _waitingParentId n' = _waitingParentId n) /\
  (forall i n,
     meshes (scene w2) !! i = Some n ->
     (forall bm, In bm (bindedMeshes m) ->
        getMeshByID (scene w2) (Some (JStr bm)) <> Some i) ->
     meshes (scene (fst (loadMaterial E dir rootUrl step sv m w))) !! i
       = Some n) /\
  (forall sv' ms, total (foldM (loadMaterial E dir rootUrl step) sv' ms)).
Proof.
  intros Hf Hp w2 w3.
  destruct (bindMeshes_spec m material (bindedMeshes m) w2) as (_ & Ht & _ & Hm).
  pose proof (loadMaterial_parsed sv m w json w1 material Hf Hp) as Hl.
  fold w2 w3 in Hl.
  split; [intros bm w0 i; apply bindMesh_resolved|].
  split; [intros bm w0; apply bindMesh_unresolved|].
  split; [exact Hl|]. split; [exact Ht|]. split; [exact Hm|].
  split; [|split].
  - intros bm i Hin Hg. rewrite Hl. cbn [fst scene emit]. fold w3.
    rewrite Hm.
    destruct (findById_Some _ _ _ Hg) as (n & Hn & Hv).
    injection Hv as Hv. rewrite Hn. cbn [fmap option_fmap option_map].
    assert (Hb : existsb (boundTo w2 i) (bindedMeshes m) = true).
    { apply existsb_exists. exists bm. split; [done|]. unfold boundTo.
      rewrite Hg. apply Nat.eqb_refl. }
    rewrite Hb. exists n, (set_material (Some material) n).
    by repeat split.
  - intros i n Hn Hno. rewrite Hl. cbn [fst scene emit]. fold w3.
    rewrite Hm, Hn. cbn [fmap option_fmap option_map].
    assert (Hb : existsb (boundTo w2 i) (bindedMeshes m) = false).
    { destruct (existsb _ _) eqn:He; [|done]. exfalso.
      apply existsb_exists in He as (bm & Hin & Hb). unfold boundTo in Hb.
      destruct (getMeshByID (scene w2) (Some (JStr bm))) as [j|] eqn:Hg;
        [|done].
      apply Nat.eqb_eq in Hb. subst j. by apply (Hno bm). }
    by rewrite Hb.
  - intros sv' ms. apply total_foldM, loadMaterial_total.
Qed.

End Materials.

Section Meshes.

Variables (dir : string) (step : Q).

Lemma importMeshFile_failures m :
  preserves (on (fun w => meshFailures (trace w)) eq) (importMeshFile E dir m).
Proof. go_preserves; side_preserves. Qed.

Lemma importMeshFile_progress m :
  preserves (on (fun w => progress (trace w)) eq) (importMeshFile E dir m).
Proof. go_preserves; side_preserves. Qed.

Lemma loadMesh_value sv m w : snd (loadMesh E dir step sv m w) = Ok (sv + step)%Q.
Proof.
  unfold loadMesh, bind, try_catch.
  by destruct (importMeshFile E dir m w) as [w' [[]|]].
Qed.

Lemma loadMesh_progress sv m :
  adding progress [(sv + step)%Q] (loadMesh E dir step sv m).
Proof.
  unfold loadMesh.
  apply (adding_bind_total progress [] [(sv + step)%Q]).
  - apply total_try. unfold logError. apply total_modify.
  - apply adding_try.
    + apply adding_nil, importMeshFile_progress.
    + apply adding_nil. go_preserves; side_preserves.
  - intros _ w. cbn. unfold progress. by rewrite omap_app.
Qed.

Lemma loadMesh_failures sv m w :
  meshFailures (trace (fst (loadMesh E dir step sv m w))) =
  meshFailures (trace w)
  ++ (if meshAttemptOk E dir m w then [] else [failMessage m]).
Proof.
  pose proof (importMeshFile_failures m w) as H. unfold on in H.
  unfold loadMesh, meshAttemptOk, bind, try_catch.
  destruct (importMeshFile E dir m w) as [w' [[]|]]; cbn in *.
  - rewrite app_nil_r. unfold meshFailures, errors in *.
    rewrite omap_app. cbn. by rewrite app_nil_r.
  - unfold meshFailures, errors in *.
    rewrite !omap_app, !List.filter_app. cbn. by rewrite app_nil_r, H.
Qed.

Lemma loadMesh_mesh_ids sv m :
  preserves (on mesh_ids prefix) (loadMesh E dir step sv m).
Proof. go_preserves; side_prefix. Qed.

Lemma connectParents_mesh_ids l :
  preserves (on mesh_ids eq) (forM (connectParent E) l).
Proof. go_preserves; side_preserves. Qed.

Lemma loader_fails src w :
  ImportMeshAsync E src (scene w) = None ->
  SceneLoader_ImportMeshAsync E src w = (w, Throw).
Proof.
  intros Hi. unfold SceneLoader_ImportMeshAsync, bind, gets. cbn.
  by rewrite Hi.
Qed.

(** The loader with a file it can load: the meshes enter the scene, then
    the parents are connected. *)
Lemma loader_loads src w nis :
  ImportMeshAsync E src (scene w) = Some nis ->
  SceneLoader_ImportMeshAsync E src w =
  bind (forM (connectParent E)
          (seq 0 (length (meshes (scene w)) + length nis)))
       (fun _ => ret (seq (length (meshes (scene w))) (length nis)))
       (set_scene (set_meshes (fun l => l ++ map newNode nis)) w).
Proof.
  intros Hi. unfold SceneLoader_ImportMeshAsync.
  unfold bind at 1 2 3. unfold gets. cbn. by rewrite Hi.
Qed.

Lemma loader_mesh_ids src w nis :
  ImportMeshAsync E src (scene w) = Some nis ->
  mesh_ids (fst (SceneLoader_ImportMeshAsync E src w))
  = mesh_ids w ++ map ni_id nis.
Proof.
  intros Hi. rewrite (loader_loads _ _ _ Hi).
  set (w1 := set_scene _ w).
  pose proof (connectParents_mesh_ids
                (seq 0 (length (meshes (scene w)) + length nis)) w1) as Hc.
  unfold on in Hc. unfold bind.
  destruct (forM _ _ w1) as [w2 [[]|]]; cbn [fst ret] in *; rewrite <- Hc;
    unfold w1, mesh_ids; cbn; by rewrite map_app, map_map.
Qed.

Lemma ImportMesh_run name json r f w :
  match ImportMeshAsync E (FromFile r f) (scene w) with
  | None => snd (ImportMesh E name json r f w) = Throw
  | Some nis =>
      (mesh_ids w ++ map ni_id nis) `prefix_of`
        mesh_ids (fst (ImportMesh E name json r f w))
  end.
Proof.
  unfold ImportMesh.
  destruct (ImportMeshAsync E (FromFile r f) (scene w)) as [nis|] eqn:Hi.
  - pose proof (loader_mesh_ids _ _ _ Hi) as Hm.
    unfold bind at 1.
    destruct (SceneLoader_ImportMeshAsync E (FromFile r f) w)
      as [w1 [res|]] eqn:Hs; cbn [fst] in Hm.
    + match goal with
      | |- _ `prefix_of` mesh_ids (fst (?k ?w0)) =>
          assert (Hk : preserves (on mesh_ids prefix) k)
            by (go_preserves; side_prefix);
          specialize (Hk w0); unfold on in Hk
      end.
      by rewrite Hm in Hk.
    + cbn. by rewrite Hm.
  - unfold bind at 1. by rewrite (loader_fails _ _ Hi).
Qed.

Lemma loadMesh_loaded sv m w :
  meshAttemptOk E dir m w = true ->
  exists nis,
    ImportMeshAsync E (FromFile dir (join E ["meshes"; m])) (scene w) = Some nis /\
    (mesh_ids w ++ map ni_id nis) `prefix_of`
      mesh_ids (fst (loadMesh E dir step sv m w)).
Proof.
  unfold meshAttemptOk. intros Hok.
  assert (Hids : mesh_ids (fst (loadMesh E dir step sv m w))
                 = mesh_ids (fst (importMeshFile E dir m w))).
  { unfold loadMesh, bind, try_catch.
    by destruct (importMeshFile E dir m w) as [w' [[]|]]. }
  rewrite Hids. clear Hids.
  unfold importMeshFile in *.
  set (p := join E [dir; "meshes"; m]) in *.
  set (w0 := emit (ReadJSON p) w).
  destruct (files E p) as [json|] eqn:Hf.
  - assert (Hr : readJSON E p w = (w0, Ok json)).
    { unfold readJSON, bind, modify. cbn. by rewrite Hf. }
    rewrite (bind_run _ _ _ _ _ Hr) in *.
    pose proof (ImportMesh_run m json dir (join E ["meshes"; m]) w0) as Hrun.
    change (scene w0) with (scene w) in Hrun.
    destruct (ImportMeshAsync E _ (scene w)) as [nis|].
    + exists nis. split; [done|]. unfold bind.
      destruct (ImportMesh E m json dir _ w0) as [w' [a|]]; exact Hrun.
    + unfold bind in Hok.
      destruct (ImportMesh E m json dir _ w0) as [w' [a|]]; cbn in *; done.
  - assert (Hr : readJSON E p w = (w0, Throw)).
    { unfold readJSON, bind, modify. cbn. by rewrite Hf. }
    unfold bind in Hok. rewrite Hr in Hok. done.
Qed.

Lemma foldM_total_app {S A} (body : S -> A -> M S) l1 l2 s w :
  (forall s a, total (body s a)) ->
  exists s', foldM body s l1 w = (fst (foldM body s l1 w), Ok s') /\
    foldM body s (l1 ++ l2) w = foldM body s' l2 (fst (foldM body s l1 w)).
Proof.
  intros Ht. destruct (total_foldM body l1 Ht s w) as [s' Hs'].
  exists s'. rewrite foldM_app. unfold bind.
  destruct (foldM body s l1 w) as [w1 r]; cbn in *. by subst r.
Qed.

Lemma loadMeshes_value l sv w :
  snd (foldM (loadMesh E dir step) sv l w) = Ok (advance step (length l) sv).
Proof.
  revert sv w. induction l as [|m l IH]; intros sv w; cbn; [done|].
  unfold bind. pose proof (loadMesh_value sv m w) as Hv.
  destruct (loadMesh E dir step sv m w) as [w' r]; cbn in *. subst r. apply IH.
Qed.

Lemma loadMeshes_progress l sv w :
  progress (trace (fst (foldM (loadMesh E dir step) sv l w))) =
  progress (trace w) ++ ticks step (length l) sv.
Proof.
  revert sv w. induction l as [|m l IH]; intros sv w; cbn.
  { by rewrite app_nil_r. }
  unfold bind. pose proof (loadMesh_value sv m w) as Hv.
  pose proof (loadMesh_progress sv m w) as Hp.
  destruct (loadMesh E dir step sv m w) as [w' r]; cbn in *. subst r.
  by rewrite IH, Hp, <- app_assoc.
Qed.

Lemma loadMeshes_failures l sv w :
  meshFailures (trace (fst (foldM (loadMesh E dir step) sv l w))) =
  meshFailures (trace w) ++ map failMessage (failedMeshes E dir step sv l w).
Proof.
  revert sv w. induction l as [|m l IH]; intros sv w; cbn [foldM failedMeshes].
  { cbn. by rewrite app_nil_r. }
  unfold bind. pose proof (loadMesh_value sv m w) as Hv.
  pose proof (loadMesh_failures sv m w) as Hf.
  destruct (loadMesh E dir step sv m w) as [w' r]; cbn [fst snd] in *. subst r.
  rewrite IH, Hf, map_app, <- app_assoc. f_equal. f_equal.
  by destruct (meshAttemptOk E dir m w).
Qed.

Lemma loadMeshes_run l sv w :
  foldM (loadMesh E dir step) sv l w =
  (fst (foldM (loadMesh E dir step) sv l w), Ok (advance step (length l) sv)).
Proof.
  pose proof (loadMeshes_value l sv w) as H.
  destruct (foldM _ sv l w) as [w' r]; cbn in *. by subst r.
Qed.

Lemma loadMeshes_app l1 l2 sv w :
  foldM (loadMesh E dir step) sv (l1 ++ l2) w =
  foldM (loadMesh E dir step) (advance step (length l1) sv) l2
    (fst (foldM (loadMesh E dir step) sv l1 w)).
Proof. rewrite foldM_app. by rewrite (bind_run _ _ _ _ _ (loadMeshes_run l1 sv w)). Qed.

Lemma loadMeshes_cons m l sv w :
  foldM (loadMesh E dir step) sv (m :: l) w =
  foldM (loadMesh E dir step) (sv + step)%Q l (fst (loadMesh E dir step sv m w)).
Proof.
  cbn [foldM]. unfold bind. pose proof (loadMesh_value sv m w) as Hv.
  destruct (loadMesh E dir step sv m w) as [w' r]; cbn in *. by subst r.
Qed.

Lemma failedMeshes_app a b sv w :
  failedMeshes E dir step sv (a ++ b) w =
  failedMeshes E dir step sv a w
  ++ failedMeshes E dir step (advance step (length a) sv) b
       (fst (foldM (loadMesh E dir step) sv a w)).
Proof.
  revert sv w. induction a as [|x a IH]; intros sv w.
  - done.
  - cbn [app failedMeshes length advance]. rewrite IH, loadMeshes_cons.
    by rewrite <- app_assoc.
Qed.

Lemma failedMeshes_nil_ok l sv w a x b :
  failedMeshes E dir step sv l w = [] ->
  l = a ++ x :: b ->
  meshAttemptOk E dir x (fst (foldM (loadMesh E dir step) sv a w)) = true.
Proof.
  intros Hf ->. rewrite failedMeshes_app in Hf. cbn [failedMeshes] in Hf.
  apply app_eq_nil in Hf as [_ Hf]. apply app_eq_nil in Hf as [Hf _].
  by destruct (meshAttemptOk E dir x _).
Qed.

Lemma loadMeshes_mesh_ids l sv :
  preserves (on mesh_ids prefix) (foldM (loadMesh E dir step) sv l).
Proof. apply preserves_foldM; [exact _|]. intros. apply loadMesh_mesh_ids. Qed.

Lemma loadMeshes_loaded l sv w a x b :
  l = a ++ x :: b ->
  meshAttemptOk E dir x (fst (foldM (loadMesh E dir step) sv a w)) = true ->
  exists nis,
    ImportMeshAsync E (FromFile dir (join E ["meshes"; x]))
      (scene (fst (foldM (loadMesh E dir step) sv a w))) = Some nis /\
    (mesh_ids (fst (foldM (loadMesh E dir step) sv a w)) ++ map ni_id nis)
      `prefix_of` mesh_ids (fst (foldM (loadMesh E dir step) sv l w)).
Proof.
  intros -> Hok. rewrite loadMeshes_app, loadMeshes_cons.
  set (wa := fst (foldM (loadMesh E dir step) sv a w)) in *.
  destruct (loadMesh_loaded (advance step (length a) sv) x wa Hok)
    as (nis & Hi & Hp).
  exists nis. split; [done|]. etransitivity; [exact Hp|].
  apply loadMeshes_mesh_ids.
Qed.

(** C6: the mesh loop over a list in which the attempt of one entry [m]
    fails (its file is missing, is not JSON, is rejected by the engine or
    lacks what [ImportMesh] reads) and the attempts of the others complete.
    The loop returns; every entry is attempted, in order; exactly one mesh
    error is logged, and it names [m]; the progress advances once per entry,
    the failed one included; and the meshes the engine loaded for each other
    entry are in the scene the loop leaves. *)
Theorem failed_mesh_is_isolated
    (sv : Q) (pre : list string) (m : string) (post : list string) (w : World) :
  let loop := foldM (loadMesh E dir step) in
  let l := pre ++ m :: post in
  let sv1 := advance step (length pre) sv in
  let w1 := fst (loop sv pre w) in
  let w2 := fst (loadMesh E dir step sv1 m w1) in
  let wf := fst (loop sv l w) in
  failedMeshes E dir step sv pre w = [] ->
  meshAttemptOk E dir m w1 = false ->
  failedMeshes E dir step (sv1 + step)%Q post w2 = [] ->
  snd (loop sv l w) = Ok (advance step (length l) sv) /\
  reads (trace wf) =
    reads (trace w) ++ map (fun x => join E [dir; "meshes"; x]) l /\
  meshFailures (trace wf) = meshFailures (trace w) ++ [failMessage m] /\
  progress (trace wf) = progress (trace w) ++ ticks step (length l) sv /\
  (forall a x b, l = a ++ x :: b -> length a <> length pre ->
     exists nis,
       ImportMeshAsync E (FromFile dir (join E ["meshes"; x]))
         (scene (fst (loop sv a w))) = Some nis /\
       (mesh_ids (fst (loop sv a w)) ++ map ni_id nis)
         `prefix_of` mesh_ids wf).
Proof.
  intros loop l sv1 w1 w2 wf. subst loop l sv1 w1 w2 wf.
  intros Hpre Hm Hpost. repeat split.
  - apply loadMeshes_value.
  - rewrite <- concat_singletons.
    apply adding_foldM; [apply loadMesh_total | apply loadMesh_reads].
  - rewrite loadMeshes_failures, failedMeshes_app.
    cbn [failedMeshes]. by rewrite Hpre, Hm, Hpost.
  - apply loadMeshes_progress.
  - intros a x b Hl Hlen. apply (loadMeshes_loaded _ sv w a x b Hl).
    apply List.app_eq_app in Hl as [c [[Ha Hc]|[Ha Hc]]].
    + destruct c as [|y c]; cbn in Hc.
      { rewrite app_nil_r in Ha. by subst. }
      injection Hc as -> ->. subst pre.
      eapply failedMeshes_nil_ok; [exact Hpre | reflexivity].
    + destruct c as [|y c]; cbn in Hc.
      { rewrite app_nil_r in Ha. by subst. }
      injection Hc as -> ->. subst a.
      rewrite loadMeshes_app, loadMeshes_cons.
      eapply failedMeshes_nil_ok; [exact Hpost | reflexivity].
Qed.

End Meshes.

Section Textures.

Variables (dir rootUrl : string) (step : Q).

Lemma loadTexture_textures sv t w :
  textures (scene (fst (loadTexture E dir rootUrl step sv t w))) =
  textures (scene w) ++
  match textureAdded E dir rootUrl t w with Some tex => [tex] | None => [] end.
Proof.
  unfold loadTexture, textureAdded, try_catch, readJSON, logError, logInfo,
    Overlay_SetSpinnervalue.
  unfold bind, modify, gets, lift, ofOption, ret, throw.
  cbn -[jget getTextureByUniqueID].
  destruct (files E _) as [json|]; cbn -[jget getTextureByUniqueID];
    [|symmetry; apply app_nil_r].
  destruct (jget (Some json) "uniqueId") as [v|];
    cbn -[jget getTextureByUniqueID]; [|symmetry; apply app_nil_r].
  destruct (getTextureByUniqueID (scene w) v);
    cbn -[jget getTextureByUniqueID]; [symmetry; apply app_nil_r|].
  destruct (Texture_Parse E json (scene w) rootUrl);
    cbn -[jget getTextureByUniqueID]; [done|].
  symmetry; apply app_nil_r.
Qed.

Lemma loadTexture_skips sv t w json v existing :
  files E (join E [dir; "textures"; t]) = Some json ->
  jget (Some json) "uniqueId" = Ok v ->
  getTextureByUniqueID (scene w) v = Some existing ->
  loadTexture E dir rootUrl step sv t w =
    (emit (ReadJSON (join E [dir; "textures"; t])) w, Ok sv).
Proof.
  intros Hf Hv He.
  unfold loadTexture, try_catch, readJSON.
  unfold bind, modify, gets, lift, ofOption, ret, throw.
  cbn -[jget getTextureByUniqueID]. rewrite Hf.
  cbn -[jget getTextureByUniqueID]. rewrite Hv.
  cbn -[jget getTextureByUniqueID]. by rewrite He.
Qed.

Lemma getTextureByUniqueID_None sc k :
  getTextureByUniqueID sc (Some (JNum k)) = None -> countKey k (textures sc) = 0.
Proof.
  unfold getTextureByUniqueID, countKey. cbn [strict_eq].
  induction (textures sc) as [|t ts IH]; cbn; [done|].
  destruct (Z.eqb (t_uniqueId t) k); [done | exact IH].
Qed.

Lemma getTextureByUniqueID_Some sc k :
  countKey k (textures sc) = 0 \/
  exists t, getTextureByUniqueID sc (Some (JNum k)) = Some t.
Proof.
  destruct (getTextureByUniqueID sc (Some (JNum k))) as [t|] eqn:H; [eauto|].
  left. by apply getTextureByUniqueID_None.
Qed.

Lemma countKey_app k l1 l2 : countKey k (l1 ++ l2) = countKey k l1 + countKey k l2.
Proof. unfold countKey. by rewrite List.filter_app, length_app. Qed.

Lemma getTextureByUniqueID_found sc k t :
  getTextureByUniqueID sc (Some (JNum k)) = Some t -> 1 <= countKey k (textures sc).
Proof.
  unfold getTextureByUniqueID, countKey. cbn [strict_eq].
  induction (textures sc) as [|t' ts IH]; cbn; [done|].
  destruct (Z.eqb (t_uniqueId t') k); cbn; [lia | exact IH].
Qed.

Lemma countKey_single k t :
  countKey k [t] = if Z.eqb (t_uniqueId t) k then 1 else 0.
Proof. unfold countKey. cbn. by destruct (Z.eqb _ _). Qed.

Lemma textureAdded_key t w tex :
  restoresUniqueId E ->
  textureAdded E dir rootUrl t w = Some tex ->
  countKey (t_uniqueId tex) (textures (scene w)) = 0.
Proof.
  intros HE. unfold textureAdded.
  destruct (files E _) as [json|]; [|done].
  destruct (jget (Some json) "uniqueId") as [v|] eqn:Hv; [|done].
  destruct (getTextureByUniqueID (scene w) v) as [|] eqn:He; [done|].
  intros Hp. apply HE in Hp. rewrite Hv in Hp. injection Hp as ->.
  by apply getTextureByUniqueID_None.
Qed.

Lemma loadTexture_count k sv t w :
  restoresUniqueId E ->
  let c := countKey k (textures (scene w)) in
  let c' := countKey k (textures (scene (fst (loadTexture E dir rootUrl step sv t w)))) in
  c <= c' /\ c' <= Nat.max 1 c.
Proof.
  intros HE c c'. subst c c'. rewrite loadTexture_textures, countKey_app.
  destruct (textureAdded E dir rootUrl t w) as [tex|] eqn:Ha.
  - rewrite countKey_single. destruct (Z.eqb_spec (t_uniqueId tex) k) as [<-|_].
    + rewrite (textureAdded_key t w tex HE Ha). lia.
    + lia.
  - cbn. lia.
Qed.

Lemma loadTextures_count k l sv w :
  restoresUniqueId E ->
  let c := countKey k (textures (scene w)) in
  let c' := countKey k (textures (scene (fst
              (foldM (loadTexture E dir rootUrl step) sv l w)))) in
  c <= c' /\ c' <= Nat.max 1 c.
Proof.
  intros HE. revert sv w. induction l as [|t l IH]; intros sv w; cbn zeta.
  { cbn. lia. }
  cbn [foldM]. unfold bind.
  destruct (loadTexture_total E dir rootUrl step sv t w) as [sv' Hsv].
  pose proof (loadTexture_count k sv t w HE) as Hc. cbn zeta in Hc.
  destruct (loadTexture E dir rootUrl step sv t w) as [w1 r]; cbn in Hsv, Hc.
  subst r. specialize (IH sv' w1). cbn zeta in IH. lia.
Qed.

Lemma loadTexture_present k sv t w json :
  restoresUniqueId E ->
  files E (join E [dir; "textures"; t]) = Some json ->
  jget (Some json) "uniqueId" = Ok (Some (JNum k)) ->
  (forall sc, Texture_Parse E json sc rootUrl <> None) ->
  1 <= countKey k (textures (scene (fst (loadTexture E dir rootUrl step sv t w)))).
Proof.
  intros HE Hf Hk Hp. rewrite loadTexture_textures, countKey_app.
  unfold textureAdded. rewrite Hf, Hk.
  destruct (getTextureByUniqueID (scene w) (Some (JNum k))) as [t0|] eqn:He.
  - apply getTextureByUniqueID_found in He. lia.
  - destruct (Texture_Parse E json (scene w) rootUrl) as [tex|] eqn:Ht.
    + pose proof (HE _ _ _ _ Ht) as Hu. rewrite Hk in Hu. injection Hu as ->.
      rewrite countKey_single, Z.eqb_refl. lia.
    + by apply Hp in Ht.
Qed.

Lemma afterTextures_textures project v3 :
  preserves (on (fun w => textures (scene w)) eq)
    (afterTextures E dir rootUrl step project v3).
Proof.
  unfold afterTextures. go_preserves; side_preserves.
Qed.

Lemma loadTextures_prefix l sv w :
  textures (scene w) `prefix_of`
    textures (scene (fst (foldM (loadTexture E dir rootUrl step) sv l w))).
Proof.
  revert sv w. induction l as [|t l IH]; intros sv w; [done|].
  cbn [foldM]. unfold bind.
  destruct (loadTexture_total E dir rootUrl step sv t w) as [sv' Hsv].
  pose proof (loadTexture_textures sv t w) as Ht.
  destruct (loadTexture E dir rootUrl step sv t w) as [w1 r]; cbn in Hsv, Ht.
  subst r. etransitivity; [|apply IH]. rewrite Ht. by apply prefix_app_r.
Qed.

(** The loop over a list that holds a file with the unique id [k] that the
    engine can parse leaves one texture of that id if there was none, and
    those that were there otherwise. *)
Lemma loadTextures_key k sv a t b json w :
  restoresUniqueId E ->
  files E (join E [dir; "textures"; t]) = Some json ->
  jget (Some json) "uniqueId" = Ok (Some (JNum k)) ->
  (forall sc, Texture_Parse E json sc rootUrl <> None) ->
  countKey k (textures (scene (fst
    (foldM (loadTexture E dir rootUrl step) sv (a ++ t :: b) w))))
  = Nat.max 1 (countKey k (textures (scene w))).
Proof.
  intros HE Hf Hk Hp.
  destruct (foldM_total_app (loadTexture E dir rootUrl step) a (t :: b) sv w
              (loadTexture_total E dir rootUrl step)) as (sva & _ & ->).
  pose proof (loadTextures_count k a sv w HE) as Ha. cbn zeta in Ha.
  set (wa := fst (foldM _ sv a w)) in *.
  cbn [foldM]. unfold bind.
  destruct (loadTexture_total E dir rootUrl step sva t wa) as [svt Hsvt].
  pose proof (loadTexture_count k sva t wa HE) as Ht. cbn zeta in Ht.
  pose proof (loadTexture_present k sva t wa json HE Hf Hk Hp) as Ht'.
  destruct (loadTexture E dir rootUrl step sva t wa) as [wt r]; cbn in Hsvt, Ht, Ht'.
  subst r.
  pose proof (loadTextures_count k b svt wt HE) as Hb. cbn zeta in Hb. lia.
Qed.

Lemma uptoMaterial_total project n :
  total (uptoMaterial E dir rootUrl step project n).
Proof.
  unfold uptoMaterial.
  apply total_bind; [apply loadMeshes_total | intros ?].
  apply total_bind; [apply loadTransformNodes_total | intros ?].
  apply total_bind; [apply loadImpostors_total | intros ?].
  apply loadMaterials_total.
Qed.

(** What follows the materials keeps the textures the texture loop
    leaves. *)
Lemma fromMaterial_textures project v w :
  textures (scene (fst (fromMaterial E dir rootUrl step project
                          (length (p_materials project)) v w)))
  = textures (scene (fst (foldM (loadTexture E dir rootUrl step) v
                            (p_textures project)
                            (emit (OverlaySetMessage "Creating Textures...") w)))).
Proof.
  unfold fromMaterial. rewrite drop_all. cbn [foldM].
  unfold bind at 1, ret at 1.
  unfold loadTextures. rewrite bind_assoc.
  unfold bind at 1, Overlay_SetMessage at 1, modify at 1.
  set (w0 := emit _ w). unfold bind.
  destruct (total_foldM _ (p_textures project)
              (loadTexture_total E dir rootUrl step) v w0) as [v3 Hv].
  pose proof (afterTextures_textures project v3
                (fst (foldM (loadTexture E dir rootUrl step) v
                        (p_textures project) w0))) as Ha.
  unfold on in Ha.
  destruct (foldM _ v (p_textures project) w0) as [wL r]; cbn [fst snd] in *.
  subst r. by rewrite <- Ha.
Qed.

End Textures.

End Pipeline.

(** * The import seen from its stages *)







Section Stages.

Variable E : Engine.

Lemma configureProject_total path project :
  total (configureProject E path project).
Proof.
  unfold configureProject. cbv zeta. unfold_prims.
  apply total_bind; [apply total_modify | intros _].
  apply total_bind; [apply registerFiles_total | intros _].
  apply total_bind; [apply configureAssets_total | intros _].
  apply total_bind; [apply total_modify | intros _]. apply total_modify.
Qed.

Lemma loadEntities_stages dir rootUrl step project w :
  loadEntities E dir rootUrl step project w =
  bind (untilParentIds E dir rootUrl step project) (fun _ => finishImport E) w.
Proof.
  unfold loadEntities, untilParentIds.
  do 8 (rewrite bind_assoc; apply bind_ext; intros ? ?).
  reflexivity.
Qed.

Lemma _ImportProject_entities path project w :
  readProject E path = Some project ->
  let dir := (dirname E path ++ "/")%string in
  _ImportProject E path w =
  loadEntities E dir (join E [dir; "/"]) (spinnerStepOf project) project
    (atMeshes E path project w).
Proof.
  intros Hp dir. rewrite _ImportProject_unfold, Hp.
  unfold atMeshes. set (w0 := emit _ _).
  transitivity
    (bind (configureProject E path project)
       (fun _ => loadEntities E dir (join E [dir; "/"]) (spinnerStepOf project)
                   project) w0).
  - unfold afterManifest, configureProject. cbv zeta.
    do 4 (rewrite bind_assoc; apply bind_ext; intros ? ?). reflexivity.
  - destruct (configureProject_total path project w0) as [[] Hc].
    unfold bind. destruct (configureProject E path project w0) as [w1 r].
    cbn in *. by subst r.
Qed.

Lemma _ImportProject_stages path project w :
  readProject E path = Some project ->
  let dir := (dirname E path ++ "/")%string in
  _ImportProject E path w =
  bind (untilParentIds E dir (join E [dir; "/"]) (spinnerStepOf project) project)
       (fun _ => finishImport E) (atMeshes E path project w).
Proof.
  intros Hp dir. rewrite (_ImportProject_entities path project w Hp).
  apply loadEntities_stages.
Qed.

Lemma _ImportProject_textures path project w :
  readProject E path = Some project ->
  let dir := (dirname E path ++ "/")%string in
  let rootUrl := join E [dir; "/"] in
  let step := spinnerStepOf project in
  let n := length (p_materials project) in
  _ImportProject E path w =
  bind (uptoMaterial E dir rootUrl step project n)
       (fromMaterial E dir rootUrl step project n) (atMeshes E path project w).
Proof.
  intros Hp dir rootUrl step n.
  rewrite (_ImportProject_entities path project w Hp).
  apply loadEntities_split.
Qed.

Lemma ImportProject_scene path w :
  scene (fst (ImportProject E path w)) = scene (fst (_ImportProject E path w)).
Proof.
  unfold ImportProject, try_catch.
  by destruct (_ImportProject E path w) as [w1 [[]|]].
Qed.

(** An import that returns went through the parent pass, and the pass
    returned. *)
Lemma import_returns_inv path project w :
  readProject E path = Some project ->
  snd (_ImportProject E path w) = Ok tt ->
  let dir := (dirname E path ++ "/")%string in
  snd (untilParentIds E dir (join E [dir; "/"]) (spinnerStepOf project) project
         (atMeshes E path project w)) = Ok tt /\
  snd (finishImport E (atParentIds E path project w)) = Ok tt /\
  scene (fst (ImportProject E path w))
    = linkParents (scene (atParentIds E path project w)).
Proof.
  intros Hp Hok dir. rewrite ImportProject_scene.
  rewrite (_ImportProject_stages path project w Hp) in *.
  unfold atParentIds. subst dir. cbv zeta in *. unfold bind in *.
  destruct (untilParentIds E _ _ _ project _) as [w1 [[]|]]; [|done].
  cbn [fst snd] in *. repeat split; [done|]. by apply finishImport_scene.
Qed.

(** An import that reaches the parent pass is aborted only by the parent
    setter. *)
Lemma import_aborted_in_pass path project w :
  readProject E path = Some project ->
  let dir := (dirname E path ++ "/")%string in
  snd (untilParentIds E dir (join E [dir; "/"]) (spinnerStepOf project) project
         (atMeshes E path project w)) = Ok tt ->
  snd (_ImportProject E path w) = Throw ->
  snd (setWaitingParents E (atParentIds E path project w)) = Throw /\
  setterThrows E.
Proof.
  intros Hp dir Hu Ht.
  rewrite (_ImportProject_stages path project w Hp) in Ht.
  unfold atParentIds. subst dir. cbv zeta in *. unfold bind in Ht.
  destruct (untilParentIds E _ _ _ project _) as [w1 [[]|]]; [|done].
  cbn [fst snd] in *. split; [|by eapply finishImport_throw].
  rewrite finishImport_unfold in Ht.
  destruct (setWaitingParents E w1) as [w2 [[]|]]; [|done].
  destruct (signalReady_total E w2) as [a Ha]. congruence.
Qed.

End Stages.

(** * The parent pass of an import *)

Lemma nodeAt_kind r : exists k i, r = refOf k i.
Proof.
  destruct r as [i|i|i|i];
    [exists KMesh, i | exists KLight, i | exists KCamera, i
    | exists KTransform, i]; reflexivity.
Qed.

Lemma nodesOf_alterNode k i r f s :
  nodesOf k (alterNode r f s) !! i =
  if decide (r = refOf k i) then f <$> nodesOf k s !! i else nodesOf k s !! i.
Proof.
  destruct r as [j|j|j|j], k; cbn [alterNode nodesOf refOf];
    try (rewrite decide_False by discriminate; reflexivity);
    (destruct (decide (j = i)) as [->|Hne];
     [ rewrite decide_True by reflexivity; apply list_lookup_alter_eq
     | rewrite decide_False by congruence; by apply list_lookup_alter_ne ]).
Qed.

Lemma alterNode_same_ids r f s :
  (forall n, n_id (f n) = n_id n) -> same_ids (alterNode r f s) s.
Proof.
  intros Hf k.
  destruct r as [j|j|j|j], k; cbn [alterNode nodesOf]; try reflexivity;
    by apply map_id_alter.
Qed.

Section Linking.

Variable E : Engine.
Hypothesis accepts_none : forall sc r, Node_setParent E sc r None = true.

Lemma _SetWaitingParent_dangling r w :
  allDangling (scene w) ->
  snd (_SetWaitingParent E r w) = Ok tt /\
  allDangling (scene (fst (_SetWaitingParent E r w))).
Proof.
  intros Hd. rewrite _SetWaitingParent_run.
  destruct (nodeAt (scene w) r) as [n|] eqn:Hn; [|done].
  destruct (truthy (_waitingParentId n)) eqn:Ht; [|done].
  destruct (nodeAt_kind r) as (k & i & ->). rewrite nodeAt_refOf in Hn.
  cbn zeta. rewrite (Hd k i n Hn Ht), accepts_none. split; [done|].
  cbn [fst scene set_scene]. intros k' i' n' Hn' Ht'.
  rewrite (lookupParent_ids _ (scene w))
    by (apply alterNode_same_ids; intros ?; apply linkNode_id).
  rewrite nodesOf_alterNode in Hn'.
  destruct (decide (refOf k i = refOf k' i')) as [Heq|Hne].
  - destruct (nodesOf k' (scene w) !! i') as [m|]; [|done].
    cbn in Hn'. injection Hn' as <-.
    rewrite linkNode_spec in Ht'.
    destruct (truthy (_waitingParentId m)) eqn:Hm; [done|congruence].
  - by eapply Hd.
Qed.

Lemma forEach_dangling (mk : nat -> NodeRef) idxs w :
  allDangling (scene w) ->
  snd (forM (fun i => _SetWaitingParent E (mk i)) idxs w) = Ok tt /\
  allDangling (scene (fst (forM (fun i => _SetWaitingParent E (mk i)) idxs w))).
Proof.
  revert w. induction idxs as [|i idxs IH]; intros w Hd; [done|].
  unfold forM. cbn [foldM]. unfold bind.
  destruct (_SetWaitingParent_dangling (mk i) w Hd) as [H1 H2].
  destruct (_SetWaitingParent E (mk i) w) as [w1 r]; cbn [fst snd] in *.
  subst r. by apply IH.
Qed.

Lemma setWaitingParents_dangling w :
  allDangling (scene w) -> snd (setWaitingParents E w) = Ok tt.
Proof.
  intros Hd. unfold setWaitingParents, bind at 1, gets at 1. cbn [fst snd].
  unfold bind.
  destruct (forEach_dangling RMesh (seq 0 (length (meshes (scene w)))) w Hd)
    as [H1 D1].
  destruct (forM (fun i => _SetWaitingParent E (RMesh i)) _ w) as [w1 r1].
  cbn [fst snd] in *. subst r1.
  destruct (forEach_dangling RLight (seq 0 (length (lights (scene w)))) w1 D1)
    as [H2 D2].
  destruct (forM (fun i => _SetWaitingParent E (RLight i)) _ w1) as [w2 r2].
  cbn [fst snd] in *. subst r2.
  destruct (forEach_dangling RCamera (seq 0 (length (cameras (scene w)))) w2 D2)
    as [H3 D3].
  destruct (forM (fun i => _SetWaitingParent E (RCamera i)) _ w2) as [w3 r3].
  cbn [fst snd] in *. subst r3.
  apply (forEach_dangling RTransform _ w3 D3).
Qed.

Lemma finishImport_dangling w :
  allDangling (scene w) -> snd (finishImport E w) = Ok tt.
Proof.
  intros Hd. rewrite finishImport_unfold.
  pose proof (setWaitingParents_dangling w Hd) as Hp.
  destruct (setWaitingParents E w) as [w1 [[]|]]; [|done].
  by destruct (signalReady_total E w1) as [[] Ha].
Qed.

End Linking.



(** C5, as amended.  A waiting parent id that names no node of the scene is
    looked up in vain by both lookups.  When the import returns, every node
    that waited for such an id when the parent pass started is without
    parent and without waiting id, and no mesh, light, camera or transform
    node of the scene has a waiting parent id any more: what is left in the
    field, if anything, is a value the importer takes for "no waiting id"
    ([null], the empty string).  Waiting ids that name no node do not abort
    the import: with an engine whose parent setter accepts the absence of a
    parent, an import that got to the parent pass with nothing but such
    waiting ids returns.  But the pass is not guarded, and the import is
    aborted in it when the parent setter throws. *)
Theorem dangling_parent_is_dropped (E : Engine) (path : string)
    (project : IProject) (w : World) :
  readProject E path = Some project ->
  let dir := (dirname E path ++ "/")%string in
  let loading :=
    untilParentIds E dir (join E [dir; "/"]) (spinnerStepOf project) project in
  let w1 := atParentIds E path project w in
  let w' := fst (ImportProject E path w) in
  _ImportProject E path w
    = bind loading (fun _ => finishImport E) (atMeshes E path project w) /\
  (forall s v, dangling s v ->
     getNodeByID s v = None /\ getTransformNodeByID s v = None /\
     lookupParent s v = None) /\
  (snd (_ImportProject E path w) = Ok tt ->
   (forall k i n,
      nodesOf k (scene w1) !! i = Some n ->
      truthy (_waitingParentId n) = true ->
      dangling (scene w1) (_waitingParentId n) ->
      exists n',
        nodesOf k (scene w') !! i = Some n' /\
        n_parent n' = None /\ _waitingParentId n' = None /\
        identity n' = identity n) /\
   (forall k n', In n' (nodesOf k (scene w')) ->
      truthy (_waitingParentId n') = false)) /\
  ((forall sc r, Node_setParent E sc r None = true) ->
   snd (loading (atMeshes E path project w)) = Ok tt ->
   (forall k i n,
      nodesOf k (scene w1) !! i = Some n ->
      truthy (_waitingParentId n) = true ->
      dangling (scene w1) (_waitingParentId n)) ->
   snd (_ImportProject E path w) = Ok tt) /\
  (snd (loading (atMeshes E path project w)) = Ok tt ->
   snd (_ImportProject E path w) = Throw ->
   snd (setWaitingParents E w1) = Throw /\ setterThrows E).
Proof.
  intros Hp dir loading w1 w'. split; [by apply _ImportProject_stages|].
  split.
  { intros s v Hd. pose proof (lookupParent_dangling s v Hd) as Hl.
    split; [|split; [|exact Hl]]; unfold lookupParent in Hl;
      by destruct (getNodeByID s v). }
  split; [|split].
  - intros Hok.
    destruct (import_returns_inv E path project w Hp Hok) as (_ & _ & Hs).
    fold w' w1 in Hs. split.
    + intros k i n Hn Ht Hd.
      pose proof (linkParents_linked (scene w1) k i n Hn Ht) as Hl.
      rewrite <- Hs, (lookupParent_dangling _ _ Hd) in Hl.
      eexists. split; [exact Hl|]. done.
    + intros k n'. rewrite Hs. apply linkParents_no_waiting.
  - intros Ha Hu Hd.
    rewrite (_ImportProject_stages E path project w Hp).
    fold dir loading. unfold bind.
    assert (Hw : w1 = fst (loading (atMeshes E path project w))) by done.
    destruct (loading (atMeshes E path project w)) as [w2 [[]|]]; [|done].
    cbn [fst] in Hw. subst w2. apply finishImport_dangling; [done|].
    intros k i n Hn Ht. apply lookupParent_dangling. by eapply Hd.
  - intros Hu Ht. by apply import_aborted_in_pass.
Qed.

Lemma selfParent_atParentIds :
  scene (atParentIds selfParentEngine "proj/project.json" selfParentProject
           (initialWorld selfParentEngine))
  = mkScene [mkNode "m" "m" "Mesh" None None None None []] []
      [mkNode "l" "l" "PointLight" None (Some (JStr "l")) None None []]
      [mkNode "c1" "c1" "FreeCamera" None (Some (JStr "m")) None None [];
       mkNode "c2" "c2" "FreeCamera" None (Some (JStr "ghost")) None None []]
      [] [] [] [JNull].
Proof. vm_compute. reflexivity. Qed.



(** C5, as stated, fails.  In the same project a second camera waits for
    ["ghost"], the id of no node.  The import is aborted in the parent pass,
    at the light, before the pass gets to the cameras: [_ImportProject]
    throws, and after [ImportProject] the camera still has its waiting
    id. *)
Lemma dangling_parent_survives_aborted_pass :
  ~ (forall (E : Engine) (path : string) (project : IProject) (w : World)
            (k : NodeKind) (i : nat) (n : Node),
       readProject E path = Some project ->
       let dir := (dirname E path ++ "/")%string in
       snd (untilParentIds E dir (join E [dir; "/"]) (spinnerStepOf project)
              project (atMeshes E path project w)) = Ok tt ->
       nodesOf k (scene (atParentIds E path project w)) !! i = Some n ->
       truthy (_waitingParentId n) = true ->
       dangling (scene (atParentIds E path project w)) (_waitingParentId n) ->
       snd (_ImportProject E path w) = Ok tt /\
       Forall (fun n' => truthy (_waitingParentId n') = false)
         (nodesOf k (scene (fst (ImportProject E path w))))).
Proof.
  intros H.
  specialize (H selfParentEngine "proj/project.json" selfParentProject
                (initialWorld selfParentEngine) KCamera 1
                (mkNode "c2" "c2" "FreeCamera" None (Some (JStr "ghost"))
                   None None [])
                eq_refl).
  cbv zeta in H. rewrite selfParent_atParentIds in H.
  assert (Hl : snd (untilParentIds selfParentEngine "proj/"
                      (join selfParentEngine ["proj/"; "/"])
                      (spinnerStepOf selfParentProject) selfParentProject
                      (atMeshes selfParentEngine "proj/project.json"
                         selfParentProject (initialWorld selfParentEngine)))
               = Ok tt) by (vm_compute; reflexivity).
  assert (Hd : dangling
                 (mkScene [mkNode "m" "m" "Mesh" None None None None []] []
                    [mkNode "l" "l" "PointLight" None (Some (JStr "l")) None None []]
                    [mkNode "c1" "c1" "FreeCamera" None (Some (JStr "m")) None None [];
                     mkNode "c2" "c2" "FreeCamera" None (Some (JStr "ghost"))
                       None None []]
                    [] [] [] [JNull])
                 (Some (JStr "ghost"))).
  { intros k p Hin. destruct k; cbn in Hin;
      repeat (destruct Hin as [<-|Hin]; [discriminate|]); done. }
  destruct (H Hl eq_refl eq_refl Hd) as [Hok _].
  vm_compute in Hok. discriminate Hok.
Qed.

Lemma orphans_atParentIds :
  scene (atParentIds orphansEngine "proj/project.json" orphansProject
           (initialWorld orphansEngine))
  = mkScene [mkNode "b" "b" "Mesh" None (Some (JStr "ghost")) None None []] [] []
      [mkNode "c2" "c2" "FreeCamera" None (Some (JStr "ghost")) None None []]
      [] [] [] [JNull].
Proof. vm_compute. reflexivity. Qed.

Lemma demoSetParent_none sc r : demoSetParent sc r None = true.
Proof.
  unfold demoSetParent. destruct (decide _); [done|].
  by destruct (nodeCount sc).
Qed.

Lemma dangling_parent_is_dropped_witness :
  snd (_ImportProject orphansEngine "proj/project.json"
         (initialWorld orphansEngine)) = Ok tt.
Proof.
  destruct (dangling_parent_is_dropped orphansEngine "proj/project.json"
              orphansProject (initialWorld orphansEngine) eq_refl)
    as (_ & _ & _ & H & _).
  apply H.
  - apply demoSetParent_none.
  - vm_compute. reflexivity.
  - rewrite orphans_atParentIds. intros k i n Hn _.
    assert (Hw : _waitingParentId n = None \/
                 _waitingParentId n = Some (JStr "ghost")).
    { destruct k, i as [|[|i]]; cbn in Hn; try done;
        injection Hn as <-; auto. }
    destruct Hw as [-> | ->]; intros k' p Hin; [done|].
    destruct k'; cbn in Hin;
      repeat (destruct Hin as [<-|Hin]; [discriminate|]); done.
Defined.



(** * The statements on concrete projects *)

(** C2 fails on the code: two texture files carry the same unique id, so the
    second turn of the texture loop ends by [continue] and reports no
    progress.  Both entities have been attempted when the import returns,
    and the progress reported is 0 and then 1/2; it never reaches 1. *)
Theorem skipped_texture_does_not_advance_progress :
  let r := _ImportProject twinTexturesEngine "proj/project.json"
             (initialWorld twinTexturesEngine) in
  snd r = Ok tt /\
  reads (trace (fst r)) =
    ["proj/project.json"; "proj/textures/t1"; "proj/textures/t2";
     "proj/assets/cache.json"] /\
  progress (trace (fst r)) = [0; 1 # 2]%Q /\
  Forall (fun q => ~ (q == 1)%Q) (progress (trace (fst r))).
Proof.
  cbn zeta. repeat split; try (vm_compute; reflexivity).
  assert (Hp : progress (trace (fst (_ImportProject twinTexturesEngine
                  "proj/project.json" (initialWorld twinTexturesEngine))))
               = [0; 1 # 2]%Q) by (vm_compute; reflexivity).
  rewrite Hp. repeat constructor; intros H; vm_compute in H; discriminate H.
Qed.

(** A child mesh whose file is listed and loaded first: the loader
    connects it when the second file is loaded, and the import leaves the
    child with the mesh of the second file as its parent. *)
Example child_loaded_before_parent :
  let r := ImportProject childFirstEngine "proj/project.json"
             (initialWorld childFirstEngine) in
  snd r = Ok tt /\
  map (fun n => (n_id n, n_parent n, _waitingParentId n)) (meshes (scene (fst r)))
    = [("b", Some (RMesh 1), Some JNull); ("a", None, None)].
Proof. cbn zeta. split; vm_compute; reflexivity. Qed.

Lemma demoEngine_restoresUniqueId project fs :
  restoresUniqueId (demoEngine project fs).
Proof.
  intros json sc rootUrl t. cbn. unfold demoTexture.
  destruct json as [| | | | |fields]; try done.
  cbn. destruct (assoc "uniqueId" fields) as [[| |z| | |]|]; try done.
  intros H. injection H as <-. done.
Qed.

(** * The textures of an import *)

Lemma atTextures_without_materials (E : Engine) path project w :
  p_materials project = [] ->
  textures (scene (atTextures E path project w)) = textures (scene w).
Proof.
  intros Hm. unfold atTextures, uptoMaterial, atMeshes. cbv zeta.
  rewrite Hm. cbn [length take].
  transitivity (textures (scene (fst (configureProject E path project
                   (emit (ReadJSON path) (beforeManifest E path w)))))).
  - match goal with
    | |- textures (scene (fst (?m ?w0))) = _ =>
        assert (H : preserves (on (fun w => textures (scene w)) eq) m)
          by (unfold loadMaterials; cbn [foldM]; go_preserves; side_preserves);
        symmetry; apply (H w0)
    end.
  - assert (H : preserves (on (fun w => textures (scene w)) eq)
                  (configureProject E path project))
      by (unfold configureProject; go_preserves; side_preserves).
    symmetry. apply (H (emit (ReadJSON path) (beforeManifest E path w))).
Qed.

(** C3, as amended.  The texture loop of the import starts when the
    materials have been handled.  A turn of the loop looks the unique id of
    its file up in the scene before it parses anything, and ends there when
    a texture has that id: nothing is parsed and the scene is untouched.
    From the start of the texture loop to the end of the import the textures
    of the scene are kept, in place, and at most one texture of a given
    unique id [k] is added, and only if there was none.  So when the texture
    list holds an entry with the id [k] that the engine can parse, however
    many entries carry that id, the import ends with exactly one texture of
    that id if the scene had none when the texture loop started, as is the
    case for a scene that had none before the import and a project without
    materials; and with those, one or several, that it had when the loop
    started otherwise. *)
Theorem duplicate_texture_is_parsed_once (E : Engine) (path : string)
    (project : IProject) (k : Z) (w : World) :
  readProject E path = Some project ->
  restoresUniqueId E ->
  let dir := (dirname E path ++ "/")%string in
  let rootUrl := join E [dir; "/"] in
  let step := spinnerStepOf project in
  let n := length (p_materials project) in
  let wT := atTextures E path project w in
  let w' := fst (ImportProject E path w) in
  let parsable t :=
    exists json,
      files E (join E [dir; "textures"; t]) = Some json /\
      jget (Some json) "uniqueId" = Ok (Some (JNum k)) /\
      forall sc, Texture_Parse E json sc rootUrl <> None in
  _ImportProject E path w
    = bind (uptoMaterial E dir rootUrl step project n)
           (fromMaterial E dir rootUrl step project n)
           (atMeshes E path project w) /\
  textures (scene wT) `prefix_of` textures (scene w') /\
  countKey k (textures (scene w'))
    <= Nat.max 1 (countKey k (textures (scene wT))) /\
  ((exists t, In t (p_textures project) /\ parsable t) ->
   countKey k (textures (scene w'))
     = Nat.max 1 (countKey k (textures (scene wT))) /\
   (countKey k (textures (scene wT)) = 0 ->
    countKey k (textures (scene w')) = 1)) /\
  (p_materials project = [] -> textures (scene wT) = textures (scene w)) /\
  (forall sv0 t0 w0 json0 v existing,
     files E (join E [dir; "textures"; t0]) = Some json0 ->
     jget (Some json0) "uniqueId" = Ok v ->
     getTextureByUniqueID (scene w0) v = Some existing ->
     loadTexture E dir rootUrl step sv0 t0 w0 =
       (emit (ReadJSON (join E [dir; "textures"; t0])) w0, Ok sv0)).
Proof.
  intros Hp HE dir rootUrl step n wT w' parsable.
  assert (Hw : exists v,
             textures (scene w')
             = textures (scene (fst (foldM (loadTexture E dir rootUrl step) v
                                       (p_textures project)
                                       (emit (OverlaySetMessage
                                                "Creating Textures...") wT))))).
  { unfold w'. rewrite ImportProject_scene.
    rewrite (_ImportProject_textures E path project w Hp).
    fold dir rootUrl step n. unfold wT, atTextures. fold dir rootUrl step n.
    destruct (uptoMaterial_total E dir rootUrl step project n
                (atMeshes E path project w)) as [v Hv].
    exists v. unfold bind.
    destruct (uptoMaterial E dir rootUrl step project n _) as [w0 r].
    cbn [fst snd] in *. subst r. apply fromMaterial_textures. }
  destruct Hw as [v Hw]. rewrite Hw.
  set (w0 := emit (OverlaySetMessage "Creating Textures...") wT).
  change (scene wT) with (scene w0).
  split; [by apply _ImportProject_textures|].
  split; [apply loadTextures_prefix|].
  split; [apply (loadTextures_count E dir rootUrl step k _ v w0 HE)|].
  split; [|split].
  - intros (t & Hin & json & Hf & Hk & Hparse).
    apply List.in_split in Hin as (a & b & Hl).
    rewrite Hl, (loadTextures_key E dir rootUrl step k v a t b json w0 HE Hf Hk Hparse).
    split; [done|]. by intros ->.
  - apply atTextures_without_materials.
  - intros sv0 t0 w1 json0 v0 existing. apply loadTexture_skips.
Qed.

(** C3, as stated, fails.  The material of the project embeds two textures
    with the unique id 7, and the texture parser of the importer, which
    the material parser asks, looks for editor names only: both are
    created.  The two texture files of the project carry the same id, so
    both turns of the texture loop find a texture and skip; the import ends
    with two textures of that id. *)
Lemma material_textures_are_not_merged :
  ~ (forall (E : Engine) (path : string) (project : IProject) (w : World)
            (k : Z) (a b c : list string) (t1 t2 : string) (j1 j2 : Json),
       readProject E path = Some project ->
       let dir := (dirname E path ++ "/")%string in
       p_textures project = a ++ t1 :: b ++ t2 :: c ->
       files E (join E [dir; "textures"; t1]) = Some j1 ->
       jget (Some j1) "uniqueId" = Ok (Some (JNum k)) ->
       files E (join E [dir; "textures"; t2]) = Some j2 ->
       jget (Some j2) "uniqueId" = Ok (Some (JNum k)) ->
       countKey k (textures (scene (fst (ImportProject E path w)))) = 1).
Proof.
  intros H.
  specialize (H twinMaterialEngine "proj/project.json" twinMaterialProject
                (initialWorld twinMaterialEngine) 7%Z [] [] [] "t1" "t2"
                (textureFile 7 "x") (textureFile 7 "y")
                eq_refl eq_refl eq_refl eq_refl eq_refl eq_refl).
  vm_compute in H. discriminate H.
Qed.

Lemma duplicate_texture_is_parsed_once_witness :
  countKey 7 (textures (scene (fst
     (ImportProject twinTexturesEngine "proj/project.json"
        (initialWorld twinTexturesEngine))))) = 1.
Proof.
  destruct (duplicate_texture_is_parsed_once twinTexturesEngine
              "proj/project.json" (demoProject [] ["t1"; "t2"] []) 7%Z
              (initialWorld twinTexturesEngine) eq_refl
              (demoEngine_restoresUniqueId _ _))
    as (_ & _ & _ & H & _).
  apply H.
  - exists "t1". split; [by left|]. exists (textureFile 7 "x").
    split; [reflexivity|]. split; [reflexivity|]. intros sc. discriminate.
  - vm_compute. reflexivity.
Defined.

Lemma failed_mesh_is_isolated_witness :
  meshFailures (trace (fst
     (foldM (loadMesh fiveMeshesEngine "proj/" (1 # 5)) 0%Q
        (["m1"; "m2"] ++ "m3" :: ["m4"; "m5"])
        (initialWorld fiveMeshesEngine)))) = [failMessage "m3"]
  /\ length (meshes (scene (fst
       (foldM (loadMesh fiveMeshesEngine "proj/" (1 # 5)) 0%Q
          (["m1"; "m2"] ++ "m3" :: ["m4"; "m5"])
          (initialWorld fiveMeshesEngine))))) = 4.
Proof.
  split; [|vm_compute; reflexivity].
  apply (failed_mesh_is_isolated fiveMeshesEngine "proj/" (1 # 5) 0%Q
           ["m1"; "m2"] "m3" ["m4"; "m5"] (initialWorld fiveMeshesEngine)).
  - vm_compute. reflexivity.
  - vm_compute. reflexivity.
  - vm_compute. reflexivity.
Defined.

Lemma unresolved_binding_is_a_warning_witness :
  exists n',
    meshes (scene (fst (loadMaterial bindingEngine "proj/" "proj/" (1 # 1) 0%Q
                          bindingRecord bindingWorld))) !! 0 = Some n' /\
    n_material n' = Some 0 /\ n_id n' = "a".
Proof.
  destruct (unresolved_binding_is_a_warning bindingEngine "proj/" "proj/"
              (1 # 1) 0%Q bindingRecord bindingWorld
              (JObj [("id", JStr "mat")])
              (fst (parseMaterial bindingEngine "proj/" bindingRecord
                      (JObj [("id", JStr "mat")])
                      (emit (ReadJSON "proj/materials/mat.json") bindingWorld)))
              0 eq_refl eq_refl) as (_ & _ & _ & _ & _ & H & _).
  destruct (H "a" 0 (or_introl eq_refl) eq_refl)
    as (n & n' & _ & Hn' & Hm & Hi & _).
  exists n'. split; [exact Hn'|]. split; [exact Hm|exact Hi].
Defined.

Lemma editorName_resolves_to_existing_texture_witness :
  hookedTextureParser (Texture_Parse_default bindingEngine) brickSource
    brickScene "proj/"
  = ([], Ok (mkTexture 3 "brick.png" (Some (JObj [("editorName", JStr "brick")])))).
Proof.
  destruct (editorName_resolves_to_existing_texture bindingEngine
              "proj/project.json" "proj/" (initialWorld bindingEngine)
              (Texture_Parse_default bindingEngine) brickSource brickScene
              (Some (JObj [("editorName", JStr "brick")])) (Some (JStr "brick"))
              eq_refl eq_refl eq_refl eq_refl
              (ex_intro _ (mkTexture 3 "brick.png"
                             (Some (JObj [("editorName", JStr "brick")])))
                 (conj (or_introl eq_refl) eq_refl)))
    as (_ & t & _ & _ & Hh & _).
  rewrite Hh. vm_compute in Hh. injection Hh as <-. reflexivity.
Defined.

(** * Further properties of the importer *)

(** ** The texture parser of the importer *)

(** X1: a serialized texture without editor name, or whose editor name is
    that of no texture of the scene, is handed to the wrapped parser and the
    answer of that parser is returned as it is; a [null] source throws in
    the importer's parser itself, and the wrapped parser is not asked. *)
Theorem texture_parser_falls_back (textureParser : TexParser) (source : Json)
    (sc : Scene) (rootUrl : string) :
  (source = JNull ->
     hookedTextureParser textureParser source sc rootUrl = ([], Throw)) /\
  (source <> JNull ->
     truthy (editorNameOf source) = false \/
     (forall t, In t (textures sc) ->
        sameEditorName (editorNameOf source) t = false) ->
     hookedTextureParser textureParser source sc rootUrl
       = textureParser source sc rootUrl).
Proof.
  split.
  - intros ->. reflexivity.
  - intros Hn H. unfold hookedTextureParser, editorNameOf in *.
    destruct (jget (Some source) "metadata") as [md|] eqn:Hmd.
    2:{ destruct source; try done. }
    destruct (truthy md) eqn:Tmd.
    + destruct (jget md "editorName") as [en|] eqn:Hen.
      2:{ destruct md as [[]|]; done. }
      cbn [andb]. destruct (truthy en) eqn:Ten.
      * destruct H as [H|H]; [done|].
        destruct (List.find (sameEditorName en) (textures sc)) as [t|] eqn:Hf;
          [|done].
        apply List.find_some in Hf as [Hin Hs]. rewrite (H t Hin) in Hs. done.
      * done.
    + done.
Qed.

Lemma texture_parser_falls_back_witness :
  hookedTextureParser (Texture_Parse_default bindingEngine) (textureFile 9 "wood")
    brickScene "proj/"
  = Texture_Parse_default bindingEngine (textureFile 9 "wood") brickScene "proj/".
Proof.
  apply (texture_parser_falls_back (Texture_Parse_default bindingEngine)
           (textureFile 9 "wood") brickScene "proj/").
  - discriminate.
  - left. reflexivity.
Defined.

(** X2: every import wraps the texture parser it finds and none puts the
    old one back, so after two imports the global parser is the parser of
    the importer around the parser of the importer around the original
    one.  The double wrapper answers as the single one does. *)
Theorem texture_parser_wrapped_twice (E : Engine) (path1 path2 : string)
    (w : World) (source : Json) (sc : Scene) (rootUrl : string) :
  let w2 := fst (ImportProject E path2 (fst (ImportProject E path1 w))) in
  _TextureParser w2
    = hookedTextureParser (hookedTextureParser (_TextureParser w)) /\
  _TextureParser w2 source sc rootUrl
    = hookedTextureParser (_TextureParser w) source sc rootUrl.
Proof.
  assert (Himp : forall path w0,
            _TextureParser (fst (ImportProject E path w0))
            = hookedTextureParser (_TextureParser w0)).
  { intros path w0. unfold ImportProject, try_catch.
    pose proof (_ImportProject_unfold E path w0) as Hu.
    destruct (readProject E path) as [p|].
    - pose proof (afterManifest_keeps_parser E path p
                    (emit (ReadJSON path) (beforeManifest E path w0))) as Hk.
      unfold on in Hk. rewrite <- Hu in Hk.
      destruct (_ImportProject E path w0) as [w' [[]|]]; cbn in *; by rewrite <- Hk.
    - rewrite Hu. reflexivity. }
  cbn zeta. rewrite !Himp. split; [done|].
  unfold hookedTextureParser.
  destruct (jget (Some source) "metadata") as [md|]; [|done].
  destruct (if truthy md then jget md "editorName" else Ok None) as [en|]; [|done].
  destruct (truthy md && truthy en); [|done].
  by destruct (List.find (sameEditorName en) (textures sc)).
Qed.

(** ** The parent pass as a whole *)

Lemma linkParents_others s :
  textures (linkParents s) = textures s /\
  materials (linkParents s) = materials s /\
  shadowGenerators (linkParents s) = shadowGenerators s /\
  settings (linkParents s) = settings s.
Proof.
  unfold linkParents.
  destruct (linkAll_meshes s) as [E1 _].
  remember (linkAll meshes set_meshes s) as s1 eqn:D1. clear D1.
  destruct (linkAll_lights s1) as [E2 _].
  remember (linkAll lights set_lights s1) as s2 eqn:D2. clear D2.
  destruct (linkAll_cameras s2) as [E3 _].
  remember (linkAll cameras set_cameras s2) as s3 eqn:D3. clear D3.
  destruct (linkAll_transformNodes s3) as [E4 _].
  by rewrite E4, E3, E2, E1.
Qed.

Lemma _SetWaitingParent_idle (E : Engine) r w :
  (forall k n, In n (nodesOf k (scene w)) ->
     truthy (_waitingParentId n) = false) ->
  _SetWaitingParent E r w = (w, Ok tt).
Proof.
  intros Hw. rewrite _SetWaitingParent_run.
  destruct (nodeAt (scene w) r) as [n|] eqn:Hn; [|done].
  destruct (nodeAt_kind r) as (k & i & ->). rewrite nodeAt_refOf in Hn.
  rewrite (Hw k n); [done|].
  apply list_elem_of_In. by eapply list_elem_of_lookup_2.
Qed.

Lemma forEach_idle (E : Engine) (mk : nat -> NodeRef) idxs w :
  (forall k n, In n (nodesOf k (scene w)) ->
     truthy (_waitingParentId n) = false) ->
  forM (fun i => _SetWaitingParent E (mk i)) idxs w = (w, Ok tt).
Proof.
  intros Hw. induction idxs as [|i idxs IH]; [done|].
  unfold forM in *. cbn [foldM]. unfold bind.
  by rewrite (_SetWaitingParent_idle E (mk i) w Hw).
Qed.

Lemma setWaitingParents_idle (E : Engine) w :
  (forall k n, In n (nodesOf k (scene w)) ->
     truthy (_waitingParentId n) = false) ->
  setWaitingParents E w = (w, Ok tt).
Proof.
  intros Hw. unfold setWaitingParents, bind at 1, gets at 1. cbn [fst snd].
  unfold bind. by rewrite !forEach_idle.
Qed.

(** X3: when the parent pass returns, running it a second time returns too
    and changes nothing, as no node waits for a parent any more.  A node
    that carries no waiting parent id when the pass starts is left exactly
    as it was, parent included; textures, materials, shadow generators and
    settings are not touched, and nothing is logged. *)
Theorem parent_pass_is_idempotent (E : Engine) (w : World) :
  snd (setWaitingParents E w) = Ok tt ->
  let w1 := fst (setWaitingParents E w) in
  setWaitingParents E w1 = (w1, Ok tt) /\
  (forall k i n,
     nodesOf k (scene w) !! i = Some n ->
     truthy (_waitingParentId n) = false ->
     nodesOf k (scene w1) !! i = Some n) /\
  textures (scene w1) = textures (scene w) /\
  materials (scene w1) = materials (scene w) /\
  shadowGenerators (scene w1) = shadowGenerators (scene w) /\
  settings (scene w1) = settings (scene w) /\
  trace w1 = trace w.
Proof.
  intros Hok w1. unfold w1. rewrite (setWaitingParents_ok E w Hok).
  cbn [scene trace set_scene].
  split; [|split; [|split; [|split; [|split; [|split]]]]];
    try apply linkParents_others; [| |done].
  - apply setWaitingParents_idle. cbn [scene set_scene].
    intros k n. apply linkParents_no_waiting.
  - intros k i n. apply linkParents_kept.
Qed.

Lemma parent_pass_is_idempotent_witness :
  let w1 := fst (setWaitingParents lampEngine
                   (atParentIds lampEngine "proj/project.json" lampProject
                      (initialWorld lampEngine))) in
  setWaitingParents lampEngine w1 = (w1, Ok tt).
Proof.
  apply (parent_pass_is_idempotent lampEngine
           (atParentIds lampEngine "proj/project.json" lampProject
              (initialWorld lampEngine))).
  vm_compute. reflexivity.
Defined.

(** ** What the import never removes *)

Lemma map_alter_same {A B} (f : A -> B) (g : A -> A) (i : nat) (l : list A) :
  (forall a, f (g a) = f a) -> map f (alter g i l) = map f l.
Proof.
  intros Hg. revert i. induction l as [|a l IH]; intros [|i]; cbn; try done.
  - by rewrite Hg.
  - f_equal. apply IH.
Qed.

Lemma linkParents_identity s k :
  map identity (nodesOf k (linkParents s)) = map identity (nodesOf k s).
Proof.
  rewrite linkParents_spec, map_map. apply map_ext. intros n.
  rewrite linkNode_spec. by destruct (truthy _).
Qed.

Ltac side_append :=
  unfold on, identities;
  cbn [nodesOf trace scene emit set_scene set_TextureParser set_FilesStore
       push_MeshesAssets push_PrefabAssets set_Project set_editorCamera
       push_pipeline set_cachedData set_onReady _TextureParser
       MeshesAssets_Meshes PrefabAssets_Prefabs
       meshes transformNodes lights cameras textures materials
       shadowGenerators settings set_meshes set_transformNodes set_lights
       set_cameras set_textures set_materials set_shadowGenerators
       set_settings alterNode];
  rewrite ?map_app;
  first
    [ reflexivity
    | apply prefix_app_r; reflexivity
    | rewrite map_alter_same by (intros ?; reflexivity); reflexivity
    | match goal with
      | |- context [linkParents ?s] =>
          first
            [ progress change (meshes (linkParents s))
                with (nodesOf KMesh (linkParents s))
            | progress change (lights (linkParents s))
                with (nodesOf KLight (linkParents s))
            | progress change (cameras (linkParents s))
                with (nodesOf KCamera (linkParents s))
            | progress change (transformNodes (linkParents s))
                with (nodesOf KTransform (linkParents s)) ];
          rewrite linkParents_identity; reflexivity
      | |- context [linkParents ?s] =>
          let H1 := fresh in
          let H2 := fresh in
          let H3 := fresh in
          destruct (linkParents_others s) as (H1 & H2 & H3 & _);
          rewrite ?H1, ?H2, ?H3; reflexivity
      end ].

Ltac go_import :=
  unfold ImportProject, _ImportProject; go_preserves; side_append.

(** X4: an import, whether it completes or is aborted, only appends to the
    scene and to the asset lists.  The meshes, lights, cameras and transform
    nodes that were in the scene keep their place, id, name and class; the
    textures, materials and shadow generators that were there are kept as
    they were, in place; the calls logged before the import stay logged. *)
Theorem import_only_appends (E : Engine) (path : string) (w : World) :
  let w' := fst (ImportProject E path w) in
  (forall k, identities k w `prefix_of` identities k w') /\
  textures (scene w) `prefix_of` textures (scene w') /\
  materials (scene w) `prefix_of` materials (scene w') /\
  shadowGenerators (scene w) `prefix_of` shadowGenerators (scene w') /\
  MeshesAssets_Meshes w `prefix_of` MeshesAssets_Meshes w' /\
  PrefabAssets_Prefabs w `prefix_of` PrefabAssets_Prefabs w' /\
  trace w `prefix_of` trace w'.
Proof.
  cbn zeta. repeat split.
  - intros k.
    assert (H : preserves (on (identities k) prefix) (ImportProject E path)).
    { destruct k; go_import. }
    apply H.
  - assert (H : preserves (on (fun w => textures (scene w)) prefix)
                  (ImportProject E path)) by go_import.
    apply H.
  - assert (H : preserves (on (fun w => materials (scene w)) prefix)
                  (ImportProject E path)) by go_import.
    apply H.
  - assert (H : preserves (on (fun w => shadowGenerators (scene w)) prefix)
                  (ImportProject E path)) by go_import.
    apply H.
  - assert (H : preserves (on MeshesAssets_Meshes prefix)
                  (ImportProject E path)) by go_import.
    apply H.
  - assert (H : preserves (on PrefabAssets_Prefabs prefix)
                  (ImportProject E path)) by go_import.
    apply H.
  - assert (H : preserves (on trace prefix) (ImportProject E path)) by go_import.
    apply H.
Qed.

(** ** The registries *)

Section Appending.

Context {X : Type} (proj : World -> list X).

Lemma appending_nil {A} (m : M A) :
  preserves (on proj eq) m -> appending proj [] m.
Proof. intros H w. rewrite app_nil_r. symmetry. apply H. Qed.

Lemma appending_bind_total {A B} l1 l2 (m : M A) (k : A -> M B) :
  total m -> appending proj l1 m -> (forall a, appending proj l2 (k a)) ->
  appending proj (l1 ++ l2) (bind m k).
Proof.
  intros Ht Hm Hk w. unfold bind. specialize (Hm w). destruct (Ht w) as [a Ha].
  destruct (m w) as [w' r]; cbn in *; subst r.
  by rewrite Hk, Hm, app_assoc.
Qed.

Lemma appending_bind_nil {A B} l (m : M A) (k : A -> M B) :
  appending proj l m -> (forall a, appending proj [] (k a)) ->
  appending proj l (bind m k).
Proof.
  intros Hm Hk w. unfold bind. specialize (Hm w).
  destruct (m w) as [w' [a|]]; cbn in *; [|done].
  by rewrite Hk, app_nil_r.
Qed.

Lemma appending_forM {A} (f : A -> X) (body : A -> M unit) (l : list A) :
  (forall a, total (body a)) ->
  (forall a, appending proj [f a] (body a)) ->
  appending proj (map f l) (forM body l).
Proof.
  intros Ht Hb. unfold forM. generalize tt.
  induction l as [|a l IH]; intros u; cbn [foldM map].
  - intros w. cbn. by rewrite app_nil_r.
  - apply (appending_bind_total [f a] (map f l)); auto.
Qed.

End Appending.

Lemma configureAssets_meshes E dir project :
  appending MeshesAssets_Meshes (meshAssetsOf E dir project)
    (configureAssets E dir project).
Proof.
  unfold configureAssets, meshAssetsOf. apply appending_bind_nil.
  - apply appending_forM.
    + intros m. apply total_modify.
    + intros m w. reflexivity.
  - intros _. apply appending_nil. go_preserves; side_append.
Qed.

Lemma configureAssets_prefabs E dir project :
  appending PrefabAssets_Prefabs (prefabAssetsOf E dir project)
    (configureAssets E dir project).
Proof.
  unfold configureAssets, prefabAssetsOf.
  apply (appending_bind_total PrefabAssets_Prefabs []).
  - apply total_foldM. intros _ m. apply total_modify.
  - apply appending_nil. go_preserves; side_append.
  - intros _. destruct (p_assets_prefabs project) as [ps|]; cbn [default].
    + apply appending_forM.
      * intros m. apply total_modify.
      * intros m w. reflexivity.
    + intros w. cbn. by rewrite app_nil_r.
Qed.

Section Updating.

Context {X : Type} (proj : World -> X).

Lemma updating_id {A} (m : M A) :
  preserves (on proj eq) m -> updating proj id m.
Proof. intros H w. symmetry. apply H. Qed.

Lemma updating_bind_total {A B} f g (m : M A) (k : A -> M B) :
  total m -> updating proj f m -> (forall a, updating proj g (k a)) ->
  updating proj (g ∘ f) (bind m k).
Proof.
  intros Ht Hm Hk w. unfold bind. specialize (Hm w). destruct (Ht w) as [a Ha].
  destruct (m w) as [w' r]; cbn in *; subst r.
  by rewrite Hk, Hm.
Qed.

Lemma updating_bind_pre {A B} f (m : M A) (k : A -> M B) :
  total m -> updating proj id m -> (forall a, updating proj f (k a)) ->
  updating proj f (bind m k).
Proof. intros Ht Hm Hk. exact (updating_bind_total id f m k Ht Hm Hk). Qed.

Lemma updating_bind_id {A B} f (m : M A) (k : A -> M B) :
  updating proj f m -> (forall a, updating proj id (k a)) ->
  updating proj f (bind m k).
Proof.
  intros Hm Hk w. unfold bind. specialize (Hm w).
  destruct (m w) as [w' [a|]]; cbn in *; [|done].
  by rewrite Hk.
Qed.

End Updating.

Lemma appending_updating {X A} (proj : World -> list X) l (m : M A) :
  appending proj l m <-> updating proj (fun x => x ++ l) m.
Proof. done. Qed.

Lemma registerFiles_registry E dir l :
  updating FilesStore_List (registerAll E dir l) (forM (registerFile E dir) l).
Proof.
  unfold forM. generalize tt. induction l as [|f l IH]; intros u w; [done|].
  cbn [foldM registerAll foldl]. unfold bind at 1, registerFile at 1, modify at 1.
  cbn [fst snd]. rewrite IH. reflexivity.
Qed.

Lemma find_snoc {A} (P : A -> bool) (l : list A) (a : A) :
  List.find P (l ++ [a]) =
  match List.find P l with
  | Some x => Some x
  | None => if P a then Some a else None
  end.
Proof.
  induction l as [|b l IH]; cbn; [done|]. destruct (P b); [done|apply IH].
Qed.

Lemma registerAll_lookup E dir l st p :
  registerAll E dir l st !! p =
  match registeredLast E dir l p with
  | Some f => Some (mkFile p (basename E f))
  | None => st !! p
  end.
Proof.
  unfold registerAll, registeredLast. revert st.
  induction l as [|f l IH]; intros st; [done|].
  cbn [foldl rev]. rewrite IH, find_snoc.
  destruct (List.find _ (rev l)); [done|].
  destruct (String.eqb_spec (join E [dir; "files"; f]) p) as [->|Hne].
  - by rewrite lookup_insert_eq.
  - by rewrite lookup_insert_ne.
Qed.

Lemma ImportProject_updating {X} (proj : World -> X) f E path project :
  readProject E path = Some project ->
  (forall w, proj (beforeManifest E path w) = proj w) ->
  (forall e w, proj (emit e w) = proj w) ->
  updating proj f (afterManifest E path project) ->
  updating proj f (ImportProject E path).
Proof.
  intros Hp Hb He Ha w. unfold ImportProject, try_catch.
  rewrite _ImportProject_unfold, Hp.
  specialize (Ha (emit (ReadJSON path) (beforeManifest E path w))).
  rewrite He, Hb in Ha.
  destruct (afterManifest _ _ _ _) as [w1 [[]|]]; cbn [fst] in *; [done|].
  unfold _RefreshEditor, Overlay_Hide, bind, modify. cbn [fst snd].
  by rewrite !He.
Qed.

Lemma afterManifest_registry E path project :
  updating FilesStore_List
    (registerAll E (dirname E path ++ "/") (p_filesList project))
    (afterManifest E path project).
Proof.
  unfold afterManifest. cbv zeta.
  apply updating_bind_pre; [apply total_modify|done|intros _].
  apply updating_bind_id; [apply registerFiles_registry|intros _].
  apply updating_id. go_preserves; side_append.
Qed.

Lemma afterManifest_meshAssets E path project :
  appending MeshesAssets_Meshes
    (meshAssetsOf E (dirname E path ++ "/") project)
    (afterManifest E path project).
Proof.
  apply appending_updating. unfold afterManifest. cbv zeta.
  apply updating_bind_pre; [apply total_modify|done|intros _].
  apply updating_bind_pre; [apply registerFiles_total| |intros _].
  { apply updating_id. go_preserves; side_append. }
  apply updating_bind_id.
  { apply appending_updating, configureAssets_meshes. }
  intros _. apply updating_id. go_preserves; side_append.
Qed.

Lemma afterManifest_prefabAssets E path project :
  appending PrefabAssets_Prefabs
    (prefabAssetsOf E (dirname E path ++ "/") project)
    (afterManifest E path project).
Proof.
  apply appending_updating. unfold afterManifest. cbv zeta.
  apply updating_bind_pre; [apply total_modify|done|intros _].
  apply updating_bind_pre; [apply registerFiles_total| |intros _].
  { apply updating_id. go_preserves; side_append. }
  apply updating_bind_id.
  { apply appending_updating, configureAssets_prefabs. }
  intros _. apply updating_id. go_preserves; side_append.
Qed.

(** X5.  When the manifest cannot be read, [ImportProject] still returns
    normally, and what it leaves is exactly this: the scene, the file
    registry, the asset lists, the cache, the camera and the pipelines are
    those of before; the project path and directory are already those of the
    unreadable project; the texture parser stays wrapped; the overlay was
    shown, the read attempted, the editor refreshed and the overlay hidden. *)
Theorem unreadable_manifest_imports_nothing (E : Engine) (path : string)
    (w : World) :
  readProject E path = None ->
  let w' := fst (ImportProject E path w) in
  snd (ImportProject E path w) = Ok tt /\
  scene w' = scene w /\
  FilesStore_List w' = FilesStore_List w /\
  MeshesAssets_Meshes w' = MeshesAssets_Meshes w /\
  PrefabAssets_Prefabs w' = PrefabAssets_Prefabs w /\
  cachedData w' = cachedData w /\
  editorCamera w' = editorCamera w /\
  pipelines w' = pipelines w /\
  onReady w' = onReady w /\
  Project_Path w' = Some path /\
  Project_DirPath w' = Some (dirname E path ++ "/")%string /\
  _TextureParser w' = hookedTextureParser (_TextureParser w) /\
  trace w' = trace w ++ [OverlayShow "Importing Project..."; ReadJSON path;
                         AssetsRefresh; GraphRefresh; OverlayHide].
Proof.
  intros Hp w'. subst w'. unfold ImportProject, try_catch.
  rewrite _ImportProject_unfold, Hp.
  unfold _RefreshEditor, Overlay_Hide, bind, modify, beforeManifest.
  cbn. repeat split. by rewrite <- !app_assoc.
Qed.

Lemma unreadable_manifest_imports_nothing_witness :
  trace (fst (ImportProject emptyEngine "proj/scene.editorproject"
                (initialWorld emptyEngine)))
  = [OverlayShow "Importing Project..."; ReadJSON "proj/scene.editorproject";
     AssetsRefresh; GraphRefresh; OverlayHide].
Proof.
  apply (unreadable_manifest_imports_nothing emptyEngine
           "proj/scene.editorproject" (initialWorld emptyEngine)).
  reflexivity.
Defined.

(** X6.  Once the manifest is read, the file registry after the import,
    whether the rest of the import succeeds or is aborted, is the old
    registry with every listed file registered under its joined path: a path
    under which listed files were registered holds the entry of the last of
    them, with that path and the base name of the file, and every other path
    holds what it held before. *)
Theorem listed_files_are_registered (E : Engine) (path : string)
    (project : IProject) (w : World) :
  readProject E path = Some project ->
  let dir := (dirname E path ++ "/")%string in
  let w' := fst (ImportProject E path w) in
  (forall p,
     FilesStore_List w' !! p =
     match registeredLast E dir (p_filesList project) p with
     | Some f => Some (mkFile p (basename E f))
     | None => FilesStore_List w !! p
     end) /\
  (forall f, In f (p_filesList project) ->
     exists x, FilesStore_List w' !! join E [dir; "files"; f] = Some x /\
               f_path x = join E [dir; "files"; f]).
Proof.
  intros Hp dir w'.
  assert (H : forall p,
     FilesStore_List w' !! p =
     match registeredLast E dir (p_filesList project) p with
     | Some f => Some (mkFile p (basename E f))
     | None => FilesStore_List w !! p
     end).
  { intros p. subst w'.
    rewrite (ImportProject_updating FilesStore_List _ E path project Hp
               (fun _ => eq_refl) (fun _ _ => eq_refl)
               (afterManifest_registry E path project) w).
    apply registerAll_lookup. }
  split; [exact H|]. intros f Hin. rewrite H.
  destruct (registeredLast E dir (p_filesList project) _) as [g|] eqn:Hg;
    [by eexists|].
  exfalso. unfold registeredLast in Hg.
  apply in_rev in Hin. pose proof (List.find_none _ _ Hg f Hin) as Hf.
  cbv beta in Hf. by rewrite String.eqb_refl in Hf.
Qed.

Lemma listed_files_are_registered_witness :
  FilesStore_List (fst (ImportProject assetsEngine "proj/scene.editorproject"
                          (initialWorld assetsEngine)))
    !! "proj/files/logo.png"
  = Some (mkFile "proj/files/logo.png" "logo.png").
Proof.
  apply (proj1 (listed_files_are_registered assetsEngine
                  "proj/scene.editorproject" assetsProject
                  (initialWorld assetsEngine) eq_refl)
           "proj/files/logo.png").
Defined.

(** X7.  Once the manifest is read, the import appends one entry per mesh
    asset and per prefab of the manifest to the asset lists, in manifest
    order and without looking at what the lists hold, whether the rest of
    the import succeeds or is aborted: importing the same project a second
    time leaves every asset listed twice. *)
Theorem assets_are_appended_again (E : Engine) (path : string)
    (project : IProject) (w : World) :
  readProject E path = Some project ->
  let dir := (dirname E path ++ "/")%string in
  let w1 := fst (ImportProject E path w) in
  let w2 := fst (ImportProject E path w1) in
  MeshesAssets_Meshes w1 = MeshesAssets_Meshes w ++ meshAssetsOf E dir project /\
  PrefabAssets_Prefabs w1
    = PrefabAssets_Prefabs w ++ prefabAssetsOf E dir project /\
  MeshesAssets_Meshes w2
    = MeshesAssets_Meshes w ++ meshAssetsOf E dir project
                            ++ meshAssetsOf E dir project /\
  PrefabAssets_Prefabs w2
    = PrefabAssets_Prefabs w ++ prefabAssetsOf E dir project
                             ++ prefabAssetsOf E dir project.
Proof.
  intros Hp dir w1 w2.
  pose proof (ImportProject_updating MeshesAssets_Meshes _ E path project Hp
                (fun _ => eq_refl) (fun _ _ => eq_refl)
                (proj1 (appending_updating _ _ _)
                   (afterManifest_meshAssets E path project))) as Hm.
  pose proof (ImportProject_updating PrefabAssets_Prefabs _ E path project Hp
                (fun _ => eq_refl) (fun _ _ => eq_refl)
                (proj1 (appending_updating _ _ _)
                   (afterManifest_prefabAssets E path project))) as Hq.
  subst w2 w1. repeat split.
  - apply Hm.
  - apply Hq.
  - rewrite (Hm (fst (ImportProject E path w))), (Hm w). by rewrite <- app_assoc.
  - rewrite (Hq (fst (ImportProject E path w))), (Hq w). by rewrite <- app_assoc.
Qed.

Lemma assets_are_appended_again_witness :
  MeshesAssets_Meshes
    (fst (ImportProject assetsEngine "proj/scene.editorproject"
            (fst (ImportProject assetsEngine "proj/scene.editorproject"
                    (initialWorld assetsEngine)))))
  = [mkFile "proj/assets/meshes/tree.babylon" "tree.babylon";
     mkFile "proj/assets/meshes/tree.babylon" "tree.babylon"].
Proof.
  apply (proj1 (proj2 (proj2 (assets_are_appended_again assetsEngine
           "proj/scene.editorproject" assetsProject
           (initialWorld assetsEngine) eq_refl)))).
Defined.

(** ** The import of one mesh file *)

Section OneMesh.

Variable E : Engine.

Lemma connectParents_trace l :
  preserves (on trace eq) (forM (connectParent E) l).
Proof. go_preserves; side_preserves. Qed.

Lemma connectParents_identities l :
  preserves (on (identities KMesh) eq) (forM (connectParent E) l).
Proof.
  go_preserves; unfold on, identities;
    cbn [nodesOf scene set_scene meshes set_meshes alterNode];
    first [ reflexivity
          | rewrite map_alter_same by (intros ?; reflexivity); reflexivity ].
Qed.

(** The loader with a file it can load: the meshes of the file follow those
    of the scene, which keep their identity, and nothing is logged; the
    result, when the connection of the parents does not throw, holds the
    positions of the new meshes. *)
Lemma loader_state src w nis :
  ImportMeshAsync E src (scene w) = Some nis ->
  exists w1 r,
    SceneLoader_ImportMeshAsync E src w = (w1, r) /\
    trace w1 = trace w /\
    identities KMesh w1 = identities KMesh w ++ map (identity ∘ newNode) nis /\
    (r = Throw \/ r = Ok (seq (length (meshes (scene w))) (length nis))).
Proof.
  intros Hi. rewrite (loader_loads _ _ _ _ Hi).
  set (w0 := set_scene _ w). set (l := seq 0 _).
  pose proof (connectParents_trace l w0) as Ht.
  pose proof (connectParents_identities l w0) as Hd.
  unfold on in Ht, Hd. unfold bind.
  destruct (forM (connectParent E) l w0) as [w1 [[]|]]; cbn [fst] in *;
    eexists _, _; (split; [reflexivity|]).
  all: rewrite <- Hd, <- Ht.
  all: split; [done|]; split; [|by auto].
  all: unfold w0, identities; cbn; by rewrite map_app, map_map.
Qed.

Lemma waiting_turn json index m w v :
  entryParentId json index = Ok v ->
  (ms <- lift (jget (Some json) "meshes");
   mi <- lift (jidx ms index);
   parentId <- lift (jget mi "parentId");
   updMesh m (set_waiting parentId);;
   ret (S index)) w
  = (set_scene (set_meshes (alter (set_waiting v) m)) w, Ok (S index)).
Proof.
  unfold entryParentId. intros H. unfold bind, lift, updMesh, modify, ret.
  destruct (jget (Some json) "meshes") as [ms|]; [|done]. cbn [fst snd].
  destruct (jidx ms index) as [mi|]; [|done]. cbn [fst snd].
  by rewrite H.
Qed.

Lemma waiting_loop json n : forall base i0 w,
  (forall j, j < n -> exists v, entryParentId json (i0 + j) = Ok v) ->
  exists w',
    foldM (fun index m =>
             ms <- lift (jget (Some json) "meshes");
             mi <- lift (jidx ms index);
             parentId <- lift (jget mi "parentId");
             updMesh m (set_waiting parentId);;
             ret (S index)) i0 (seq base n) w = (w', Ok (i0 + n)) /\
    trace w' = trace w /\
    (forall j, j < base -> meshes (scene w') !! j = meshes (scene w) !! j) /\
    (forall j v, j < n -> entryParentId json (i0 + j) = Ok v ->
       meshes (scene w') !! (base + j)
       = set_waiting v <$> meshes (scene w) !! (base + j)).
Proof.
  induction n as [|n IH]; intros base i0 w Hr.
  - exists w. cbn. rewrite Nat.add_0_r. repeat split; try done. intros; lia.
  - destruct (Hr 0 ltac:(lia)) as [v0 Hv0]. rewrite Nat.add_0_r in Hv0.
    cbn [seq foldM]. unfold bind at 1.
    rewrite (waiting_turn json i0 base w v0 Hv0). cbn [fst snd].
    set (w1 := set_scene (set_meshes (alter (set_waiting v0) base)) w).
    destruct (IH (S base) (S i0) w1) as (w' & Hrun & Htr & Hlow & Hset).
    { intros j Hj. destruct (Hr (S j) ltac:(lia)) as [v Hv].
      exists v. by rewrite Nat.add_succ_comm. }
    exists w'. rewrite Hrun, Nat.add_succ_comm. repeat split; [done| |].
    + intros j Hj. rewrite Hlow by lia. subst w1. cbn.
      apply list_lookup_alter_ne. lia.
    + intros [|j] v Hj Hv.
      * rewrite Nat.add_0_r in *. rewrite Hlow by lia. subst w1. cbn.
        rewrite list_lookup_alter_eq. congruence.
      * rewrite <- Nat.add_succ_comm in *. rewrite (Hset j v) by (done || lia).
        subst w1. cbn. rewrite list_lookup_alter_ne by lia. done.
Qed.

Lemma ImportMesh_wellformed name json r f w nis :
  ImportMeshAsync E (FromFile r f) (scene w) = Some nis ->
  snd (SceneLoader_ImportMeshAsync E (FromFile r f) w) <> Throw ->
  (forall i, i < length nis -> exists v, entryParentId json i = Ok v) ->
  lodsOf json = Ok [] ->
  let base := length (meshes (scene w)) in
  exists w',
    ImportMesh E name json r f w = (w', Ok (seq base (length nis))) /\
    forall i ni v, nis !! i = Some ni -> entryParentId json i = Ok v ->
      exists n, meshes (scene w') !! (base + i) = Some n /\
                waitingKey n = (identity (newNode ni), v).
Proof.
  intros Hi Hok Hr Hl base. unfold ImportMesh.
  destruct (loader_state _ w nis Hi) as (w1 & r1 & Hs & _ & Hid & Hr1).
  rewrite Hs in Hok. destruct Hr1 as [->| ->]; [done|].
  rewrite (bind_run _ _ _ _ _ Hs). fold base.
  unfold bind at 1, logInfo at 1, modify at 1. cbn [fst snd].
  set (w2 := emit _ w1).
  destruct (waiting_loop json (length nis) base 0 w2 Hr)
    as (w3 & Hrun & _ & _ & Hset).
  unfold bind at 1. rewrite Hrun. cbn [fst snd].
  unfold lodsOf in Hl. unfold bind at 1, lift at 1.
  destruct (jget (Some json) "lods") as [lodsV|]; [|done]. cbn [fst snd].
  unfold bind at 1, lift at 1. rewrite Hl. cbn [fst snd].
  exists w3. split; [reflexivity|]. intros i ni v Hni Hv.
  assert (Hlt : i < length nis) by (by eapply lookup_lt_Some).
  specialize (Hset i v Hlt Hv).
  assert (H2 : identity <$> meshes (scene w2) !! (base + i)
               = Some (identity (newNode ni))).
  { change (meshes (scene w2)) with (nodesOf KMesh (scene w1)).
    rewrite <- list_lookup_fmap.
    change (identity <$> nodesOf KMesh (scene w1)) with (identities KMesh w1).
    rewrite Hid.
    unfold identities. cbn [nodesOf].
    rewrite lookup_app_r by (rewrite length_map; unfold base; lia).
    rewrite length_map. replace (_ + i - _) with i by (unfold base; lia).
    by rewrite list_lookup_fmap, Hni. }
  destruct (meshes (scene w2) !! (base + i)) as [n2|]; [|done].
  cbn in H2, Hset. injection H2 as H2 H3 H4.
  exists (set_waiting v n2). split; [done|].
  unfold waitingKey, identity. cbn. by rewrite H2, H3, H4.
Qed.

Lemma ImportMesh_without_lods name json r f w nis :
  ImportMeshAsync E (FromFile r f) (scene w) = Some nis ->
  lodsOf json = Throw ->
  exists w',
    ImportMesh E name json r f w = (w', Throw) /\
    errors (trace w') = errors (trace w) /\
    identities KMesh w' = identities KMesh w ++ map (identity ∘ newNode) nis.
Proof.
  intros Hi Hl. unfold ImportMesh.
  destruct (loader_state _ w nis Hi) as (w1 & r1 & Hs & Htr & Hid & Hr1).
  destruct Hr1 as [->| ->].
  { exists w1. unfold bind at 1. rewrite Hs. by rewrite Htr. }
  rewrite (bind_run _ _ _ _ _ Hs).
  unfold bind at 1, logInfo at 1, modify at 1. cbn [fst snd].
  set (w2 := emit _ w1).
  match goal with
  | |- context [foldM ?b 0%nat ?l] => set (loop := foldM b 0%nat l)
  end.
  assert (H1 : preserves (on (fun w => errors (trace w)) eq) loop).
  { subst loop. go_preserves; side_preserves. }
  assert (H2 : preserves (on (identities KMesh) eq) loop).
  { subst loop. go_preserves; unfold on, identities;
      cbn [nodesOf scene set_scene meshes set_meshes];
      first [ reflexivity
            | rewrite map_alter_same by (intros ?; reflexivity); reflexivity ]. }
  specialize (H1 w2). specialize (H2 w2). unfold on in H1, H2.
  assert (He : errors (trace w2) = errors (trace w)).
  { subst w2. cbn. unfold errors. rewrite omap_app, Htr. cbn.
    by rewrite app_nil_r. }
  assert (Hd : identities KMesh w2
               = identities KMesh w ++ map (identity ∘ newNode) nis)
    by exact Hid.
  unfold bind at 1. destruct (loop w2) as [w3 [a|]]; cbn [fst snd] in *.
  - exists w3. unfold lodsOf in Hl. unfold bind at 1, lift at 1.
    destruct (jget (Some json) "lods") as [lodsV|]; cbn [fst snd].
    + unfold bind at 1, lift at 1. rewrite Hl. cbn [fst snd].
      split; [done|]. by rewrite <- H1, <- H2.
    + split; [done|]. by rewrite <- H1, <- H2.
  - exists w3. split; [done|]. by rewrite <- H1, <- H2.
Qed.

End OneMesh.

Lemma readJSON_run E p w json :
  files E p = Some json -> readJSON E p w = (emit (ReadJSON p) w, Ok json).
Proof. intros H. unfold readJSON, bind, modify, ofOption. cbn. by rewrite H. Qed.

(** X8.  A mesh attempt that fails after the loader has run is not undone.
    When the mesh file is read and the loader loads its meshes, but the
    document has no iterable [lods], the attempt is reported as failed, once
    and under the name of the file, and yet the meshes the loader created
    are in the scene: the mesh list is the old one followed by them. *)
Theorem failed_attempt_keeps_its_meshes (E : Engine) (dir : string) (step sv : Q)
    (m : string) (w : World) (json : Json) (nis : list NodeInit) :
  files E (join E [dir; "meshes"; m]) = Some json ->
  ImportMeshAsync E (FromFile dir (join E ["meshes"; m])) (scene w) = Some nis ->
  lodsOf json = Throw ->
  let w' := fst (loadMesh E dir step sv m w) in
  meshAttemptOk E dir m w = false /\
  errors (trace w') = errors (trace w) ++ [failMessage m] /\
  identities KMesh w' = identities KMesh w ++ map (identity ∘ newNode) nis.
Proof.
  intros Hf Hi Hl w'. subst w'.
  set (w0 := emit (ReadJSON (join E [dir; "meshes"; m])) w).
  destruct (ImportMesh_without_lods E m json dir (join E ["meshes"; m]) w0 nis
              Hi Hl) as (w1 & Hrun & Herr & Hid).
  assert (Hm : importMeshFile E dir m w = (w1, Throw)).
  { unfold importMeshFile. rewrite (bind_run _ _ _ _ _ (readJSON_run E _ w json Hf)).
    fold w0. unfold bind at 1. by rewrite Hrun. }
  assert (Hw : fst (loadMesh E dir step sv m w)
               = emit (OverlaySetSpinnervalue (sv + step))
                   (emit (LogError (failMessage m)) w1)).
  { unfold loadMesh. unfold bind at 1. rewrite (try_catch_throw _ _ _ _ Hm).
    reflexivity. }
  rewrite Hw. unfold meshAttemptOk. rewrite Hm. split; [done|]. split.
  - cbn. unfold errors in *. rewrite !omap_app, Herr. cbn.
    rewrite omap_app. cbn. by rewrite !app_nil_r.
  - exact Hid.
Qed.

Lemma failed_attempt_keeps_its_meshes_witness :
  identities KMesh
    (fst (loadMesh noLodsEngine "proj/" 1 0 "a.json" (initialWorld noLodsEngine)))
  = [("a", "a", "Mesh")].
Proof.
  apply (failed_attempt_keeps_its_meshes noLodsEngine "proj/" 1 0 "a.json"
           (initialWorld noLodsEngine)
           (JObj [("meshes", JArr [JObj [("id", JStr "a")]])])
           [mkNodeInit "a" "a" "Mesh" None]).
  - reflexivity.
  - reflexivity.
  - reflexivity.
Defined.

(** X9.  [ImportMesh] pairs the meshes the loader returns with the entries
    of [json.meshes] by position.  When the loader returns, the document has
    a readable entry for each mesh of the result and lists no LOD, the call
    returns the loader's result, and the [i]-th mesh of the result, whatever
    its id, is in the scene with the id, name and class the loader gave it
    and waits for the parent id of the [i]-th entry of the document: what
    the loader had left in the field is overwritten. *)
Theorem imported_meshes_wait_by_position (E : Engine) (name : string)
    (json : Json) (rootUrl filename : string) (w : World)
    (nis : list NodeInit) :
  ImportMeshAsync E (FromFile rootUrl filename) (scene w) = Some nis ->
  snd (SceneLoader_ImportMeshAsync E (FromFile rootUrl filename) w) <> Throw ->
  (forall i, i < length nis -> exists v, entryParentId json i = Ok v) ->
  lodsOf json = Ok [] ->
  let base := length (meshes (scene w)) in
  let w' := fst (ImportMesh E name json rootUrl filename w) in
  snd (ImportMesh E name json rootUrl filename w)
    = Ok (seq base (length nis)) /\
  forall i ni v, nis !! i = Some ni -> entryParentId json i = Ok v ->
    exists n, meshes (scene w') !! (base + i) = Some n /\
              waitingKey n = (identity (newNode ni), v).
Proof.
  intros Hi Hok Hr Hl base w'. subst w'.
  destruct (ImportMesh_wellformed E name json rootUrl filename w nis
              Hi Hok Hr Hl) as (w' & Hrun & H).
  rewrite Hrun. split; [reflexivity|exact H].
Qed.

Lemma imported_meshes_wait_by_position_witness :
  exists n,
    meshes (scene (fst (ImportMesh childFirstEngine "b.json"
                          (meshFile [("b", Some "a")]) "proj/" "meshes/b.json"
                          (initialWorld childFirstEngine)))) !! 0 = Some n /\
    waitingKey n = ("b", "b", "Mesh", Some (JStr "a")).
Proof.
  apply (proj2 (imported_meshes_wait_by_position childFirstEngine "b.json"
           (meshFile [("b", Some "a")]) "proj/" "meshes/b.json"
           (initialWorld childFirstEngine)
           [mkNodeInit "b" "b" "Mesh" (Some (JStr "a"))]
           eq_refl ltac:(vm_compute; discriminate)
           ltac:(intros [|i] Hi; [by eexists | cbn in Hi; lia])
           eq_refl) 0 (mkNodeInit "b" "b" "Mesh" (Some (JStr "a")))
           (Some (JStr "a")) eq_refl eq_refl).
Defined.

(** ** The progress reported *)

Lemma ticks_app step n1 n2 sv :
  ticks step (n1 + n2) sv
  = ticks step n1 sv ++ ticks step n2 (advance step n1 sv).
Proof.
  revert sv. induction n1 as [|n1 IH]; intros sv; cbn; [done|].
  by rewrite IH.
Qed.

Lemma counts_foldM {A} step strict (body : Q -> A -> M Q) (l : list A) :
  counts step strict body ->
  forall sv, stairs step (if strict then length l else 0) (length l) sv
               (foldM body sv l).
Proof.
  intros Hb. induction l as [|a l IH]; intros sv w.
  - exists 0. cbn. rewrite app_nil_r. repeat split; try done.
    destruct strict; lia.
  - destruct (Hb sv a w) as (b & Hs & Hrun & Hp).
    destruct (IH (if b then (sv + step)%Q else sv) (fst (body sv a w)))
      as (n & Hn & Hr & Hq).
    assert (Hf : foldM body sv (a :: l) w
                 = foldM body (if b then (sv + step)%Q else sv) l
                     (fst (body sv a w))).
    { cbn [foldM]. by rewrite (bind_run _ _ _ _ _ Hrun). }
    rewrite Hf, Hq, Hp. cbn [length].
    destruct b.
    + exists (S n). cbn [ticks advance]. rewrite <- app_assoc.
      split; [destruct strict; lia|]. split; [|done].
      rewrite Hr at 1. reflexivity.
    + exists n. rewrite app_nil_r.
      split; [destruct strict; [by specialize (Hs eq_refl)|lia]|].
      split; [|done]. rewrite Hr at 1. reflexivity.
Qed.

Lemma counts_guarded {A B} step (attempt handler : A -> M B) :
  (forall a, preserves (on (fun w => progress (trace w)) eq) (attempt a)) ->
  (forall a, preserves (on (fun w => progress (trace w)) eq) (handler a)) ->
  (forall a, total (handler a)) ->
  counts step true
    (fun sv a => try_catch (attempt a) (handler a);;
                 Overlay_SetSpinnervalue (sv + step);;
                 ret (sv + step)%Q).
Proof.
  intros Ha Hh Ht sv a w. exists true. split; [done|].
  specialize (Ha a w). specialize (Hh a). unfold on in Ha, Hh.
  unfold bind, try_catch, Overlay_SetSpinnervalue, modify, ret.
  destruct (attempt a w) as [w1 [x|]]; cbn [fst snd] in *.
  - split; [done|]. unfold progress in *. cbn [trace emit].
    rewrite omap_app, Ha. reflexivity.
  - specialize (Hh w1). destruct (Ht a w1) as [x Hx].
    destruct (handler a w1) as [w2 r]; cbn [fst snd] in *. subst r.
    split; [done|]. unfold progress in *. cbn [fst trace emit].
    rewrite omap_app, <- Hh, Ha. reflexivity.
Qed.

Section Progress.

Variables (E : Engine) (dir rootUrl : string) (step : Q).

Lemma loadMesh_counts : counts step true (loadMesh E dir step).
Proof.
  apply (counts_guarded step (importMeshFile E dir)
           (fun m => logError ("Failed to load mesh " ++ quoted m))).
  - intros m. go_preserves; side_preserves.
  - intros m. go_preserves; side_preserves.
  - intros m. apply total_modify.
Qed.

Lemma loadMaterial_counts : counts step true (loadMaterial E dir rootUrl step).
Proof.
  apply (counts_guarded step
           (fun m => json <- readJSON E (join E [dir; "materials"; mr_json m]);
                     material <- (if isMultiMaterial m
                                  then MultiMaterial_ParseMultiMaterial E json
                                  else Material_Parse E rootUrl json);
                     logInfo ("Parsed material " ++ quoted (mr_json m));;
                     forM (bindMesh m material) (bindedMeshes m))
           (fun m => logError ("Failed to parse material " ++ quoted (mr_json m)))).
  - intros m. go_preserves; side_preserves.
  - intros m. go_preserves; side_preserves.
  - intros m. apply total_modify.
Qed.

Lemma loadLight_counts : counts step true (loadLight E dir step).
Proof.
  apply (counts_guarded step
           (fun l =>
              json <- readJSON E (join E [dir; "lights"; lr_json l]);
              sc <- gets scene;
              light <- ofOption (Light_Parse E json sc);
              modify (set_scene (set_lights (fun ls => ls ++ [newNode light])));;
              logInfo ("Parsed light " ++ quoted (lr_json l));;
              if truthyString (shadowGenerator l) then
                json' <- readJSON E (join E [dir; "shadows";
                                             default EmptyString (shadowGenerator l)]);
                ShadowGenerator_Parse E json';;
                logInfo ("Parsed shadows for light " ++ quoted (lr_json l))
              else ret tt)
           (fun _ => logError ("Failed to parse light " ++ quoted "[object Object]"))).
  - intros l. go_preserves; side_preserves.
  - intros l. go_preserves; side_preserves.
  - intros l. apply total_modify.
Qed.

Lemma loadCamera_counts : counts step true (loadCamera E dir step).
Proof.
  apply (counts_guarded step
           (fun c => json <- readJSON E (join E [dir; "cameras"; c]);
                     sc <- gets scene;
                     camera <- ofOption (Camera_Parse E json sc);
                     modify (set_scene (set_cameras
                               (fun cs => cs ++ [newNode camera])));;
                     logInfo ("Parsed camera " ++ quoted c))
           (fun c => logError ("Failed to parse camera " ++ quoted c))).
  - intros c. go_preserves; side_preserves.
  - intros c. go_preserves; side_preserves.
  - intros c. apply total_modify.
Qed.

End Progress.

Lemma counts_or_continue {A} step (attempt : A -> M Completion) :
  (forall a, preserves (on (fun w => progress (trace w)) eq) (attempt a)) ->
  (forall a, total (attempt a)) ->
  counts step false
    (fun sv a => c <- attempt a;
                 match c with
                 | Continue => ret sv
                 | Normal => Overlay_SetSpinnervalue (sv + step);;
                             ret (sv + step)%Q
                 end).
Proof.
  intros Ha Ht sv a w. specialize (Ha a w). destruct (Ht a w) as [c Hc].
  unfold on in Ha. unfold bind, Overlay_SetSpinnervalue, modify, ret.
  destruct (attempt a w) as [w1 r]; cbn [fst snd] in *. subst r.
  destruct c.
  - exists true. split; [done|]. split; [done|]. unfold progress in *.
    cbn [fst trace emit]. rewrite omap_app, Ha. reflexivity.
  - exists false. split; [done|]. split; [done|]. cbn [fst].
    by rewrite app_nil_r.
Qed.

Section Staircase.

Variable step : Q.

Lemma climbing_neutral {A} sv (m : M A) :
  preserves (on (fun w => progress (trace w)) eq) m -> climbing step 0 0 sv m.
Proof.
  intros H w. exists 0. split; [lia|]. cbn. rewrite app_nil_r.
  symmetry. apply H.
Qed.

Lemma climbing_bind_neutral {A B} lo hi sv (m : M A) (k : A -> M B) :
  total m -> preserves (on (fun w => progress (trace w)) eq) m ->
  (forall a, climbing step lo hi sv (k a)) ->
  climbing step lo hi sv (bind m k).
Proof.
  intros Ht Hp Hk w. specialize (Hp w). destruct (Ht w) as [a Ha].
  unfold on in Hp. unfold bind.
  destruct (m w) as [w1 r]; cbn [fst snd] in *. subst r.
  destruct (Hk a w1) as (n & Hn & Hq). exists n. by rewrite Hq, Hp.
Qed.

Lemma climbing_bind_stairs {B} lo1 hi1 lo2 hi2 sv (m : M Q) (k : Q -> M B) :
  stairs step lo1 hi1 sv m ->
  (forall v, climbing step lo2 hi2 v (k v)) ->
  climbing step (lo1 + lo2) (hi1 + hi2) sv (bind m k).
Proof.
  intros Hm Hk w. destruct (Hm w) as (n1 & Hn1 & Hr & Hq).
  rewrite (bind_run _ _ _ _ _ Hr).
  destruct (Hk (advance step n1 sv) (fst (m w))) as (n2 & Hn2 & Hq2).
  exists (n1 + n2). split; [lia|].
  by rewrite Hq2, Hq, ticks_app, app_assoc.
Qed.

Lemma stairs_message lo hi sv msg (m : M Q) :
  stairs step lo hi sv m -> stairs step lo hi sv (Overlay_SetMessage msg;; m).
Proof.
  intros Hm w. unfold bind at 1 2 3, Overlay_SetMessage, modify. cbn [fst snd].
  destruct (Hm (emit (OverlaySetMessage msg) w)) as (n & Hn & Hr & Hq).
  exists n. split; [done|]. split; [by rewrite Hr at 1|].
  rewrite Hq. unfold progress. cbn [trace emit]. rewrite omap_app. cbn.
  by rewrite app_nil_r.
Qed.

Lemma loadEntities_climbing E dir rootUrl project :
  climbing step
    (length (p_meshes project) + (length (p_materials project)
       + (0 + (length (p_lights project) + (length (p_cameras project) + 0)))))
    (length (p_meshes project) + (length (p_materials project)
       + (length (p_textures project)
          + (length (p_lights project) + (length (p_cameras project) + 0)))))
    0 (loadEntities E dir rootUrl step project).
Proof.
  unfold loadEntities.
  apply climbing_bind_stairs.
  { apply stairs_message, (counts_foldM step true), loadMesh_counts. }
  intros v1. apply climbing_bind_neutral.
  { apply loadTransformNodes_total. }
  { go_preserves; side_preserves. }
  intros _. apply climbing_bind_neutral.
  { apply loadImpostors_total. }
  { go_preserves; side_preserves. }
  intros _. apply climbing_bind_stairs.
  { apply stairs_message, (counts_foldM step true), loadMaterial_counts. }
  intros v2. apply climbing_bind_stairs.
  { apply stairs_message.
    apply (counts_foldM step false (loadTexture E dir rootUrl step)).
    apply (counts_or_continue step
             (fun t =>
                try_catch
                  (json <- readJSON E (join E [dir; "textures"; t]);
                   uniqueId <- lift (jget (Some json) "uniqueId");
                   existing <- gets (fun w =>
                                 getTextureByUniqueID (scene w) uniqueId);
                   match existing with
                   | Some _ => ret Continue
                   | None =>
                       sc <- gets scene;
                       tex <- ofOption (Texture_Parse E json sc rootUrl);
                       modify (set_scene (set_textures (fun l => l ++ [tex])));;
                       logInfo ("Parsed texture " ++ quoted t);;
                       ret Normal
                   end)
                  (logError ("Failed to parse texture " ++ quoted t);;
                   ret Normal))).
    - intros t. go_preserves; side_preserves.
    - intros t. apply total_try. unfold logError. repeat step_total. }
  intros v3. apply climbing_bind_stairs.
  { apply stairs_message, (counts_foldM step true), loadLight_counts. }
  intros v4. apply climbing_bind_stairs.
  { apply stairs_message, (counts_foldM step true), loadCamera_counts. }
  intros v5. apply climbing_neutral. go_preserves; side_preserves.
Qed.

End Staircase.

Lemma afterManifest_progress E path project w :
  exists n,
    totalUnits project - length (p_textures project) <= n <= totalUnits project /\
    progress (trace (fst (afterManifest E path project w)))
    = progress (trace w) ++ 0%Q :: ticks (spinnerStepOf project) n 0.
Proof.
  unfold afterManifest. cbv zeta.
  unfold bind at 1, Overlay_SetSpinnervalue at 1, modify at 1. cbn [fst snd].
  set (w1 := emit (OverlaySetSpinnervalue 0) w).
  match goal with
  | |- context [fst (?m w1)] =>
      assert (Hc : climbing (spinnerStepOf project)
                     (length (p_meshes project) + (length (p_materials project)
                        + (0 + (length (p_lights project)
                                + (length (p_cameras project) + 0)))))
                     (length (p_meshes project) + (length (p_materials project)
                        + (length (p_textures project)
                           + (length (p_lights project)
                              + (length (p_cameras project) + 0)))))
                     0 m)
  end.
  { apply climbing_bind_neutral;
      [apply registerFiles_total | go_preserves; side_preserves | intros _].
    apply climbing_bind_neutral;
      [apply configureAssets_total | go_preserves; side_preserves | intros _].
    apply climbing_bind_neutral;
      [apply total_modify | go_preserves; side_preserves | intros _].
    apply climbing_bind_neutral;
      [apply total_modify | go_preserves; side_preserves | intros _].
    apply loadEntities_climbing. }
  destruct (Hc w1) as (n & Hn & Hq). exists n. split.
  { unfold totalUnits. lia. }
  rewrite Hq. subst w1. unfold progress. cbn [trace emit].
  rewrite omap_app. cbn. by rewrite <- app_assoc.
Qed.

(** X10.  The progress an import reports, once its manifest is read and
    whether or not it is aborted afterwards, is a staircase: 0 first, then
    [n] values, each the sum of the one before and the step, where [n]
    counts the turns of the mesh, material, light and camera loops and the
    turns of the texture loop that did not end by [continue]; so [n] is the
    number of entities of the project when it has no texture, and at least
    that number less the textures otherwise.  Transform nodes, physics
    impostors, post-processes, the cache, the parent pass and the refresh
    report nothing. *)
Theorem progress_is_a_staircase (E : Engine) (path : string)
    (project : IProject) (w : World) :
  readProject E path = Some project ->
  let step := spinnerStepOf project in
  let w' := fst (ImportProject E path w) in
  exists n,
    totalUnits project - length (p_textures project) <= n <= totalUnits project /\
    progress (trace w') = progress (trace w) ++ 0%Q :: ticks step n 0 /\
    length (ticks step n 0) = n /\
    (p_textures project = [] -> n = totalUnits project).
Proof.
  intros Hp step w'. subst w'.
  assert (Hw : progress (trace (fst (ImportProject E path w)))
               = progress (trace (fst (afterManifest E path project
                    (emit (ReadJSON path) (beforeManifest E path w)))))).
  { unfold ImportProject, try_catch. rewrite _ImportProject_unfold, Hp.
    destruct (afterManifest _ _ _ _) as [w1 [[]|]]; cbn [fst]; [done|].
    unfold _RefreshEditor, Overlay_Hide, bind, modify. cbn [fst snd].
    unfold progress. cbn [trace emit]. rewrite !omap_app. cbn.
    by rewrite !app_nil_r. }
  destruct (afterManifest_progress E path project
              (emit (ReadJSON path) (beforeManifest E path w)))
    as (n & Hn & Hq).
  exists n. split; [done|]. split.
  { rewrite Hw, Hq. unfold progress, beforeManifest. cbn [trace emit set_Project
      set_TextureParser]. rewrite !omap_app. cbn. by rewrite !app_nil_r. }
  split.
  - clear. generalize 0%Q. induction n; intros; cbn; [done|]. by rewrite IHn.
  - intros Ht. rewrite Ht in Hn. cbn [length] in Hn. lia.
Qed.

Lemma progress_is_a_staircase_witness :
  exists n,
    progress (trace (fst (ImportProject twinTexturesEngine "proj/project.json"
                            (initialWorld twinTexturesEngine))))
    = 0%Q :: ticks (spinnerStepOf (demoProject [] ["t1"; "t2"] [])) n 0.
Proof.
  destruct (progress_is_a_staircase twinTexturesEngine "proj/project.json"
              (demoProject [] ["t1"; "t2"] [])
              (initialWorld twinTexturesEngine) eq_refl) as (n & _ & H & _).
  exists n. exact H.
Defined.

(** ** Physics impostors *)

Lemma loadImpostor_run g pre m post w :
  meshes (scene w) = pre ++ m :: post ->
  exists w',
    loadImpostor g (length pre) w = (w', Ok tt) /\
    meshes (scene w') = pre ++ withImpostor g m :: post /\
    trace w' = trace w ++ [impostorLog g m].
Proof.
  intros Hm. unfold loadImpostor, bind at 1, gets at 1. cbn [fst snd].
  rewrite Hm, list_lookup_middle by done.
  unfold withImpostor, impostorLog, try_catch, bind, lift, updMesh, logInfo,
    logError, modify.
  destruct (g m) as [imp|]; cbn [fst snd].
  - eexists. split; [reflexivity|]. cbn. rewrite Hm. split; [|done].
    rewrite alter_app_r_alt by done. by rewrite Nat.sub_diag.
  - eexists. split; [reflexivity|]. cbn. by rewrite Hm.
Qed.

Lemma loadImpostors_from g post : forall pre w,
  meshes (scene w) = pre ++ post ->
  exists w',
    forM (loadImpostor g) (seq (length pre) (length post)) w = (w', Ok tt) /\
    meshes (scene w') = pre ++ map (withImpostor g) post /\
    trace w' = trace w ++ map (impostorLog g) post.
Proof.
  induction post as [|m post IH]; intros pre w Hm.
  - exists w. cbn. rewrite !app_nil_r in *. done.
  - destruct (loadImpostor_run g pre m post w Hm) as (w1 & Hrun & Hm1 & Ht1).
    destruct (IH (pre ++ [withImpostor g m]) w1) as (w2 & Hrun2 & Hm2 & Ht2).
    { by rewrite Hm1, <- app_assoc. }
    exists w2. rewrite length_app, Nat.add_1_r in Hrun2.
    cbn [length seq map]. unfold forM in *. cbn [foldM].
    rewrite (bind_run _ _ _ _ _ Hrun). split; [exact Hrun2|].
    rewrite Hm2, Ht2, Ht1, <- !app_assoc. done.
Qed.

(** X11.  With a physics engine, the impostor block asks it for the impostor
    of every mesh of the scene, those of earlier imports included, in scene
    order: a mesh the engine answers for gets that impostor, a mesh for
    which it throws is left as it was, and the failure stops neither the
    block nor the import; exactly one line is logged per mesh.  So after
    the block the impostor of a mesh is the one the engine answered, or the
    one the mesh had when the engine threw, and nothing else of the mesh
    has changed.  Without a physics engine the block does nothing. *)
Theorem impostors_are_set_per_mesh (E : Engine) (w : World) :
  match physicsEngine E with
  | Some getImpostor =>
      let w' := fst (loadImpostors E w) in
      snd (loadImpostors E w) = Ok tt /\
      meshes (scene w') = map (withImpostor getImpostor) (meshes (scene w)) /\
      trace w' = trace w ++ map (impostorLog getImpostor) (meshes (scene w)) /\
      forall i m, meshes (scene w) !! i = Some m ->
        exists m',
          meshes (scene w') !! i = Some m' /\
          n_physicsImpostor m' =
            match getImpostor m with
            | Ok imp => imp
            | Throw => n_physicsImpostor m
            end /\
          identity m' = identity m /\ n_parent m' = n_parent m /\
          _waitingParentId m' = _waitingParentId m /\
          n_material m' = n_material m /\ n_lodLevels m' = n_lodLevels m
  | None => loadImpostors E w = (w, Ok tt)
  end.
Proof.
  unfold loadImpostors. destruct (physicsEngine E) as [g|]; [|done].
  destruct (loadImpostors_from g (meshes (scene w)) [] w eq_refl)
    as (w' & Hrun & Hm & Ht).
  cbn [length] in Hrun.
  assert (Hw : (n <- gets (fun w => length (meshes (scene w)));
                forM (loadImpostor g) (seq 0 n)) w = (w', Ok tt)).
  { unfold bind, gets. cbn [fst snd]. exact Hrun. }
  rewrite Hw. cbn [fst snd app] in *. repeat split; try done.
  intros i m Hi. exists (withImpostor g m).
  rewrite Hm, list_lookup_fmap, Hi. split; [done|].
  unfold withImpostor. by destruct (g m).
Qed.

(** ** Lights *)

Lemma loadLight_errors E dir step sv l w :
  exists b : bool,
    errors (trace (fst (loadLight E dir step sv l w)))
    = errors (trace w) ++ (if b then [lightFailure] else []).
Proof.
  unfold loadLight.
  match goal with
  | |- context [try_catch ?m ?h] =>
      assert (Hm : preserves (on (fun w => errors (trace w)) eq) m)
        by (go_preserves; side_preserves);
      specialize (Hm w); unfold on in Hm;
      unfold bind at 1, try_catch; destruct (m w) as [w1 [[]|]]
  end; cbn [fst snd] in *.
  - exists false. unfold Overlay_SetSpinnervalue, bind, modify, ret.
    cbn [fst snd]. unfold errors in *. cbn [trace emit].
    rewrite omap_app, <- Hm. cbn. by rewrite !app_nil_r.
  - exists true. unfold logError, Overlay_SetSpinnervalue, bind, modify, ret.
    cbn [fst snd]. unfold errors in *. cbn [trace emit].
    rewrite !omap_app, <- Hm. cbn. by rewrite !app_nil_r.
Qed.

(** X12.  The errors of the light loop do not tell which light failed.  The
    loop logs at most one error per light record, and every one of them is
    the same line, in which the record is interpolated as an object rather
    than by its file name. *)
Theorem light_failures_are_anonymous (E : Engine) (dir : string) (step sv : Q)
    (project : IProject) (w : World) :
  exists k, k <= length (p_lights project) /\
    errors (trace (fst (loadLights E dir step sv project w)))
    = errors (trace w) ++ replicate k lightFailure.
Proof.
  unfold loadLights, bind at 1, Overlay_SetMessage, modify. cbn [fst snd].
  set (w0 := emit _ w).
  assert (H0 : errors (trace w0) = errors (trace w)).
  { subst w0. unfold errors. cbn [trace emit]. rewrite omap_app. cbn.
    by rewrite app_nil_r. }
  rewrite <- H0. clearbody w0. clear H0 w.
  revert sv w0. induction (p_lights project) as [|l ls IH]; intros sv w.
  - exists 0. cbn. by rewrite app_nil_r.
  - destruct (loadLight_errors E dir step sv l w) as [b Hb].
    destruct (loadLight_total E dir step sv l w) as [v Hv].
    cbn [foldM]. unfold bind.
    destruct (loadLight E dir step sv l w) as [w1 r]; cbn [fst snd] in *.
    subst r. destruct (IH v w1) as (k & Hk & He).
    exists ((if b then 1 else 0) + k). split; [destruct b; cbn; lia|].
    rewrite He, Hb, <- app_assoc. by destruct b.
Qed.

(** X13.  A light whose shadow generator cannot be read stays in the scene.
    When the light file is read and parsed and the record names a shadow
    generator file that is missing, the turn logs the light as parsed, then
    logs the failure; the light remains the last light of the scene, no
    shadow generator is added, and the progress advances. *)
Theorem light_survives_failed_shadows (E : Engine) (dir : string) (step sv : Q)
    (l : LightRecord) (w : World) (json : Json) (light : NodeInit)
    (shadows : string) :
  files E (join E [dir; "lights"; lr_json l]) = Some json ->
  Light_Parse E json (scene w) = Some light ->
  shadowGenerator l = Some shadows ->
  shadows <> EmptyString ->
  files E (join E [dir; "shadows"; shadows]) = None ->
  let w' := fst (loadLight E dir step sv l w) in
  snd (loadLight E dir step sv l w) = Ok (sv + step)%Q /\
  lights (scene w') = lights (scene w) ++ [newNode light] /\
  shadowGenerators (scene w') = shadowGenerators (scene w) /\
  trace w' = trace w ++
    [ReadJSON (join E [dir; "lights"; lr_json l]);
     LogInfo ("Parsed light " ++ quoted (lr_json l));
     ReadJSON (join E [dir; "shadows"; shadows]);
     LogError lightFailure;
     OverlaySetSpinnervalue (sv + step)].
Proof.
  intros Hf Hl Hs Hne Hn w'. subst w'.
  assert (Ht : truthyString (shadowGenerator l) = true).
  { rewrite Hs. cbn. by destruct (String.eqb_spec shadows EmptyString). }
  unfold loadLight, try_catch, readJSON, logInfo, logError,
    Overlay_SetSpinnervalue, bind, modify, gets, ofOption, ret, throw.
  cbn [fst snd trace scene emit]. rewrite Hf. cbn [fst snd trace scene emit].
  rewrite Hl. cbn [fst snd]. rewrite Ht, Hs.
  change (default EmptyString (Some shadows)) with shadows.
  rewrite Hn. cbn. repeat split. by rewrite <- !app_assoc.
Qed.

Lemma impostors_are_set_per_mesh_witness :
  map n_physicsImpostor
    (meshes (scene (fst (loadImpostors (withPhysics childFirstEngine demoImpostor)
       (set_scene (fun _ => childFirstScene) (initialWorld childFirstEngine))))))
  = [None; Some 0].
Proof.
  pose proof (impostors_are_set_per_mesh
                (withPhysics childFirstEngine demoImpostor)
                (set_scene (fun _ => childFirstScene)
                   (initialWorld childFirstEngine))) as H.
  cbn [physicsEngine withPhysics] in H. destruct H as (_ & H & _).
  rewrite H. reflexivity.
Defined.

Lemma light_survives_failed_shadows_witness :
  map n_id (lights (scene (fst
     (loadLight sunEngine "proj/" 1 0 sunRecord (initialWorld sunEngine)))))
  = ["sun"].
Proof.
  destruct (light_survives_failed_shadows sunEngine "proj/" 1 0 sunRecord
              (initialWorld sunEngine) (JObj [("id", JStr "sun")])
              (mkNodeInit "sun" "sun" "PointLight" None) "sun-shadows.json")
    as (_ & H & _).
  - reflexivity.
  - reflexivity.
  - reflexivity.
  - discriminate.
  - reflexivity.
  - rewrite H. reflexivity.
Defined.

(** ** The loader and the waiting parents *)

Section Connecting.

Variable E : Engine.




End Connecting.



(** The scenario on the whole import: the child is listed two files before
    its parent.  When the file in between is loaded there is no mesh ["a"]
    yet; the loader leaves the child without parent and without waiting id,
    and so does the import. *)
Example child_loaded_two_files_before_parent :
  let r := ImportProject straysEngine "proj/project.json"
             (initialWorld straysEngine) in
  snd r = Ok tt /\
  map (fun n => (n_id n, n_parent n, _waitingParentId n)) (meshes (scene (fst r)))
    = [("b", None, Some JNull); ("c", None, None); ("a", None, None)].
Proof. cbn zeta. split; vm_compute; reflexivity. Qed.

(** * The mesh assets panel *)

Section PanelFacts.

Variables (E : Engine) (V : PanelEnv).

Lemma find_key_Some (its : list IAssetComponentItem) k i :
  List.find (fun i => String.eqb (item_key i) k) its = Some i ->
  k ∈ map item_key its.
Proof.
  intros H. apply List.find_some in H as [Hin Hk].
  apply String.eqb_eq in Hk. subst k.
  apply list_elem_of_fmap. exists i. split; [done|]. by apply list_elem_of_In.
Qed.

Lemma find_key_None (its : list IAssetComponentItem) k :
  List.find (fun i => String.eqb (item_key i) k) its = None ->
  k ∉ map item_key its.
Proof.
  intros H Hin. apply list_elem_of_fmap in Hin as (i & -> & Hi).
  apply list_elem_of_In in Hi.
  pose proof (List.find_none _ _ H i Hi) as Hf. cbv beta in Hf.
  by rewrite String.eqb_refl in Hf.
Qed.

Lemma refreshMesh_spec m p :
  let p' := fst (refreshMesh E V m p) in
  Meshes p' = Meshes p /\ DirPath p' = DirPath p /\
  ((items p' = items p /\
    (f_path m ∈ keys p \/ snd (refreshMesh E V m p) = Throw))
   \/ ((f_path m ∉ keys p) /\
       exists it, items p' = items p ++ [it] /\
                  item_key it = f_path m /\ item_id it = f_name m)).
Proof.
  unfold refreshMesh, tbind, tgets, tmodify, tofOption, tret, await, keys.
  cbn [fst snd].
  destruct (List.find _ (items p)) as [i|] eqn:Hf; cbn [fst snd].
  { split; [done|]. split; [done|]. left. split; [done|]. left.
    by eapply find_key_Some. }
  apply find_key_None in Hf.
  destruct (DirPath p) as [dir|] eqn:Hd; cbn [fst snd];
    [|split; [done|]; split; [done|]; left; split; [done|by right]].
  destruct (helper_importMesh V _ _ _); cbn [fst snd];
    [|split; [done|]; split; [done|]; left; split; [done|by right]].
  destruct (helper_getScreenshot V _) as [b64|]; cbn [fst snd];
    [|split; [done|]; split; [done|]; left; split; [done|by right]].
  split; [done|]. split; [done|]. right. split; [done|].
  eexists. split; [reflexivity|]. done.
Qed.

Lemma refreshMesh_ok m p :
  snd (refreshMesh E V m p) = Ok tt ->
  f_path m ∈ keys (fst (refreshMesh E V m p)).
Proof.
  intros Hok. destruct (refreshMesh_spec m p) as (_ & _ & [[Hi [H|H]]|H]).
  - unfold keys in *. by rewrite Hi.
  - congruence.
  - destruct H as (_ & it & Hi & Hk & _). unfold keys. rewrite Hi, map_app.
    apply elem_of_app. right. cbn. rewrite Hk. apply list_elem_of_here.
Qed.

Lemma refreshMesh_skip m p :
  f_path m ∈ keys p -> refreshMesh E V m p = (p, Ok tt).
Proof.
  intros Hin. unfold refreshMesh, tbind, tgets, tret. cbn [fst snd].
  destruct (List.find _ (items p)) eqn:Hf; [done|].
  by apply find_key_None in Hf.
Qed.

Lemma refreshLoop_spec ms : forall p,
  let p' := fst (tforM (refreshMesh E V) ms p) in
  Meshes p' = Meshes p /\ DirPath p' = DirPath p /\
  items p `prefix_of` items p' /\
  (NoDup (keys p) -> NoDup (keys p')) /\
  (forall k, k ∈ keys p' -> k ∈ keys p \/ k ∈ map f_path ms) /\
  (snd (tforM (refreshMesh E V) ms p) = Ok tt ->
   forall m, m ∈ ms -> f_path m ∈ keys p').
Proof.
  induction ms as [|m ms IH]; intros p; cbn [tforM].
  { cbn. repeat split; try done. - by left. - intros _ m Hm. by apply elem_of_nil in Hm. }
  destruct (refreshMesh_spec m p) as (Hm1 & Hd1 & Hcase).
  pose proof (refreshMesh_ok m p) as Hok1.
  unfold tbind. destruct (refreshMesh E V m p) as [p1 [[]|]]; cbn [fst snd] in *.
  - destruct (IH p1) as (Hm2 & Hd2 & Hpre & Hnd & Hnew & Hcov).
    split; [congruence|]. split; [congruence|].
    assert (Hp1 : items p `prefix_of` items p1).
    { destruct Hcase as [[-> _]|(_ & it & -> & _)]; [done|by apply prefix_app_r]. }
    assert (Hn1 : NoDup (keys p) -> NoDup (keys p1)).
    { unfold keys. destruct Hcase as [[-> _]|(Hni & it & -> & Hk & _)]; [done|].
      intros Hn. rewrite map_app. apply NoDup_app. split; [done|]. split.
      - intros k Hk1 Hk2. cbn in Hk2. apply list_elem_of_singleton in Hk2.
        subst k. by rewrite Hk in Hk1.
      - cbn. apply NoDup_singleton. }
    assert (Hk1 : forall k, k ∈ keys p1 -> k ∈ keys p \/ k = f_path m).
    { unfold keys. destruct Hcase as [[-> _]|(_ & it & -> & Hk & _)];
        [by left|].
      intros k Hin. rewrite map_app in Hin. apply elem_of_app in Hin as [?|Hin];
        [by left|]. cbn in Hin. apply list_elem_of_singleton in Hin.
      right. congruence. }
    split; [by etrans|]. split; [auto|]. split.
    + intros k Hin. destruct (Hnew k Hin) as [H1|H1].
      * destruct (Hk1 k H1) as [?| ->]; [by left|]. right. cbn.
        apply list_elem_of_here.
      * right. cbn. by apply list_elem_of_further.
    + intros Hok m' Hin. apply elem_of_cons in Hin as [->|Hin]; [|by apply Hcov].
      specialize (Hok1 eq_refl). unfold keys in *.
      destruct Hpre as [l ->]. rewrite map_app. apply elem_of_app. by left.
  - split; [done|]. split; [done|]. split.
    { destruct Hcase as [[-> _]|(_ & it & -> & _)]; [done|by apply prefix_app_r]. }
    split.
    { unfold keys. destruct Hcase as [[-> _]|(Hni & it & -> & Hk & _)]; [done|].
      intros Hn. rewrite map_app. apply NoDup_app. split; [done|]. split.
      - intros k Hk1 Hk2. cbn in Hk2. apply list_elem_of_singleton in Hk2.
        subst k. by rewrite Hk in Hk1.
      - cbn. apply NoDup_singleton. }
    split; [|done].
    unfold keys. destruct Hcase as [[-> _]|(_ & it & -> & Hk & _)]; [by left|].
    intros k Hin. rewrite map_app in Hin. apply elem_of_app in Hin as [?|Hin];
      [by left|]. cbn in Hin. apply list_elem_of_singleton in Hin.
    right. cbn. rewrite Hin, Hk. apply list_elem_of_here.
Qed.

Lemma refreshLoop_skip ms : forall p,
  (forall m, m ∈ ms -> f_path m ∈ keys p) ->
  tforM (refreshMesh E V) ms p = (p, Ok tt).
Proof.
  induction ms as [|m ms IH]; intros p H; cbn [tforM]; [done|].
  unfold tbind. rewrite refreshMesh_skip by (apply H, list_elem_of_here).
  apply IH. intros m' Hm'. by apply H, list_elem_of_further.
Qed.

Lemma MeshesAssets_refresh_items p :
  items (fst (MeshesAssets_refresh E V p))
  = if helper_init V (length (calls p))
    then items (fst (tforM (refreshMesh E V) (Meshes p) (record HelperInit p)))
    else items p.
Proof.
  unfold MeshesAssets_refresh, AbstractAssets_refresh, tbind, await, tgets,
    tmodify. cbn [fst snd].
  destruct (helper_init V _); cbn [fst snd]; [|done].
  by destruct (tforM _ _ _) as [p1 [[]|]].
Qed.

Lemma MeshesAssets_refresh_Meshes p :
  Meshes (fst (MeshesAssets_refresh E V p)) = Meshes p.
Proof.
  unfold MeshesAssets_refresh, AbstractAssets_refresh, tbind, await, tgets,
    tmodify. cbn [fst snd].
  destruct (helper_init V _); cbn [fst snd]; [|done].
  destruct (refreshLoop_spec (Meshes p) (record HelperInit p)) as (Hm & _).
  by destruct (tforM _ _ _) as [p1 [[]|]].
Qed.

Lemma MeshesAssets_refresh_ok p :
  snd (MeshesAssets_refresh E V p) = Ok tt ->
  helper_init V (length (calls p)) = true /\
  snd (tforM (refreshMesh E V) (Meshes p) (record HelperInit p)) = Ok tt.
Proof.
  unfold MeshesAssets_refresh, AbstractAssets_refresh, tbind, await, tgets,
    tmodify. cbn [fst snd].
  destruct (helper_init V _); cbn [fst snd]; [|done].
  by destruct (tforM _ _ _) as [p1 [[]|]].
Qed.

End PanelFacts.

(** X15.  A refresh of the mesh assets panel, run to completion or aborted
    by a rejected call, never removes or reorders an item and leaves the
    list of registered meshes alone; it creates items only for registered
    meshes and never one for a key that is already shown, so keys that were
    distinct stay distinct, however often a mesh is registered.  When it
    completes, every registered mesh has its item, and a second refresh
    creates nothing. *)
Theorem refresh_shows_each_mesh_once (E : Engine) (V : PanelEnv) (p : Panel) :
  let p' := fst (MeshesAssets_refresh E V p) in
  items p `prefix_of` items p' /\
  Meshes p' = Meshes p /\
  (NoDup (keys p) -> NoDup (keys p')) /\
  (forall k, k ∈ keys p' -> k ∈ keys p \/ k ∈ map f_path (Meshes p)) /\
  (snd (MeshesAssets_refresh E V p) = Ok tt ->
     (forall m, m ∈ Meshes p -> f_path m ∈ keys p') /\
     items (fst (MeshesAssets_refresh E V p')) = items p').
Proof.
  intros p'.
  pose proof (MeshesAssets_refresh_items E V p) as Hi. fold p' in Hi.
  pose proof (MeshesAssets_refresh_Meshes E V p) as Hm. fold p' in Hm.
  pose proof (MeshesAssets_refresh_ok E V p) as Hok.
  destruct (refreshLoop_spec E V (Meshes p) (record HelperInit p))
    as (_ & _ & Hpre & Hnd & Hnew & Hcov).
  assert (Hk : keys p'
               = if helper_init V (length (calls p))
                 then keys (fst (tforM (refreshMesh E V) (Meshes p)
                                   (record HelperInit p)))
                 else keys p).
  { unfold keys. rewrite Hi. by destruct (helper_init V _). }
  split. { rewrite Hi. by destruct (helper_init V _). }
  split; [done|].
  split. { rewrite Hk. by destruct (helper_init V _); [apply Hnd|]. }
  split. { intros k. rewrite Hk. destruct (helper_init V _); [apply Hnew|]. by left. }
  intros H. destruct (Hok H) as [Hinit Hloop]. rewrite Hinit in *.
  split. { intros m Hm'. rewrite Hk. by apply Hcov. }
  rewrite MeshesAssets_refresh_items, Hm.
  destruct (helper_init V (length (calls p'))); [|done].
  rewrite refreshLoop_skip; [done|].
  intros m Hm'. change (keys (record HelperInit p')) with (keys p').
  rewrite Hk. by apply Hcov.
Qed.

Section DropFacts.

Variables (E : Engine) (V : PanelEnv).

Lemma dropFile_spec file p :
  let p' := fst (dropFile E V file p) in
  items p' = items p /\ DirPath p' = DirPath p /\
  (Meshes p' = Meshes p \/
   ((f_name file ∉ map f_name (Meshes p)) /\
    exists dest, droppedFrom E V [file] (DirPath p) file dest /\
                 Meshes p' = Meshes p ++ [mkFile dest (f_name file)])) /\
  (copies (calls p') = copies (calls p) \/
   exists dest, droppedFrom E V [file] (DirPath p) file dest /\
                copies (calls p') = copies (calls p) ++ [(f_path file, dest)]) /\
  (snd (dropFile E V file p) = Ok tt -> acceptedFile V file = true ->
   f_name file ∈ map f_name (Meshes p')).
Proof.
  unfold dropFile. fold (acceptedFile V file).
  destruct (acceptedFile V file) eqn:Hacc; cbn [negb].
  2:{ cbn. repeat split; try done; by left. }
  unfold tbind, tgets, tmodify, tofOption, tret, await. cbn [fst snd].
  destruct (DirPath p) as [dir|] eqn:Hd; cbn [fst snd].
  2:{ repeat split; try done; by left. }
  set (dest := join E [dir; "assets"; "meshes"; f_name file]).
  assert (Hdrop : droppedFrom E V [file] (Some dir) file dest).
  { split; [apply list_elem_of_here|]. split; [done|]. by exists dir. }
  assert (Hc : forall c : list PanelEvent,
            copies (c ++ [CopyFile (f_path file) dest])
            = copies c ++ [(f_path file, dest)]).
  { intros c. unfold copies. by rewrite omap_app. }
  destruct (List.find _ (Meshes p)) as [m|] eqn:Hf.
  - assert (Hin : f_name file ∈ map f_name (Meshes p)).
    { apply List.find_some in Hf as [Hin Hn]. apply String.eqb_eq in Hn.
      rewrite <- Hn. apply list_elem_of_fmap. exists m. split; [done|].
      by apply list_elem_of_In. }
    destruct (negb (dest =? "")%string); cbn [fst snd].
    + destruct (copy V _ _ _); cbn [fst snd record Meshes calls items DirPath].
      * repeat split; try done; [by left|right; by exists dest].
      * repeat split; try done; [by left|right; by exists dest].
    + repeat split; try done; by left.
  - assert (Hni : f_name file ∉ map f_name (Meshes p)).
    { intros Hin. apply list_elem_of_fmap in Hin as (m & Hn & Hm).
      apply list_elem_of_In in Hm.
      pose proof (List.find_none _ _ Hf m Hm) as Hx. cbv beta in Hx.
      rewrite <- Hn, String.eqb_refl in Hx. done. }
    assert (Hlast : forall l : list IFile,
              f_name file ∈ map f_name (l ++ [mkFile dest (f_name file)])).
    { intros l. rewrite map_app. apply elem_of_app. right. apply list_elem_of_here. }
    destruct (negb (dest =? "")%string); cbn [fst snd].
    + destruct (copy V _ _ _);
        cbn [fst snd record set_Meshes Meshes calls items DirPath].
      * repeat split; try done; [right; split; [done|]; by exists dest
                                |right; by exists dest].
      * repeat split; try done; [by left|right; by exists dest].
    + cbn [fst snd record set_Meshes Meshes calls items DirPath].
      repeat split; try done; [right; split; [done|]; by exists dest|by left].
Qed.

Lemma droppedFrom_cons file files dir f dest :
  droppedFrom E V files dir f dest -> droppedFrom E V (file :: files) dir f dest.
Proof. intros (H & ?). split; [by apply list_elem_of_further|done]. Qed.

Lemma droppedFrom_head file files dir dest :
  droppedFrom E V [file] dir file dest ->
  droppedFrom E V (file :: files) dir file dest.
Proof. intros (_ & ?). split; [apply list_elem_of_here|done]. Qed.

Lemma dropLoop_spec files : forall p,
  let p' := fst (tforM (dropFile E V) files p) in
  items p' = items p /\ DirPath p' = DirPath p /\
  Meshes p `prefix_of` Meshes p' /\
  (NoDup (map f_name (Meshes p)) -> NoDup (map f_name (Meshes p'))) /\
  (forall m, m ∈ Meshes p' ->
     m ∈ Meshes p \/
     exists file, droppedFrom E V files (DirPath p) file (f_path m)
                  /\ f_name m = f_name file) /\
  (forall c, c ∈ copies (calls p') ->
     c ∈ copies (calls p) \/
     exists file, droppedFrom E V files (DirPath p) file c.2
                  /\ c.1 = f_path file) /\
  (snd (tforM (dropFile E V) files p) = Ok tt ->
   forall file, file ∈ files -> acceptedFile V file = true ->
     f_name file ∈ map f_name (Meshes p')).
Proof.
  induction files as [|file files IH]; intros p; cbn [tforM].
  { cbn. repeat split; try done; try (by left).
    intros _ f Hf. by apply elem_of_nil in Hf. }
  destruct (dropFile_spec file p) as (Hi1 & Hd1 & Hm1 & Hc1 & Hok1).
  unfold tbind. destruct (dropFile E V file p) as [p1 [[]|]]; cbn [fst snd] in *.
  - destruct (IH p1) as (Hi2 & Hd2 & Hpre & Hnd & Hnew & Hcp & Hcov).
    rewrite Hd1 in *.
    split; [congruence|]. split; [congruence|].
    assert (Hp1 : Meshes p `prefix_of` Meshes p1).
    { destruct Hm1 as [->|(_ & dest & _ & ->)]; [done|by apply prefix_app_r]. }
    split; [by etrans|]. split.
    { intros Hn. apply Hnd. destruct Hm1 as [->|(Hni & dest & _ & ->)]; [done|].
      rewrite map_app. apply NoDup_app. split; [done|]. split.
      - intros k Hk1 Hk2. cbn in Hk2. apply list_elem_of_singleton in Hk2.
        by subst k.
      - cbn. apply NoDup_singleton. }
    split.
    { intros m Hm. destruct (Hnew m Hm) as [H1|(f & Hf & Hn)].
      - destruct Hm1 as [Hm1|(_ & dest & Hdr & Hm1)]; rewrite Hm1 in H1;
          [by left|].
        apply elem_of_app in H1 as [?|H1]; [by left|].
        apply list_elem_of_singleton in H1. subst m. right. exists file.
        split; [|done]. by apply droppedFrom_head.
      - right. exists f. split; [|done]. by apply droppedFrom_cons. }
    split.
    { intros c Hc. destruct (Hcp c Hc) as [H1|(f & Hf & Hs)].
      - destruct Hc1 as [Hc1|(dest & Hdr & Hc1)]; rewrite Hc1 in H1;
          [by left|].
        apply elem_of_app in H1 as [?|H1]; [by left|].
        apply list_elem_of_singleton in H1. subst c. right. exists file.
        split; [|done]. by apply droppedFrom_head.
      - right. exists f. split; [|done]. by apply droppedFrom_cons. }
    intros Hok f Hf Hacc. apply elem_of_cons in Hf as [->|Hf]; [|by apply Hcov].
    specialize (Hok1 eq_refl Hacc). destruct Hpre as [l ->].
    rewrite map_app. apply elem_of_app. by left.
  - split; [done|]. split; [done|]. split.
    { destruct Hm1 as [->|(_ & dest & _ & ->)]; [done|by apply prefix_app_r]. }
    split.
    { intros Hn. destruct Hm1 as [->|(Hni & dest & _ & ->)]; [done|].
      rewrite map_app. apply NoDup_app. split; [done|]. split.
      - intros k Hk1 Hk2. cbn in Hk2. apply list_elem_of_singleton in Hk2.
        by subst k.
      - cbn. apply NoDup_singleton. }
    split.
    { intros m Hm. destruct Hm1 as [Hm1|(_ & dest & Hdr & Hm1)];
        rewrite Hm1 in Hm; [by left|].
      apply elem_of_app in Hm as [?|H1]; [by left|].
      apply list_elem_of_singleton in H1. subst m. right. exists file.
      split; [|done]. by apply droppedFrom_head. }
    split; [|done].
    intros c Hc. destruct Hc1 as [Hc1|(dest & Hdr & Hc1)]; rewrite Hc1 in Hc;
      [by left|].
    apply elem_of_app in Hc as [?|H1]; [by left|].
    apply list_elem_of_singleton in H1. subst c. right. exists file.
    split; [|done]. by apply droppedFrom_head.
Qed.

Lemma refreshMesh_copies m p :
  copies (calls (fst (refreshMesh E V m p))) = copies (calls p).
Proof.
  unfold refreshMesh, tbind, tgets, tmodify, tofOption, tret, await.
  cbn [fst snd].
  destruct (List.find _ (items p)); cbn [fst snd]; [done|].
  destruct (DirPath p); cbn [fst snd]; [|done].
  destruct (helper_importMesh V _ _ _); cbn [fst snd];
    [|unfold copies; cbn; rewrite omap_app; cbn; by rewrite app_nil_r].
  destruct (helper_getScreenshot V _); cbn [fst snd];
    unfold copies; cbn; rewrite !omap_app; cbn; by rewrite !app_nil_r.
Qed.

Lemma refreshLoop_copies ms : forall p,
  copies (calls (fst (tforM (refreshMesh E V) ms p))) = copies (calls p).
Proof.
  induction ms as [|m ms IH]; intros p; cbn [tforM]; [done|].
  pose proof (refreshMesh_copies m p) as H. unfold tbind.
  destruct (refreshMesh E V m p) as [p1 [[]|]]; cbn [fst snd] in *; [|done].
  by rewrite IH.
Qed.

Lemma MeshesAssets_refresh_copies p :
  copies (calls (fst (MeshesAssets_refresh E V p))) = copies (calls p).
Proof.
  unfold MeshesAssets_refresh, AbstractAssets_refresh, tbind, await, tgets,
    tmodify. cbn [fst snd].
  assert (H0 : copies (calls (record HelperInit p)) = copies (calls p)).
  { unfold copies. cbn. rewrite omap_app. cbn. by rewrite app_nil_r. }
  destruct (helper_init V _); cbn [fst snd]; [|done].
  pose proof (refreshLoop_copies (Meshes p) (record HelperInit p)) as H.
  destruct (tforM _ _ _) as [p1 [[]|]]; cbn [fst snd] in *; [|congruence].
  unfold copies in *. cbn. rewrite omap_app. cbn. rewrite app_nil_r. congruence.
Qed.

End DropFacts.

(** X16.  Dropping files on the panel registers a mesh name at most once.
    Whether the drop completes or is aborted by a rejected copy, the meshes
    registered before stay in place; the entries added and the copies made
    are for dropped files whose lower-cased extension is [.babylon] or
    [.glb], to their place under [assets/meshes] of the project; a file
    whose name is registered already is copied again but not registered
    again, so names that were distinct stay distinct.  When the drop
    completes, every accepted file is registered under its name. *)
Theorem dropped_files_are_registered_once (E : Engine) (V : PanelEnv)
    (files : list IFile) (p : Panel) :
  let p' := fst (MeshesAssets_onDropFiles E V files p) in
  Meshes p `prefix_of` Meshes p' /\
  (NoDup (map f_name (Meshes p)) -> NoDup (map f_name (Meshes p'))) /\
  (forall m, m ∈ Meshes p' ->
     m ∈ Meshes p \/
     exists file, droppedFrom E V files (DirPath p) file (f_path m)
                  /\ f_name m = f_name file) /\
  (forall c, c ∈ copies (calls p') ->
     c ∈ copies (calls p) \/
     exists file, droppedFrom E V files (DirPath p) file c.2
                  /\ c.1 = f_path file) /\
  (snd (MeshesAssets_onDropFiles E V files p) = Ok tt ->
   forall file, file ∈ files -> acceptedFile V file = true ->
     f_name file ∈ map f_name (Meshes p')).
Proof.
  intros p'. subst p'.
  destruct (dropLoop_spec E V files p)
    as (_ & _ & Hpre & Hnd & Hnew & Hcp & Hcov).
  unfold MeshesAssets_onDropFiles, tbind.
  destruct (tforM (dropFile E V) files p) as [p1 [[]|]]; cbn [fst snd] in *.
  - rewrite MeshesAssets_refresh_Meshes, MeshesAssets_refresh_copies.
    repeat split; try done. intros _. by apply Hcov.
  - repeat split; done.
Qed.

Lemma refresh_shows_each_mesh_once_witness :
  NoDup (keys (fst (MeshesAssets_refresh assetsEngine demoPanelEnv
                      (panelOf importedTwice [])))).
Proof.
  apply (refresh_shows_each_mesh_once assetsEngine demoPanelEnv
           (panelOf importedTwice [])).
  apply NoDup_nil_2.
Defined.

Lemma dropped_files_are_registered_once_witness :
  NoDup (map f_name (Meshes (fst
    (MeshesAssets_onDropFiles assetsEngine demoPanelEnv droppedFiles
       (panelOf importedOnce []))))).
Proof.
  apply (dropped_files_are_registered_once assetsEngine demoPanelEnv
           droppedFiles (panelOf importedOnce [])).
  vm_compute. apply NoDup_singleton.
Defined.

(** ** Removing a mesh from the panel *)

Lemma spliceFirst_find {A} (P : A -> bool) (l : list A) a :
  List.find P l = Some a -> l ≡ₚ a :: spliceFirst P l.
Proof.
  induction l as [|b l IH]; cbn; [done|]. destruct (P b).
  - intros H. injection H as ->. done.
  - intros H. rewrite (IH H) at 1. apply Permutation_swap.
Qed.

Lemma spliceFirst_none {A} (P : A -> bool) (l : list A) :
  List.find P l = None -> spliceFirst P l = l.
Proof.
  induction l as [|b l IH]; cbn; [done|]. destruct (P b); [done|].
  intros H. by rewrite IH.
Qed.

Lemma find_ref (its : list IAssetComponentItem) item :
  item ∈ its ->
  (forall i, i ∈ its -> item_ref i = item_ref item -> i = item) ->
  List.find (fun i => Nat.eqb (item_ref i) (item_ref item)) its = Some item.
Proof.
  induction its as [|i its IH]; intros Hin Hwf.
  { by apply elem_of_nil in Hin. }
  cbn. destruct (Nat.eqb_spec (item_ref i) (item_ref item)) as [He|Hne].
  - f_equal. apply Hwf; [apply list_elem_of_here|done].
  - apply IH.
    + apply elem_of_cons in Hin as [->|Hin]; [done|done].
    + intros j Hj. apply Hwf. by apply list_elem_of_further.
Qed.

Lemma find_path (ms : list IFile) key name :
  key ∈ map f_path ms ->
  (forall m, m ∈ ms -> f_path m = key -> f_name m = name) ->
  List.find (fun m => String.eqb (f_path m) key) ms = Some (mkFile key name).
Proof.
  induction ms as [|m ms IH]; intros Hin Hn.
  { by apply elem_of_nil in Hin. }
  cbn. destruct (String.eqb_spec (f_path m) key) as [He|Hne].
  - f_equal. pose proof (Hn m (list_elem_of_here _ _) He) as Hm.
    destruct m as [pth nm]. cbn in *. by subst.
  - apply IH.
    + cbn in Hin. apply elem_of_cons in Hin as [Hk|Hin]; [by subst|done].
    + intros j Hj. apply Hn. by apply list_elem_of_further.
Qed.

(** X17.  The [redo] and [undo] actions of a removal are inverse only up to
    order, and only for an item that is registered.  For an item that is
    shown and registered under its key with its id as name, removing it and
    undoing the removal gives back the same registered meshes and the same
    items, the entry and the item having moved to the end.  For an item
    under whose key no mesh is registered, the removal leaves the registered
    meshes as they are, and undoing it registers a mesh that was not
    registered before. *)
Theorem removal_is_undone_up_to_order (item : IAssetComponentItem) (p : Panel) :
  (item_key item ∈ map f_path (Meshes p) ->
   (forall m, m ∈ Meshes p -> f_path m = item_key item ->
      f_name m = item_id item) ->
   item ∈ items p ->
   (forall i, i ∈ items p -> item_ref i = item_ref item -> i = item) ->
   Meshes (removeMesh_undo item (removeMesh_redo item p)) ≡ₚ Meshes p /\
   items (removeMesh_undo item (removeMesh_redo item p)) ≡ₚ items p /\
   last (Meshes (removeMesh_undo item (removeMesh_redo item p)))
     = Some (mkFile (item_key item) (item_id item)) /\
   last (items (removeMesh_undo item (removeMesh_redo item p))) = Some item) /\
  ((item_key item ∉ map f_path (Meshes p)) ->
   Meshes (removeMesh_redo item p) = Meshes p /\
   Meshes (removeMesh_undo item (removeMesh_redo item p))
     = Meshes p ++ [mkFile (item_key item) (item_id item)]).
Proof.
  unfold removeMesh_undo, removeMesh_redo. cbn [Meshes items set_items set_Meshes].
  split.
  - intros Hk Hn Hi Hwf.
    pose proof (spliceFirst_find _ _ _ (find_path _ _ _ Hk Hn)) as Hm.
    pose proof (spliceFirst_find _ _ _ (find_ref _ _ Hi Hwf)) as Hit.
    rewrite !last_snoc. repeat split; try done.
    + rewrite Hm at 2. by rewrite Permutation_app_comm.
    + rewrite Hit at 2. by rewrite Permutation_app_comm.
  - intros Hk.
    assert (Hf : List.find (fun m => String.eqb (f_path m) (item_key item))
                   (Meshes p) = None).
    { destruct (List.find _ _) as [m|] eqn:Hf; [|done]. exfalso. apply Hk.
      apply List.find_some in Hf as [Hin He]. apply String.eqb_eq in He.
      rewrite <- He. apply list_elem_of_fmap. exists m. split; [done|].
      by apply list_elem_of_In. }
    by rewrite (spliceFirst_none _ _ Hf).
Qed.

Lemma removal_is_undone_up_to_order_witness :
  Meshes (removeMesh_undo treeItem
            (removeMesh_redo treeItem (panelOf importedOnce [treeItem])))
  ≡ₚ Meshes (panelOf importedOnce [treeItem]).
Proof.
  apply (removal_is_undone_up_to_order treeItem (panelOf importedOnce [treeItem])).
  - vm_compute. apply list_elem_of_here.
  - intros m Hm _. vm_compute in Hm. apply list_elem_of_singleton in Hm.
    by subst m.
  - apply list_elem_of_here.
  - intros i Hi _. cbn in Hi. by apply list_elem_of_singleton in Hi.
Defined.

Lemma MeshesAssets_refresh_covers E V p m :
  snd (MeshesAssets_refresh E V p) = Ok tt ->
  m ∈ Meshes p -> f_path m ∈ keys (fst (MeshesAssets_refresh E V p)).
Proof.
  intros Hok Hm.
  destruct (MeshesAssets_refresh_ok E V p Hok) as [Hinit Hloop].
  destruct (refreshLoop_spec E V (Meshes p) (record HelperInit p))
    as (_ & _ & _ & _ & _ & Hcov).
  unfold keys. rewrite MeshesAssets_refresh_items, Hinit. by apply Hcov.
Qed.

Lemma spliceFirst_twice {A} (P : A -> bool) (l : list A) :
  2 <= length (List.filter P l) -> exists a, a ∈ spliceFirst P l /\ P a = true.
Proof.
  induction l as [|b l IH]; cbn; [lia|]. destruct (P b) eqn:Hb; cbn.
  - intros H. destruct (List.filter P l) as [|a f] eqn:Hf; [cbn in H; lia|].
    assert (Ha : In a (List.filter P l)) by (rewrite Hf; by left).
    apply List.filter_In in Ha as [Hin Hp]. exists a.
    split; [by apply list_elem_of_In|done].
  - intros H. destruct (IH H) as (a & Hin & Hp). exists a.
    split; [by apply list_elem_of_further|done].
Qed.

Lemma spliceFirst_item_key (its : list IAssetComponentItem) item :
  NoDup (map item_key its) -> item ∈ its ->
  (forall i, i ∈ its -> item_ref i = item_ref item -> i = item) ->
  item_key item ∉
    map item_key (spliceFirst (fun i => Nat.eqb (item_ref i) (item_ref item)) its).
Proof.
  induction its as [|i its IH]; intros Hnd Hin Hwf.
  { by apply elem_of_nil in Hin. }
  cbn in Hnd. apply NoDup_cons in Hnd as [Hni Hnd]. cbn.
  destruct (Nat.eqb_spec (item_ref i) (item_ref item)) as [He|Hne].
  - assert (i = item) as -> by (apply Hwf; [apply list_elem_of_here|done]). done.
  - apply elem_of_cons in Hin as [->|Hin]; [done|].
    cbn. intros Hk. apply elem_of_cons in Hk as [Hk|Hk].
    + apply Hni. rewrite <- Hk. apply list_elem_of_fmap. by exists item.
    + revert Hk. apply IH; [done|done|].
      intros j Hj. apply Hwf. by apply list_elem_of_further.
Qed.

(** X18.  A mesh that is registered twice, as every mesh asset is once its
    project has been imported twice, cannot be removed from the panel.  The
    [redo] action of the removal takes the item away and unregisters one
    entry only; the refresh that follows finds the other entry and, when it
    completes, shows an item under the same key again. *)
Theorem mesh_registered_twice_survives_removal (E : Engine) (V : PanelEnv)
    (item : IAssetComponentItem) (p : Panel) :
  2 <= length (List.filter (fun m => String.eqb (f_path m) (item_key item))
                 (Meshes p)) ->
  NoDup (keys p) ->
  item ∈ items p ->
  (forall i, i ∈ items p -> item_ref i = item_ref item -> i = item) ->
  let p1 := removeMesh_redo item p in
  snd (MeshesAssets_refresh E V p1) = Ok tt ->
  (item_key item ∉ keys p1) /\
  item_key item ∈ keys (fst (MeshesAssets_refresh E V p1)).
Proof.
  intros H2 Hnd Hin Hwf p1 Hok. split.
  - subst p1. unfold keys, removeMesh_redo. cbn [items set_items set_Meshes].
    by apply spliceFirst_item_key.
  - destruct (spliceFirst_twice _ _ H2) as (m & Hm & Hp).
    apply String.eqb_eq in Hp. rewrite <- Hp.
    apply MeshesAssets_refresh_covers; [done|].
    subst p1. unfold removeMesh_redo. by cbn [Meshes set_items set_Meshes].
Qed.

Lemma mesh_registered_twice_survives_removal_witness :
  "proj/assets/meshes/tree.babylon"
  ∈ keys (fst (MeshesAssets_refresh assetsEngine demoPanelEnv
                 (removeMesh_redo treeItem (panelOf importedTwice [treeItem])))).
Proof.
  apply (mesh_registered_twice_survives_removal assetsEngine demoPanelEnv
           treeItem (panelOf importedTwice [treeItem])).
  - vm_compute. lia.
  - vm_compute. apply NoDup_singleton.
  - apply list_elem_of_here.
  - intros i Hi _. cbn in Hi. by apply list_elem_of_singleton in Hi.
  - reflexivity.
Defined.

(** * The offscreen assets helper *)

Section WorkerFacts.

Variable B : Babylon.

Lemma settles_ret {S A} (a : A) : settles (@jret S A a).
Proof. intros s. done. Qed.

Lemma settles_gets {S A} (f : S -> A) : settles (jgets f).
Proof. intros s. done. Qed.

Lemma settles_modify {S} (f : S -> S) : settles (jmodify f).
Proof. intros s. done. Qed.

Lemma settles_lift {S A} (r : Res A) : settles (@jlift S A r).
Proof. intros s. cbn. by destruct r. Qed.

Lemma settles_bind {S A C} (m : Job S A) (k : A -> Job S C) :
  settles m -> (forall a, settles (k a)) -> settles (jbind m k).
Proof.
  intros Hm Hk s. unfold jbind. specialize (Hm s).
  destruct (m s) as [s1 [a| |]]; cbn in *; [apply Hk|done|done].
Qed.

Lemma settles_engineCall c ok : settles (engineCall c ok).
Proof. intros h. cbn. by destruct (ok _). Qed.

Ltac settle :=
  repeat first
    [ apply settles_ret | apply settles_gets | apply settles_modify
    | apply settles_lift | apply settles_engineCall
    | apply settles_bind; [|intros ?]
    | match goal with
      | |- settles (match ?x with _ => _ end) => destruct x
      | |- settles (if ?b then _ else _) => destruct b
      | |- settles (jwhen ?b _) => unfold jwhen
      end ].

Lemma reset_settles : settles (reset B).
Proof. unfold reset. settle. Qed.

Lemma constructor_settles canvas : settles (constructor B canvas).
Proof. unfold constructor. apply settles_bind; [settle|intros _; apply reset_settles]. Qed.

Lemma createMesh_settles type : settles (createMesh B type).
Proof. unfold createMesh. settle. Qed.

Lemma setMaterial_settles json rootUrl : settles (setMaterial B json rootUrl).
Proof. unfold setMaterial. settle. Qed.

Lemma disposeMaterial_settles : settles (disposeMaterial B).
Proof. unfold disposeMaterial. settle. Qed.

Lemma settles_onInstance {A} (m : Job Helper A) :
  settles m -> settles (onInstance m).
Proof.
  intros Hm w. unfold onInstance. destruct (_Instance w) as [i|]; [|done].
  specialize (Hm (helperOf w i)). by destruct (m _) as [h r].
Qed.

Lemma settles_construct canvas : settles (construct B canvas).
Proof.
  intros w. unfold construct.
  pose proof (constructor_settles canvas (helperOf w (None, None))) as H.
  by destruct (constructor B canvas _) as [h r].
Qed.

Lemma onInstance_posted {A} (m : Job Helper A) w :
  posted (fst (onInstance m w)) = posted w.
Proof.
  unfold onInstance. destruct (_Instance w) as [i|]; [|done].
  by destruct (m _) as [h r].
Qed.

Lemma construct_posted canvas w :
  posted (fst (construct B canvas w)) = posted w.
Proof. unfold construct. by destruct (constructor B canvas _) as [h r]. Qed.

Lemma jbind_posted {A C} (m : Job Worker A) (k : A -> Job Worker C) w :
  (forall w, posted (fst (m w)) = posted w) ->
  (forall a w, posted (fst (k a w)) = posted w) ->
  posted (fst (jbind m k w)) = posted w.
Proof.
  intros Hm Hk. unfold jbind. specialize (Hm w).
  destruct (m w) as [w1 [a| |]]; cbn in *; [|done|done].
  by rewrite Hk.
Qed.

Lemma dispatch_posted data id w :
  posted (fst (dispatch B data id w)) = posted w.
Proof.
  unfold dispatch.
  repeat match goal with
  | |- context [if ?b then _ else _] => destruct b
  end;
  repeat first
    [ reflexivity
    | apply jbind_posted; [intros ?|intros ? ?]
    | apply onInstance_posted
    | apply construct_posted
    | progress (unfold jlift, jret; cbn [fst]) ].
Qed.

Lemma dispatch_hangs data id w :
  snd (dispatch B data id w) = Hangs ->
  isId id "getScreenshot" = true \/ isId id "importMesh" = true.
Proof.
  unfold dispatch.
  destruct (isId id "init").
  { intros H. exfalso. revert H.
    apply (settles_bind (S := Worker)); [apply settles_lift|intros ?].
    apply settles_bind; [apply settles_construct|intros ?; apply settles_ret]. }
  destruct (isId id "reset").
  { intros H. exfalso. revert H.
    apply (settles_bind (S := Worker));
      [apply settles_onInstance, reset_settles|intros ?; apply settles_ret]. }
  destruct (isId id "getScreenshot"); [by left|].
  destruct (isId id "createMesh").
  { intros H. exfalso. revert H.
    apply (settles_bind (S := Worker)); [|intros ?; apply settles_ret].
    apply settles_onInstance, settles_bind; [apply settles_lift|intros ?].
    apply createMesh_settles. }
  destruct (isId id "importMesh"); [by right|].
  destruct (isId id "setMaterial").
  { intros H. exfalso. revert H.
    apply (settles_bind (S := Worker)); [|intros ?; apply settles_ret].
    apply settles_onInstance, settles_bind; [apply settles_lift|intros ?].
    apply settles_bind; [apply settles_lift|intros ?].
    apply setMaterial_settles. }
  destruct (isId id "disposeMaterial"); [|done].
  intros H. exfalso. revert H.
  apply (settles_bind (S := Worker));
    [apply settles_onInstance, disposeMaterial_settles|intros ?; apply settles_ret].
Qed.

End WorkerFacts.

Lemma onMessage_run (B : Babylon) data w id :
  jget data "id" = Ok id ->
  onMessage B data w =
  match dispatch B data id w with
  | (w1, Returns response) => (having_posted (Response id response) w1, Returns tt)
  | (w1, Throws) => (having_posted (Error id) w1, Returns tt)
  | (w1, Hangs) => (w1, Hangs)
  end.
Proof.
  intros H. unfold onMessage, jtry, jbind, jlift, postMessage, jmodify.
  rewrite H. by destruct (dispatch B data id w) as [w1 [r| |]].
Qed.

Lemma onMessage_no_data (B : Babylon) data w :
  jget data "id" = Throw -> onMessage B data w = (w, Throws).
Proof.
  intros H. unfold onMessage, jtry, jbind, jlift. by rewrite H.
Qed.

(** X19.  The worker answers every message that has data exactly once, with
    the id of the message, unless a promise it awaits stays pending.  When
    the listener completes it has posted one message: the response, or the
    error when anything in the command threw.  Only [getScreenshot] and
    [importMesh] can leave it pending, and then nothing has been posted.  A
    message without data is never answered: the listener throws again
    while it builds the error, and the worker is left as it was. *)
Theorem every_message_is_answered_once (B : Babylon) (data : JsValue)
    (w : Worker) :
  match jget data "id" with
  | Throw => onMessage B data w = (w, Throws)
  | Ok id =>
      match snd (onMessage B data w) with
      | Returns _ =>
          exists m, posted (fst (onMessage B data w)) = posted w ++ [m] /\
                    (m = Error id \/ exists response, m = Response id response)
      | Hangs =>
          posted (fst (onMessage B data w)) = posted w /\
          (isId id "getScreenshot" = true \/ isId id "importMesh" = true)
      | Throws => False
      end
  end.
Proof.
  destruct (jget data "id") as [id|] eqn:Hid; [|by apply onMessage_no_data].
  rewrite (onMessage_run B data w id Hid).
  pose proof (dispatch_posted B data id w) as Hp.
  pose proof (dispatch_hangs B data id w) as Hh.
  destruct (dispatch B data id w) as [w1 [response| |]]; cbn [fst snd] in *.
  - eexists. split; [unfold having_posted; cbn; by rewrite Hp|].
    right. by eexists.
  - eexists. split; [unfold having_posted; cbn; by rewrite Hp|]. by left.
  - split; [done|]. by apply Hh.
Qed.

(** ** The scenes of the helper *)

Ltac run_method :=
  unfold reset, constructor, getScreenshot, createMesh, importMesh, setMaterial,
    disposeMaterial, jwhen, engineCall, enginePromise, jbind, jgets, jmodify,
    jret, jlift;
  cbn [fst snd h_scene _mesh bcalls scenes logCall set_h_scene set_mesh
       countScene];
  repeat match goal with
  | |- context [if ?b then _ else _] =>
      destruct b;
      cbn [fst snd h_scene _mesh bcalls scenes logCall set_h_scene set_mesh
           countScene]
  | |- context [match ?x with Some _ => _ | None => _ end] =>
      destruct x;
      cbn [fst snd h_scene _mesh bcalls scenes logCall set_h_scene set_mesh
           countScene]
  | |- context [match ?x with Ok _ => _ | Throw => _ end] =>
      destruct x;
      cbn [fst snd h_scene _mesh bcalls scenes logCall set_h_scene set_mesh
           countScene]
  | |- context [match ?x with
                  | Returns _ => _ | Throws => _ | Hangs => _ end] =>
      destruct x;
      cbn [fst snd h_scene _mesh bcalls scenes logCall set_h_scene set_mesh
           countScene]
  end.

Ltac calls_defined :=
  repeat first
    [ assumption
    | apply Forall_app; split
    | apply Forall_cons; split
    | apply Forall_nil
    | exact I ].

Ltac solve_sound :=
  unfold sound; cbn;
  repeat match goal with |- _ /\ _ => split end;
  first [ solve [eexists; split; [reflexivity|lia]]
        | lia
        | done
        | solve [rewrite <- ?app_assoc; calls_defined] ].

Section WorkerScenes.

Variable B : Babylon.

Lemma reset_keeps_sound : keeps_sound (reset B).
Proof.
  intros [sc m cs k] ([n [Hn Hlt]] & Hm) Hc. cbn in *. subst sc.
  destruct m as [[ssc smat]|]; cbn in Hm; [destruct Hm as (j & -> & Hj)|];
    run_method; solve_sound.
Qed.

Lemma getScreenshot_keeps_sound : keeps_sound (getScreenshot B).
Proof.
  intros [sc m cs k] ([n [Hn Hlt]] & Hm) Hc. cbn in *. subst sc.
  destruct m as [[ssc smat]|]; cbn in Hm; [destruct Hm as (j & -> & Hj)|];
    run_method; solve_sound.
Qed.

Lemma importMesh_keeps_sound rootUrl filename :
  keeps_sound (importMesh B rootUrl filename).
Proof.
  intros [sc m cs k] ([n [Hn Hlt]] & Hm) Hc. cbn in *. subst sc.
  destruct m as [[ssc smat]|]; cbn in Hm; [destruct Hm as (j & -> & Hj)|];
    run_method; solve_sound.
Qed.

Lemma createMesh_keeps_sound type : keeps_sound (createMesh B type).
Proof.
  intros [sc m cs k] ([n [Hn Hlt]] & Hm) Hc. cbn in *. subst sc.
  destruct m as [[ssc smat]|]; cbn in Hm; [destruct Hm as (j & -> & Hj)|];
    run_method; solve_sound.
Qed.

Lemma setMaterial_keeps_sound json rootUrl :
  keeps_sound (setMaterial B json rootUrl).
Proof.
  intros [sc m cs k] ([n [Hn Hlt]] & Hm) Hc. cbn in *. subst sc.
  destruct m as [[ssc smat]|]; cbn in Hm; [destruct Hm as (j & -> & Hj)|];
    run_method; solve_sound.
Qed.

Lemma disposeMaterial_keeps_sound : keeps_sound (disposeMaterial B).
Proof.
  intros [sc m cs k] ([n [Hn Hlt]] & Hm) Hc. cbn in *. subst sc.
  destruct m as [[ssc [smat|]]|]; cbn in Hm;
    try destruct Hm as (j & -> & Hj);
    run_method; solve_sound.
Qed.

Lemma keeps_sound_args {A} (r : Res A) (k : A -> Job Helper unit) :
  (forall a, keeps_sound (k a)) -> keeps_sound (jbind (jlift r) k).
Proof.
  intros Hk h Hs Hc. unfold jbind, jlift. destruct r as [a|]; cbn [fst snd].
  - by apply Hk.
  - done.
Qed.

Lemma onInstance_safe {A} (m : Job Helper A) w :
  keeps_sound m -> safe w -> safe (fst (onInstance m w)).
Proof.
  intros Hm Hs. unfold onInstance.
  destruct (_Instance w) as [[sc sp]|] eqn:Hi; [|exact Hs].
  destruct Hs as [Hcons Hc]. unfold consistent in Hcons. rewrite Hi in Hcons.
  destruct (Hm (helperOf w (sc, sp))) as (Hs & Hc' & _);
    [exact Hcons|exact Hc|].
  destruct (m _) as [h r]. cbn [fst] in *. split; [exact Hs|exact Hc'].
Qed.

Lemma constructor_run canvas h :
  h_scene h = None -> _mesh h = None ->
  let h' := fst (constructor B canvas h) in
  scenes h <= scenes h' /\
  (exists l, bcalls h' = bcalls h ++ l /\
     l `prefix_of` [EngineNew canvas; SceneNew; SceneSetup (scenes h)] /\
     (snd (constructor B canvas h) = Returns tt ->
      l = [EngineNew canvas; SceneNew; SceneSetup (scenes h)])) /\
  (snd (constructor B canvas h) = Returns tt ->
   h_scene h' = Some (scenes h) /\ _mesh h' = None /\ scenes h' = S (scenes h)).
Proof.
  destruct h as [sc m cs k]. cbn. intros -> ->.
  run_method; rewrite <- ?app_assoc; cbn [app];
    (split; [lia|]);
    (split; [eexists; split; [reflexivity|]; split;
             [ first [ done
                     | by exists [SceneNew; SceneSetup k]
                     | by exists [SceneSetup k] ]
             | done ]|]); done.
Qed.

Lemma construct_safe canvas w : safe w -> safe (fst (construct B canvas w)).
Proof.
  intros [Hcons Hc]. unfold construct.
  destruct (constructor_run canvas (helperOf w (None, None)) eq_refl eq_refl)
    as (Hle & (l & Hl & Hpre & _) & Hret).
  destruct (constructor B canvas _) as [h r]. cbn [fst snd] in *.
  split.
  2:{ cbn. rewrite Hl. apply Forall_app. split; [exact Hc|].
      destruct Hpre as [l' Hl'].
      assert (HL : Forall sceneDefined
                     [EngineNew canvas; SceneNew; SceneSetup (sceneCount w)])
        by (repeat constructor).
      cbn [scenes helperOf] in Hl'. rewrite Hl' in HL.
      by apply Forall_app in HL as [? _]. }
  unfold consistent in *. cbn [_Instance sceneCount].
  destruct r as [[]| |].
  - destruct (Hret eq_refl) as (-> & -> & ->). cbn. split; [|done].
    exists (sceneCount w). split; [done|lia].
  - destruct (_Instance w) as [[sc [sp|]]|]; [| |done].
    + destruct Hcons as [(n & -> & Hn) (j & Hj & Hlt)].
      split; [exists n|exists j]; split; try done; cbn in *; lia.
    + destruct Hcons as [(n & -> & Hn) _].
      split; [exists n|done]; split; try done; cbn in *; lia.
  - destruct (_Instance w) as [[sc [sp|]]|]; [| |done].
    + destruct Hcons as [(n & -> & Hn) (j & Hj & Hlt)].
      split; [exists n|exists j]; split; try done; cbn in *; lia.
    + destruct Hcons as [(n & -> & Hn) _].
      split; [exists n|done]; split; try done; cbn in *; lia.
Qed.

Lemma jbind_safe {A C} (m : Job Worker A) (k : A -> Job Worker C) w :
  (forall w, safe w -> safe (fst (m w))) ->
  (forall a w, safe w -> safe (fst (k a w))) ->
  safe w -> safe (fst (jbind m k w)).
Proof.
  intros Hm Hk Hs. unfold jbind. specialize (Hm w Hs).
  destruct (m w) as [w1 [a| |]]; cbn in *; [|done|done].
  by apply Hk.
Qed.

Lemma jlift_safe {A} (r : Res A) w : safe w -> safe (fst (@jlift Worker A r w)).
Proof. done. Qed.

Lemma answered_safe {A C} (m : Job Worker A) (f : A -> C) w :
  (forall w, safe w -> safe (fst (m w))) ->
  safe w -> safe (fst (jbind m (fun a => jret (f a)) w)).
Proof.
  intros Hm Hs. apply jbind_safe; [exact Hm| |exact Hs]. by intros a w0 H0.
Qed.

Lemma dispatch_safe data id w : safe w -> safe (fst (dispatch B data id w)).
Proof.
  intros Hs. unfold dispatch.
  destruct (isId id "init").
  { apply jbind_safe; [intros; by apply jlift_safe| |exact Hs].
    intros canvas w0 H0.
    apply (answered_safe _ (fun _ => None)); [|exact H0].
    intros w1 H1. by apply construct_safe. }
  destruct (isId id "reset").
  { apply (answered_safe _ (fun _ => None)); [|exact Hs].
    intros w1 H1. apply onInstance_safe; [apply reset_keeps_sound|exact H1]. }
  destruct (isId id "getScreenshot").
  { apply (answered_safe _ Some); [|exact Hs].
    intros w1 H1.
    apply onInstance_safe; [apply getScreenshot_keeps_sound|exact H1]. }
  destruct (isId id "createMesh").
  { apply (answered_safe _ (fun _ => None)); [|exact Hs].
    intros w1 H1. apply onInstance_safe; [|exact H1].
    apply keeps_sound_args. intros ?. apply createMesh_keeps_sound. }
  destruct (isId id "importMesh").
  { apply (answered_safe _ (fun _ => None)); [|exact Hs].
    intros w1 H1. apply onInstance_safe; [|exact H1].
    apply keeps_sound_args. intros ?. apply keeps_sound_args. intros ?.
    apply importMesh_keeps_sound. }
  destruct (isId id "setMaterial").
  { apply (answered_safe _ (fun _ => None)); [|exact Hs].
    intros w1 H1. apply onInstance_safe; [|exact H1].
    apply keeps_sound_args. intros ?. apply keeps_sound_args. intros ?.
    apply setMaterial_keeps_sound. }
  destruct (isId id "disposeMaterial"); [|exact Hs].
  apply (answered_safe _ (fun _ => None)); [|exact Hs].
  intros w1 H1.
  apply onInstance_safe; [apply disposeMaterial_keeps_sound|exact H1].
Qed.

Lemma onMessage_safe data w : safe w -> safe (fst (onMessage B data w)).
Proof.
  intros Hs. destruct (jget data "id") as [id|] eqn:Hid.
  - rewrite (onMessage_run B data w id Hid).
    pose proof (dispatch_safe data id w Hs) as Hd.
    by destruct (dispatch B data id w) as [w1 [r| |]].
  - by rewrite (onMessage_no_data B data w Hid).
Qed.

Lemma afterMessages_safe msgs : forall w,
  safe w -> safe (afterMessages B msgs w).
Proof.
  induction msgs as [|data msgs IH]; intros w Hs; [done|].
  cbn. apply IH. by apply onMessage_safe.
Qed.

End WorkerScenes.

(** X20.  Before the helper is initialised, each command of the protocol
    other than [init] is answered by the error and does nothing: the worker
    is as it was but for the message posted, and the engine is not called.
    A message whose id is none of the seven commands, whatever its value,
    is answered like a command that succeeded, with no response, and does
    nothing either. *)
Theorem commands_before_init_are_errors (B : Babylon) (data : JsValue)
    (w : Worker) :
  (forall id, _Instance w = None -> jget data "id" = Ok (Some (JStr id)) ->
     In id instanceCommands ->
     onMessage B data w
     = (having_posted (Error (Some (JStr id))) w, Returns tt)) /\
  (forall id, jget data "id" = Ok id -> isId id "init" = false ->
     (forall c, In c instanceCommands -> isId id c = false) ->
     onMessage B data w = (having_posted (Response id None) w, Returns tt)).
Proof.
  split.
  - intros id Hi Hid Hin. rewrite (onMessage_run B data w _ Hid).
    cbn [In instanceCommands] in Hin.
    repeat destruct Hin as [<-|Hin]; try done;
      unfold dispatch; cbn; unfold onInstance, jbind; by rewrite Hi.
  - intros id Hid Hinit Hc. rewrite (onMessage_run B data w _ Hid).
    unfold dispatch. rewrite Hinit.
    rewrite !Hc by (cbn; tauto). reflexivity.
Qed.

Lemma commands_before_init_are_errors_witness :
  onMessage demoBabylon (message "getScreenshot" []) newWorker
  = (having_posted (Error (Some (JStr "getScreenshot"))) newWorker, Returns tt).
Proof.
  apply (proj1 (commands_before_init_are_errors demoBabylon
                  (message "getScreenshot" []) newWorker)).
  - reflexivity.
  - reflexivity.
  - cbn. tauto.
Defined.

(** X21.  [reset] does not forget the sphere.  After a reset that returns,
    the helper has a new scene, and its [_mesh] is still the sphere that
    was created in an earlier scene and has just been disposed; a
    [setMaterial] that follows parses the material in the new scene and
    binds it to that sphere, which the new scene does not hold. *)
Theorem reset_keeps_the_disposed_sphere (B : Babylon) (w : Worker) (n : nat)
    (sp : Sphere) :
  safe w ->
  _Instance w = Some (Some n, Some sp) ->
  snd (onInstance (reset B) w) = Returns tt ->
  let w1 := fst (onInstance (reset B) w) in
  _Instance w1 = Some (Some (sceneCount w), Some sp) /\
  sp_scene sp <> Some (sceneCount w) /\
  engineCalls w1
  = engineCalls w ++ [MeshDispose (sp_scene sp); SceneDispose n; SceneNew;
                      SceneSetup (sceneCount w)] /\
  forall json rootUrl,
    snd (onInstance (setMaterial B json rootUrl) w1) = Returns tt ->
    _Instance (fst (onInstance (setMaterial B json rootUrl) w1))
    = Some (Some (sceneCount w),
            Some (mkSphere (sp_scene sp) (Some (Some (sceneCount w))))).
Proof.
  intros [Hcons _] Hi. unfold consistent in Hcons. rewrite Hi in Hcons.
  destruct Hcons as [_ (j & Hj & Hlt)].
  unfold onInstance at 1 2. rewrite Hi. unfold helperOf. cbn [fst snd].
  destruct w as [inst cs k ps]. cbn [engineCalls sceneCount posted] in *.
  run_method; try discriminate. intros _. cbn.
  split; [done|]. split; [rewrite Hj; intros [= ->]; lia|].
  split; [by rewrite <- !app_assoc|].
  intros json rootUrl. unfold onInstance. cbn.
  run_method; try discriminate. done.
Qed.

Lemma reset_keeps_the_disposed_sphere_witness :
  _Instance (fst (onInstance (reset demoBabylon) staleWorker))
  = Some (Some 1, Some (mkSphere (Some 0) None)).
Proof.
  apply (reset_keeps_the_disposed_sphere demoBabylon staleWorker 0
           (mkSphere (Some 0) None)).
  - apply afterMessages_safe. split; [exact I|by apply Forall_nil].
  - reflexivity.
  - reflexivity.
Defined.

Lemma construct_run (B : Babylon) canvas w :
  let r := construct B canvas w in
  posted (fst r) = posted w /\
  (exists l, engineCalls (fst r) = engineCalls w ++ l /\
     l `prefix_of` [EngineNew canvas; SceneNew; SceneSetup (sceneCount w)] /\
     (snd r = Returns tt ->
      l = [EngineNew canvas; SceneNew; SceneSetup (sceneCount w)])) /\
  (snd r = Returns tt -> _Instance (fst r) = Some (Some (sceneCount w), None)) /\
  (snd r <> Returns tt -> _Instance (fst r) = _Instance w) /\
  snd r <> Hangs.
Proof.
  unfold construct.
  destruct (constructor_run B canvas (helperOf w (None, None)) eq_refl eq_refl)
    as (_ & Hcalls & Hret).
  pose proof (constructor_settles B canvas (helperOf w (None, None))) as Hs.
  destruct (constructor B canvas (helperOf w (None, None))) as [h r].
  cbn [fst snd posted engineCalls _Instance] in *.
  split; [done|]. split; [exact Hcalls|]. split.
  { intros ->. destruct (Hret eq_refl) as (-> & -> & _). done. }
  split; [|done]. intros Hr. by destruct r as [[]| |].
Qed.

(** X22.  [init] never disposes anything.  An [init] message calls the
    engine for a new engine, a new scene and the setup of that scene, in
    this order and as far as they succeed, and for nothing else: when a
    helper exists already, its scene and its sphere are not disposed.  The
    new helper replaces the former one only when the whole construction
    succeeded; otherwise the error is posted and the former helper stays. *)
Theorem init_never_disposes (B : Babylon) (data canvas : JsValue) (w : Worker) :
  jget data "id" = Ok (Some (JStr "init")) ->
  jget data "canvas" = Ok canvas ->
  let w1 := fst (onMessage B data w) in
  let construction := [EngineNew canvas; SceneNew; SceneSetup (sceneCount w)] in
  (exists l, engineCalls w1 = engineCalls w ++ l /\ l `prefix_of` construction) /\
  ((posted w1 = posted w ++ [Response (Some (JStr "init")) None] /\
    _Instance w1 = Some (Some (sceneCount w), None) /\
    engineCalls w1 = engineCalls w ++ construction)
   \/ (posted w1 = posted w ++ [Error (Some (JStr "init"))] /\
       _Instance w1 = _Instance w)).
Proof.
  intros Hid Hcv w1 construction. subst w1 construction.
  rewrite (onMessage_run B data w _ Hid).
  assert (Hd : dispatch B data (Some (JStr "init")) w
               = match construct B canvas w with
                 | (w1, Returns _) => (w1, Returns None)
                 | (w1, Throws) => (w1, Throws)
                 | (w1, Hangs) => (w1, Hangs)
                 end).
  { unfold dispatch. change (isId (Some (JStr "init")) "init") with true.
    cbv iota. unfold jbind at 1, jlift. rewrite Hcv. reflexivity. }
  rewrite Hd. clear Hd.
  destruct (construct_run B canvas w) as (Hp & (l & Hl & Hpre & Hfull) & Hok & Hko & Hs).
  destruct (construct B canvas w) as [w1 [[]| |]]; cbn [fst snd] in *.
  - rewrite (Hfull eq_refl) in *. split; [by eexists|]. left.
    unfold having_posted. cbn. by rewrite Hp, (Hok eq_refl).
  - split; [by eexists|]. right. unfold having_posted. cbn.
    by rewrite Hp, Hko.
  - done.
Qed.

Lemma init_never_disposes_witness :
  engineCalls (fst (onMessage demoBabylon (message "init" []) staleWorker))
  = engineCalls staleWorker ++ [EngineNew None; SceneNew; SceneSetup 1].
Proof.
  destruct (init_never_disposes demoBabylon (message "init" []) None staleWorker
              eq_refl eq_refl) as [_ [(_ & _ & H)|(H & _)]].
  - exact H.
  - vm_compute in H. discriminate H.
Defined.

(** X23.  The engine is never called without a scene.  Whatever messages
    the worker has handled since it started, and whichever of them failed,
    a helper that is installed has a scene, its sphere, if any, was created
    in a scene, and every call made on the engine that takes a scene was
    given one. *)
Theorem engine_always_gets_a_scene (B : Babylon) (msgs : list JsValue) :
  let w := afterMessages B msgs newWorker in
  Forall sceneDefined (engineCalls w) /\
  forall sc m, _Instance w = Some (sc, m) ->
    sc <> None /\ forall sp, m = Some sp -> sp_scene sp <> None.
Proof.
  intros w.
  assert (Hs : safe w).
  { apply afterMessages_safe. split; [exact I|by apply Forall_nil]. }
  destruct Hs as [Hcons Hc]. split; [exact Hc|].
  intros sc m Hi. unfold consistent in Hcons. rewrite Hi in Hcons.
  destruct Hcons as [(n & -> & _) Hm]. split; [done|].
  intros sp ->. by destruct Hm as (j & -> & _).
Qed.

(** * The main toolbar *)

Lemma switch_default {X} (v : string) (cases : list (string * X)) (d : X) :
  (forall c, In c (map fst cases) -> v <> c) -> switch v cases d = d.
Proof.
  induction cases as [|[c x] cases IH]; intros H; cbn; [done|].
  destruct (String.eqb_spec v c) as [->|_].
  - exfalso. apply (H c); [by left|done].
  - apply IH. intros c' Hc'. apply H. by right.
Qed.

Ltac click_differs H :=
  cbv in H;
  repeat match type of H with
  | context [match ?x with Some _ => _ | None => _ end] => destruct x
  end;
  first
    [ discriminate H
    | injection H as H; apply (f_equal length) in H; cbn in H; lia ].

(** X24.  Two entries of the edit menu do nothing.  Of the ids that the
    menus pass to [_menuItemClicked], [edit:undo] and [edit:redo] are the
    only ones for which a click changes nothing and calls nothing, whatever
    the editor holds; every other entry calls the editor or rejects.  More
    generally an id that the first [switch] does not know and whose family
    is not [view], [add] or [addmesh] has no effect. *)
Theorem undo_and_redo_do_nothing (SceneFactory : nat -> string -> option nat) :
  (forall id, In id menuItems ->
     (forall t, _menuItemClicked SceneFactory id t = (t, Returns tt)) <->
     (id = "edit:undo" \/ id = "edit:redo")) /\
  (forall id t, ~ In id commonIds ->
     ~ In (familyOf id) ["view"; "add"; "addmesh"] ->
     _menuItemClicked SceneFactory id t = (t, Returns tt)).
Proof.
  split.
  - intros id Hin. cbn [In menuItems] in Hin.
    repeat destruct Hin as [<-|Hin]; try done;
      (split;
       [ intros H; first
           [ by left | by right
           | exfalso; specialize (H (mkToolbar None [])); click_differs H ]
       | intros [H|H]; first [ discriminate H | intros [sc cs]; reflexivity ] ]).
  - intros id t Hc Hf. unfold _menuItemClicked. fold (familyOf id). cbv zeta.
    rewrite switch_default.
    2:{ intros c Hin Heq. subst c. apply Hc. exact Hin. }
    destruct (String.eqb_spec (familyOf id) "view") as [He|_].
    { exfalso. apply Hf. rewrite He. cbn. tauto. }
    destruct (String.eqb_spec (familyOf id) "add") as [He|_].
    { exfalso. apply Hf. rewrite He. cbn. tauto. }
    destruct (String.eqb_spec (familyOf id) "addmesh") as [He|_].
    { exfalso. apply Hf. rewrite He. cbn. tauto. }
    by destruct t.
Qed.

Lemma undo_and_redo_do_nothing_witness :
  _menuItemClicked (fun _ _ => Some 0) "edit:undo" (mkToolbar (Some (true, false)) [])
  = (mkToolbar (Some (true, false)) [], Returns tt).
Proof.
  apply (proj2 (proj1 (undo_and_redo_do_nothing (fun _ _ => Some 0))
                  "edit:undo" ltac:(cbn; tauto))).
  by left.
Defined.
